(** * Guarded-query core of the MCP adapters: a shallow embedding

    The embedding follows the TypeScript sources:
    - [servers/sqlite-mcp/src/index.ts]     (module [Sqlite])
    - [servers/postgres-mcp/src/index.ts]   (module [Postgres])
    - [servers/filesystem-mcp/src/index.ts] (module [Filesystem])
    - [servers/obsidian-mcp/src/index.ts]   (module [Obsidian])
    - the test re-implementations of the security helpers (module [FsTest]).

    JavaScript strings are embedded as [string]: a sequence of code units
    below 256.  White space and the regular-expression classes are those of
    ECMAScript on that range (160, the no-break space, is white space).
    [toLowerCase] is that of ECMAScript on that range: it converts the ASCII
    capitals and the capitals 192 to 222 of Latin-1 (215, the multiplication
    sign, is not one).  [toUpperCase] converts the ASCII letters only: the
    upper case of the other letters of the range does not always fit in it
    (223 becomes two letters, 181 and 255 leave the range), and outside the
    range ECMAScript converts a few characters into ASCII letters (U+017F
    into S, U+0131 into I); a statement that depends on [toUpperCase] is
    made for ASCII text.  Thrown exceptions are the [Throw] results of the
    [result] monad; [try_catch] is the [try]/[catch] statement. *)

From Stdlib Require Import Bool Arith ZArith List Ascii String Lia.
From Stdlib Require Import Numbers.DecimalString Strings.Byte.
Import ListNotations.

Local Open Scope list_scope.
Local Open Scope string_scope.
Local Open Scope nat_scope.

(** ** Exceptions *)

Inductive result (A : Type) : Type :=
| Ok (a : A)
| Throw (message : string).

Arguments Ok {A} a.
Arguments Throw {A} message.

Definition bind {A B : Type} (m : result A) (k : A -> result B) : result B :=
  match m with
  | Ok a => k a
  | Throw e => Throw e
  end.

Definition try_catch {A : Type} (body : result A) (handler : string -> result A)
  : result A :=
  match body with
  | Ok a => Ok a
  | Throw e => handler e
  end.

Declare Scope js_scope.
Delimit Scope js_scope with js.
Notation "x <- m ;; k" := (bind m (fun x => k))
  (at level 61, m at next level, right associativity) : js_scope.
Notation "m ;;; k" := (bind m (fun _ => k))
  (at level 61, right associativity) : js_scope.

(** ** String and array primitives of the JavaScript runtime *)

Module Js.

Definition code (c : ascii) : nat := nat_of_ascii c.

Definition in_range (lo hi : nat) (c : ascii) : bool :=
  (lo <=? code c) && (code c <=? hi).

Definition is_upper (c : ascii) : bool := in_range 65 90 c.
Definition is_lower (c : ascii) : bool := in_range 97 122 c.
Definition is_letter (c : ascii) : bool := is_upper c || is_lower c.
Definition is_digit (c : ascii) : bool := in_range 48 57 c.

(** [\w] without the unicode flag: [A-Za-z0-9_]. *)
Definition is_word (c : ascii) : bool :=
  is_letter c || is_digit c || (code c =? 95).

(** [\s] and the characters removed by [trim]: TAB, LF, VT, FF, CR, SP, NBSP. *)
Definition is_space (c : ascii) : bool :=
  in_range 9 13 c || (code c =? 32) || (code c =? 160).

(** Control characters: C0, DEL and C1. *)
Definition is_control (c : ascii) : bool :=
  (code c <? 32) || in_range 127 159 c.

Definition upper_char (c : ascii) : ascii :=
  if is_lower c then ascii_of_nat (code c - 32) else c.

(** The capitals of Latin-1: 192 to 222 without the multiplication sign. *)
Definition is_latin_upper (c : ascii) : bool :=
  in_range 192 222 c && negb (code c =? 215).

Definition lower_char (c : ascii) : ascii :=
  if is_upper c || is_latin_upper c then ascii_of_nat (code c + 32) else c.

Fixpoint map_chars (f : ascii -> ascii) (s : string) : string :=
  match s with
  | EmptyString => EmptyString
  | String c s' => String (f c) (map_chars f s')
  end.

Definition toUpperCase : string -> string := map_chars upper_char.
Definition toLowerCase : string -> string := map_chars lower_char.

Definition is_empty (s : string) : bool :=
  match s with EmptyString => true | String _ _ => false end.

Fixpoint trimStart (s : string) : string :=
  match s with
  | EmptyString => EmptyString
  | String c s' => if is_space c then trimStart s' else s
  end.

Fixpoint trimEnd (s : string) : string :=
  match s with
  | EmptyString => EmptyString
  | String c s' =>
      let t := trimEnd s' in
      if is_space c && is_empty t then EmptyString else String c t
  end.

Definition trim (s : string) : string := trimEnd (trimStart s).

(** [s.startsWith(p)] *)
Fixpoint startsWith (s p : string) {struct p} : bool :=
  match p, s with
  | EmptyString, _ => true
  | String _ _, EmptyString => false
  | String a p', String b s' => Ascii.eqb a b && startsWith s' p'
  end.

(** [s.endsWith(p)] *)
Definition endsWith (s p : string) : bool :=
  (String.length p <=? String.length s)
  && String.eqb (substring (String.length s - String.length p) (String.length p) s) p.

(** [s.includes(p)] *)
Fixpoint includes (s p : string) : bool :=
  startsWith s p ||
  match s with
  | EmptyString => false
  | String _ s' => includes s' p
  end.

(** [s.replace(/c/g, r)] for a one-character pattern [c] and a replacement
    [r] without [$]. *)
Fixpoint replace_all (c : ascii) (r : string) (s : string) : string :=
  match s with
  | EmptyString => EmptyString
  | String a s' =>
      if Ascii.eqb a c then (r ++ replace_all c r s')%string
      else String a (replace_all c r s')
  end.

(** [s.replace(/^c/, r)]: only a leading [c] is replaced. *)
Definition replace_leading (c : ascii) (r : string) (s : string) : string :=
  match s with
  | String a s' => if Ascii.eqb a c then (r ++ s')%string else s
  | EmptyString => EmptyString
  end.

(** [s.split(/\s+/)]: the pieces between the runs of white space; [in_gap]
    tells that the character before was white space. *)
Fixpoint split_spaces (in_gap : bool) (s : string) : list string :=
  match s with
  | EmptyString => [EmptyString]
  | String c s' =>
      if is_space c then
        if in_gap then split_spaces true s'
        else EmptyString :: split_spaces true s'
      else
        match split_spaces false s' with
        | piece :: rest => String c piece :: rest
        | [] => [String c EmptyString]
        end
  end.

(** [parts.join(sep)] *)
Fixpoint join (sep : string) (parts : list string) : string :=
  match parts with
  | [] => EmptyString
  | [p] => p
  | p :: rest => (p ++ sep ++ join sep rest)%string
  end.

(** [a.slice(start, end)] of ECMAScript: a negative index counts from the
    end of the array, and both indices are clamped to the array. *)
Definition clamp_index (len i : Z) : Z :=
  if (i <? 0)%Z then Z.max (len + i) 0 else Z.min i len.

Definition slice {A : Type} (a : list A) (start stop : Z) : list A :=
  let len := Z.of_nat (List.length a) in
  let k := clamp_index len start in
  let final := clamp_index len stop in
  firstn (Z.to_nat (Z.max (final - k) 0)) (skipn (Z.to_nat k) a).

(** Template-literal rendering of an integer. *)
Definition number_to_string (n : Z) : string :=
  NilZero.string_of_int (Z.to_int n).

End Js.

(** ** The regular-expression fragment used by the sources

    A pattern is a sequence of atoms; [test] looks for a match starting at
    any index, as [RegExp.prototype.test] does for a pattern without the
    sticky flag. *)

Module RegExp.

Inductive atom : Type :=
| Bol                              (* ^  (no multiline flag) *)
| Eol                              (* $  (no multiline flag) *)
| WordBoundary                     (* \b *)
| Class (p : ascii -> bool)        (* one character of a class *)
| Star (p : ascii -> bool).        (* a class, zero or more times *)

Definition regex : Type := list atom.

Definition word_before (prev : option ascii) : bool :=
  match prev with Some c => Js.is_word c | None => false end.

Definition word_after (s : string) : bool :=
  match s with String c _ => Js.is_word c | EmptyString => false end.

Definition at_start (prev : option ascii) : bool :=
  match prev with None => true | Some _ => false end.

(** [matches re prev s]: [re] matches a prefix of [s], where [prev] is the
    character just before [s] in the subject ([None] at index 0). *)
Fixpoint matches (re : regex) : option ascii -> string -> bool :=
  match re with
  | [] => fun _ _ => true
  | Bol :: re' => fun prev s => at_start prev && matches re' prev s
  | Eol :: re' => fun prev s => Js.is_empty s && matches re' prev s
  | WordBoundary :: re' =>
      fun prev s => xorb (word_before prev) (word_after s) && matches re' prev s
  | Class p :: re' =>
      fun _ s =>
        match s with
        | String c s' => p c && matches re' (Some c) s'
        | EmptyString => false
        end
  | Star p :: re' =>
      fix star (prev : option ascii) (s : string) {struct s} : bool :=
        matches re' prev s ||
        match s with
        | String c s' => p c && star (Some c) s'
        | EmptyString => false
        end
  end.

Fixpoint search (re : regex) (prev : option ascii) (s : string) : bool :=
  matches re prev s ||
  match s with
  | String c s' => search re (Some c) s'
  | EmptyString => false
  end.

Definition test (re : regex) (s : string) : bool := search re None s.

(** A literal character under the [i] flag. *)
Definition char_i (c : ascii) : ascii -> bool :=
  fun d => Ascii.eqb (Js.upper_char d) (Js.upper_char c).

Fixpoint literal_i (w : string) : regex :=
  match w with
  | EmptyString => []
  | String c w' => Class (char_i c) :: literal_i w'
  end.

(** [new RegExp(`\\b${keyword}\\b`, 'i')] for a keyword made of letters. *)
Definition whole_word_i (keyword : string) : regex :=
  WordBoundary :: (literal_i keyword ++ [WordBoundary])%list.

End RegExp.

(** ** [node:path] on POSIX

    [resolve] processes its arguments from right to left until an absolute
    path is built, falls back on the working directory, and normalises the
    result: empty and [.] segments are dropped and [..] removes the segment
    before it. *)

Module Path.

Definition slash : ascii := "/"%char.

Definition is_absolute (p : string) : bool :=
  match p with String c _ => Ascii.eqb c slash | EmptyString => false end.

(** [p.split('/')] *)
Fixpoint segments (p : string) : list string :=
  match p with
  | EmptyString => [EmptyString]
  | String c p' =>
      let r := segments p' in
      if Ascii.eqb c slash then EmptyString :: r
      else match r with
           | seg :: rest => String c seg :: rest
           | [] => [String c EmptyString]
           end
  end.

(** One segment of [normalizeString]; [stack] holds the kept segments,
    innermost first. *)
Definition push_segment (allowAboveRoot : bool) (stack : list string)
           (seg : string) : list string :=
  if String.eqb seg "" || String.eqb seg "." then stack
  else if String.eqb seg ".." then
    match stack with
    | top :: rest =>
        if String.eqb top ".." then seg :: stack else rest
    | [] => if allowAboveRoot then [seg] else []
    end
  else seg :: stack.

Definition normalizeString (p : string) (allowAboveRoot : bool) : string :=
  Js.join "/" (rev (fold_left (push_segment allowAboveRoot) (segments p) [])).

(** The right-to-left loop of [resolve]; [args] is given last first and
    [cwd] stands for [process.cwd()]. *)
Fixpoint gather (cwd : string) (args : list string) (resolvedPath : string)
  : string * bool :=
  match args with
  | [] =>
      if Js.is_empty cwd then (resolvedPath, false)
      else ((cwd ++ "/" ++ resolvedPath)%string, is_absolute cwd)
  | p :: rest =>
      if Js.is_empty p then gather cwd rest resolvedPath
      else
        let resolvedPath' := (p ++ "/" ++ resolvedPath)%string in
        if is_absolute p then (resolvedPath', true)
        else gather cwd rest resolvedPath'
  end.

Definition resolve (cwd : string) (args : list string) : string :=
  let (resolvedPath, resolvedAbsolute) := gather cwd (rev args) "" in
  let normalized := normalizeString resolvedPath (negb resolvedAbsolute) in
  if resolvedAbsolute then ("/" ++ normalized)%string
  else if Js.is_empty normalized then "." else normalized.

Fixpoint ends_with_slash (p : string) : bool :=
  match p with
  | EmptyString => false
  | String c EmptyString => Ascii.eqb c slash
  | String _ p' => ends_with_slash p'
  end.

(** [normalize(p)] *)
Definition normalize (p : string) : string :=
  if Js.is_empty p then "."
  else
    let normalized := normalizeString p (negb (is_absolute p)) in
    if Js.is_empty normalized then
      if is_absolute p then "/" else if ends_with_slash p then "./" else "."
    else
      let normalized :=
        if ends_with_slash p then (normalized ++ "/")%string else normalized in
      if is_absolute p then ("/" ++ normalized)%string else normalized.

(** [join(...args)] *)
Definition join (args : list string) : string :=
  match filter (fun a => negb (Js.is_empty a)) args with
  | [] => "."
  | parts => normalize (Js.join "/" parts)
  end.

(** The suffix of a file name from its last dot on; a name without a dot,
    or whose only dot is its first character, has none.  [name] is an entry
    name, without separator. *)
Fixpoint last_dot_suffix (name : string) : option string :=
  match name with
  | EmptyString => None
  | String c name' =>
      match last_dot_suffix name' with
      | Some ext => Some ext
      | None => if Ascii.eqb c "."%char then Some name else None
      end
  end.

(** [extname(name)] for an entry name. *)
Definition extname (name : string) : string :=
  match name with
  | EmptyString => ""
  | String c name' =>
      match last_dot_suffix name' with
      | Some ext => ext
      | None => ""
      end
  end.

End Path.

(** ** Shapes shared by the adapters *)

(** The payload a tool call answers with: [{ content: [{ type: 'text', text }],
    isError }]; an absent [isError] is [false]. *)
Record Response : Type := { text : string; isError : bool }.

Definition reply (t : string) : Response := {| text := t; isError := false |}.
Definition reply_error (t : string) : Response := {| text := t; isError := true |}.

(** A text between double quotes, as the messages show a name. *)
Definition quoted (s : string) : string :=
  String "034"%char (s ++ String "034"%char "").

(** The [for (const keyword of dangerous)] loop of the two SQL adapters: the
    first keyword of the list that occurs as a whole word. *)
Fixpoint first_forbidden (dangerous : list string) (sql : string) : option string :=
  match dangerous with
  | [] => None
  | keyword :: rest =>
      if RegExp.test (RegExp.whole_word_i keyword) sql then Some keyword
      else first_forbidden rest sql
  end.

(** ** servers/sqlite-mcp/src/index.ts *)

Module Sqlite.
Import Js RegExp.

Definition dquote : ascii := "034"%char.

(** A value of a result row, and a row as [Object.entries] lists it. *)
Inductive cell : Type :=
| Null
| Integer (z : Z)
| Text (s : string).

Definition Row : Type := list (string * cell).

Fixpoint field (row : Row) (key : string) : cell :=
  match row with
  | [] => Null
  | (k, v) :: rest => if String.eqb k key then v else field rest key
  end.

Definition as_text (c : cell) : string :=
  match c with
  | Text s => s
  | Integer z => number_to_string z
  | Null => ""
  end.

Definition as_number (c : cell) : Z :=
  match c with Integer z => z | _ => 0%Z end.

Definition keys (row : Row) : list string := map fst row.

(** [database.prepare(sql).all(...params)] *)
Record Database : Type := {
  all : string -> list cell -> result (list Row)
}.

(** [database.prepare(sql).get(...params)]: the first row, if any. *)
Definition get (database : Database) (sql : string) (params : list cell)
  : result (option Row) :=
  (rows <- all database sql params ;; Ok (hd_error rows))%js.

Record Config : Type := {
  DB_PATH : option string;     (* SQLITE_PATH || SQLITE_DATABASE *)
  READ_ONLY : bool;            (* SQLITE_READONLY !== 'false' *)
  MAX_ROWS : Z                 (* parseInt(SQLITE_MAX_ROWS || '100', 10) *)
}.

Record World : Type := {
  HOME : option string;
  cwd : string;
  existsSync : string -> bool;
  open : string -> bool -> result Database    (* new Database(path, { readonly }) *)
}.

Record ColumnInfo : Type := {
  col_name : string;
  col_type : string;
  nullable : bool;
  primaryKey : bool;
  defaultValue : cell
}.

Record TableInfo : Type := {
  name : string;
  type : string;
  table_columns : list ColumnInfo;
  table_rowCount : Z
}.

Record QueryResult : Type := {
  columns : list string;
  rows : list Row;
  rowCount : Z;
  truncated : bool
}.

Inductive identifier_kind : Type := table | column | schema.

Definition kind_name (k : identifier_kind) : string :=
  match k with table => "table" | column => "column" | schema => "schema" end.

Definition ident_start (c : ascii) : bool := is_letter c || (code c =? 95).
Definition ident_loose (c : ascii) : bool :=
  is_letter c || is_digit c || (code c =? 95) || (code c =? 32) || (code c =? 45).

(** [/^[a-zA-Z_][a-zA-Z0-9_]*$/] *)
Definition strict_identifier : regex :=
  [Bol; Class ident_start; Star is_word; Eol].

(** [/^[a-zA-Z0-9_ -]+$/] *)
Definition loose_identifier : regex :=
  [Bol; Class ident_loose; Star ident_loose; Eol].

Definition validateIdentifier (name : string) (type : identifier_kind)
  : result string :=
  if negb (test strict_identifier name) then
    if negb (test loose_identifier name) then
      Throw ("Invalid " ++ kind_name type ++ " name: contains disallowed characters")
    else Ok name
  else Ok name.

Definition quoteIdentifier (name : string) : string :=
  String dquote (replace_all dquote (String dquote (String dquote "")) name
                 ++ String dquote "").

Definition dangerous : list string :=
  [ "INSERT"; "UPDATE"; "DELETE"; "DROP"; "ALTER"; "CREATE";
    "ATTACH"; "DETACH"; "REPLACE"; "TRUNCATE";
    "PRAGMA"; "VACUUM"; "REINDEX"; "ANALYZE" ].

(** [/;[\s]*\S/] *)
Definition second_statement : regex :=
  [Class (Ascii.eqb ";"%char); Star is_space; Class (fun c => negb (is_space c))].

Definition not_read_only_message : string :=
  "Only SELECT, WITH, and EXPLAIN queries are allowed in read-only mode".

(** The body of [if (READ_ONLY) { ... }] in [executeQuery]. *)
Definition read_only_gate (sql : string) : result unit :=
  let trimmed := trim sql in
  let upper := toUpperCase trimmed in
  if negb (startsWith upper "SELECT") && negb (startsWith upper "WITH")
     && negb (startsWith upper "EXPLAIN")
  then Throw not_read_only_message
  else
    match first_forbidden dangerous sql with
    | Some keyword => Throw ("Query contains forbidden keyword: " ++ keyword)
    | None =>
        if test second_statement sql
        then Throw "Multiple statements are not allowed"
        else Ok tt
    end.

(** The [try] block of [executeQuery], after [stmt.all()]. *)
Definition window (MAX_ROWS : Z) (rows : list Row) : QueryResult :=
  let truncated := (Z.of_nat (List.length rows) >? MAX_ROWS)%Z in
  let limitedRows := slice rows 0 MAX_ROWS in
  let columns := match limitedRows with r :: _ => keys r | [] => [] end in
  {| columns := columns;
     rows := limitedRows;
     rowCount := Z.of_nat (List.length rows);
     truncated := truncated |}.

Fixpoint mapM {A B : Type} (f : A -> result B) (l : list A) : result (list B) :=
  match l with
  | [] => Ok []
  | a :: rest => (b <- f a ;; bs <- mapM f rest ;; Ok (b :: bs))%js
  end.

(** Text rendering of the results: pure, and outside the guarded core. *)
Record Rendering : Type := {
  render_tables : list TableInfo -> string;
  render_table : TableInfo -> string;
  render_rows : QueryResult -> string;
  render_matches : string -> list (string * list Row) -> string;
  render_sample : string -> list Row -> string
}.

Section Adapter.
Variable cfg : Config.
Variable w : World.
Variable rendering : Rendering.

(** The connection is opened on first use and kept; the embedding opens
    it at each use, with the same outcome. *)
Definition getDatabase : result Database :=
  match DB_PATH cfg with
  | None => Throw "SQLITE_PATH environment variable not set"
  | Some p =>
      if is_empty p then Throw "SQLITE_PATH environment variable not set"
      else
        let home := match HOME w with Some h => h | None => "" end in
        let dbPath := Path.resolve (cwd w) [replace_leading "~"%char home p] in
        if negb (existsSync w dbPath)
        then Throw ("Database file not found: " ++ dbPath)
        else open w dbPath (READ_ONLY cfg)
  end.

(** The statement of [listTables], its line breaks written as spaces. *)
Definition tables_query : string :=
  "SELECT name, type FROM sqlite_master WHERE type IN ('table', 'view') AND name NOT LIKE 'sqlite_%' ORDER BY type, name".

Definition column_info (col : Row) : ColumnInfo :=
  {| col_name := as_text (field col "name");
     col_type := (let t := as_text (field col "type") in
                  if is_empty t then "ANY" else t);
     nullable := (as_number (field col "notnull") =? 0)%Z;
     primaryKey := (as_number (field col "pk") =? 1)%Z;
     defaultValue := field col "dflt_value" |}.

Definition table_info (database : Database) (t : Row) : result TableInfo :=
  let safeName := quoteIdentifier (as_text (field t "name")) in
  (cols <- all database ("PRAGMA table_info(" ++ safeName ++ ")") [] ;;
   countResult <- get database ("SELECT COUNT(*) as count FROM " ++ safeName) [] ;;
   match countResult with
   | None => Throw "Cannot read properties of undefined (reading 'count')"
   | Some r =>
       Ok {| name := as_text (field t "name");
             type := as_text (field t "type");
             table_columns := map column_info cols;
             table_rowCount := as_number (field r "count") |}
   end)%js.

Definition listTables : result (list TableInfo) :=
  (database <- getDatabase ;;
   tables <- all database tables_query [] ;;
   mapM (table_info database) tables)%js.

Definition describeTable (tableName : string) : result (option TableInfo) :=
  (validateIdentifier tableName table ;;;
   tables <- listTables ;;
   Ok (find (fun t => String.eqb (toLowerCase (name t)) (toLowerCase tableName))
            tables))%js.

Definition executeQuery (sql : string) : result QueryResult :=
  (database <- getDatabase ;;
   (if READ_ONLY cfg then read_only_gate sql else Ok tt) ;;;
   try_catch
     (rows <- all database sql [] ;; Ok (window (MAX_ROWS cfg) rows))
     (fun message => Throw ("Query failed: " ++ message)))%js.

Definition is_text_column (col : Row) : bool :=
  let t := toUpperCase (as_text (field col "type")) in
  includes t "TEXT" || includes t "VARCHAR" || includes t "CHAR" || is_empty t.

Definition like_condition (col : Row) : string :=
  quoteIdentifier (as_text (field col "name")) ++ " LIKE '%' || ? || '%'".

(** One round of the [for (const table of tables)] loop of [searchTables];
    a table that cannot be searched is skipped. *)
Definition search_table (database : Database) (searchTerm tableName : string)
  : list (string * list Row) :=
  match
    (let safeTableName := quoteIdentifier tableName in
     cols <- all database ("PRAGMA table_info(" ++ safeTableName ++ ")") [] ;;
     let textColumns := filter is_text_column cols in
     match textColumns with
     | [] => Ok []
     | _ =>
         let conditions := join " OR " (map like_condition textColumns) in
         let query := "SELECT * FROM " ++ safeTableName ++ " WHERE "
                      ++ conditions ++ " LIMIT 10" in
         found <- all database query (map (fun _ => Text searchTerm) textColumns) ;;
         Ok (match found with [] => [] | _ => [(tableName, found)] end)
     end)%js
  with
  | Ok r => r
  | Throw _ => []
  end.

Definition searchTables (searchTerm : string) (tableName : option string)
  : result (list (string * list Row)) :=
  (database <- getDatabase ;;
   names <- match tableName with
            | Some t =>
                if is_empty t then (ts <- listTables ;; Ok (map name ts))
                else (validateIdentifier t table ;;; Ok [t])
            | None => (ts <- listTables ;; Ok (map name ts))
            end ;;
   Ok (flat_map (search_table database searchTerm) names))%js.

Definition getTableSample (tableName : string) (limit : Z) : result (list Row) :=
  (database <- getDatabase ;;
   validateIdentifier tableName table ;;;
   let safeTableName := quoteIdentifier tableName in
   try_catch
     (all database ("SELECT * FROM " ++ safeTableName ++ " LIMIT ?") [Integer limit])
     (fun message => Throw ("Failed to sample table: " ++ message)))%js.

(** A [CallToolRequest]: the tool name with its arguments as the handler
    casts them. *)
Inductive ToolCall : Type :=
| list_tables
| describe_table (tableName : string)
| query (sql : string)
| search (term : string) (tableName : option string)
| sample (tableName : string) (limit : option Z)
| unknown (toolName : string).

Definition dispatch (request : ToolCall) : result Response :=
  match request with
  | list_tables =>
      (tables <- listTables ;;
       Ok (reply (match tables with
                  | [] => "No tables found in database"
                  | _ => render_tables rendering tables
                  end)))%js
  | describe_table tableName =>
      (found <- describeTable tableName ;;
       Ok (reply (match found with
                  | None => "Table not found: " ++ tableName
                  | Some t => render_table rendering t
                  end)))%js
  | query sql =>
      (r <- executeQuery sql ;;
       Ok (reply (match rows r with
                  | [] => "Query returned no results"
                  | _ => render_rows rendering r
                  end)))%js
  | search term tableName =>
      (results <- searchTables term tableName ;;
       Ok (reply (match results with
                  | [] => "No matches found for " ++ quoted term
                  | _ => render_matches rendering term results
                  end)))%js
  | sample tableName limit =>
      let actualLimit := Z.min (match limit with Some l => l | None => 5%Z end) 20 in
      (found <- getTableSample tableName actualLimit ;;
       Ok (reply (match found with
                  | [] => "Table " ++ quoted tableName ++ " is empty"
                  | _ => render_sample rendering tableName found
                  end)))%js
  | unknown toolName => Ok (reply ("Unknown tool: " ++ toolName))
  end.

(** [server.setRequestHandler(CallToolRequestSchema, ...)] *)
Definition call_tool (request : ToolCall) : result Response :=
  try_catch (dispatch request)
            (fun message => Ok (reply ("Error: " ++ message))).

End Adapter.

End Sqlite.

(** ** servers/postgres-mcp/src/index.ts: the [pg_query] tool *)

Module Postgres.
Import Js RegExp.

(** What [client.query] resolves to. *)
Record QueryResult : Type := {
  rowCount : Z;
  rows : list (list (string * string))
}.

(** A pooled connection: the statements sent so far, in order, and the
    server's answer to the next statement given those sent before it. *)
Record Client : Type := {
  sent : list string;
  answer : list string -> string -> result QueryResult;
  released : bool
}.

(** [await client.query(statement)] *)
Definition client_query (client : Client) (statement : string)
  : Client * result QueryResult :=
  ({| sent := (sent client ++ [statement])%list;
      answer := answer client;
      released := released client |},
   answer client (sent client) statement).

(** [client.release()] *)
Definition release (client : Client) : Client :=
  {| sent := sent client; answer := answer client; released := true |}.

Definition dangerous : list string :=
  [ "insert"; "update"; "delete"; "drop"; "alter"; "create"; "truncate";
    "grant"; "revoke"; "copy" ].

Definition not_select_message : string :=
  "Error: Only SELECT queries are allowed for safety. Use pg_describe_table for schema info.".

(** The two early [return]s of the [pg_query] case: the error payload of a
    refused query, [None] for a query that goes on to execution. *)
Definition gate (query : string) : option Response :=
  let trimmedQuery := toLowerCase (trim query) in
  match first_forbidden dangerous query with
  | Some keyword =>
      Some (reply_error ("Error: Query contains forbidden keyword: "
                         ++ toUpperCase keyword))
  | None =>
      if negb (startsWith trimmedQuery "select") && negb (startsWith trimmedQuery "with")
      then Some (reply_error not_select_message)
      else None
  end.

(** [// Add LIMIT if not present] *)
Definition add_limit (query : string) (limit : Z) : string :=
  let trimmedQuery := toLowerCase (trim query) in
  if negb (includes trimmedQuery "limit")
  then query ++ " LIMIT " ++ number_to_string limit
  else query.

Section Adapter.
(** [JSON.stringify({ rowCount, rows }, null, 2)] *)
Variable to_json : QueryResult -> string.

(** [catch (error) { await client.query('ROLLBACK'); throw error; }] *)
Definition rollback (client : Client) (message : string)
  : Client * result Response :=
  let (client', r) := client_query client "ROLLBACK" in
  match r with
  | Ok _ => (client', Throw message)
  | Throw message' => (client', Throw message')
  end.

(** The read-only transaction around [safeQuery], with its [finally]. *)
Definition run_read_only (client : Client) (safeQuery : string)
  : Client * result Response :=
  let (c1, began) := client_query client "BEGIN TRANSACTION READ ONLY" in
  let (c', r) :=
    match began with
    | Throw message => rollback c1 message
    | Ok _ =>
        let (c2, result) := client_query c1 safeQuery in
        match result with
        | Throw message => rollback c2 message
        | Ok res =>
            let (c3, committed) := client_query c2 "COMMIT" in
            match committed with
            | Throw message => rollback c3 message
            | Ok _ => (c3, Ok (reply (to_json res)))
            end
        end
    end in
  (release c', r).

(** The [pg_query] case with the [catch] of the handler around it;
    [connect] is [await pool.connect()] and [limit] defaults to 100. *)
Definition pg_query (connect : result Client) (query : string) (limit : option Z)
  : option Client * Response :=
  let limit := match limit with Some l => l | None => 100%Z end in
  match gate query with
  | Some refused => (None, refused)
  | None =>
      let safeQuery := add_limit query limit in
      match connect with
      | Throw message => (None, reply_error ("Database error: " ++ message))
      | Ok client =>
          let (client', r) := run_read_only client safeQuery in
          match r with
          | Ok response => (Some client', response)
          | Throw message =>
              (Some client', reply_error ("Database error: " ++ message))
          end
      end
  end.

End Adapter.

End Postgres.

(** ** servers/filesystem-mcp/src/index.ts *)

Module Filesystem.
Import Js.

Definition nl : string := String "010"%char "".

Record Config : Type := {
  FS_ROOT : string;
  MAX_FILE_SIZE : Z;     (* parseInt(FS_MAX_SIZE || '1048576', 10) *)
  MAX_RESULTS : Z        (* parseInt(FS_MAX_RESULTS || '100', 10) *)
}.

(** What a path names on disk. *)
Inductive node : Type :=
| File (bytes : list byte)
| Directory (size : Z).

Record World : Type := {
  cwd : string;
  homedir : string;
  lookup : string -> option node
}.

Record ReadResult : Type := {
  content : string;
  truncated : bool;
  binary : bool
}.

(** [process.env.FS_ROOT?.replace(/^~/, homedir()) || process.cwd()] *)
Definition root_of_env (w : World) (env_FS_ROOT : option string) : string :=
  match env_FS_ROOT with
  | Some r =>
      let r' := replace_leading "~"%char (homedir w) r in
      if is_empty r' then cwd w else r'
  | None => cwd w
  end.

(** [isBinaryFile]: a zero byte among the first 8192. *)
Definition isBinaryFile (buffer : list byte) : bool :=
  let sample := slice buffer 0 8192 in
  existsb (fun b => Byte.eqb b "000"%byte) sample.

Section Adapter.
Variable cfg : Config.
Variable w : World.
(** [buffer.toString('utf-8')] *)
Variable toString : list byte -> string.
(** [formatSize], which renders through [toFixed]. *)
Variable formatSize : Z -> string.

Definition resolvePath (inputPath : string) : result string :=
  let expanded := replace_leading "~"%char (homedir w) inputPath in
  let resolved := Path.resolve (cwd w) [FS_ROOT cfg; expanded] in
  let normalizedRoot := Path.resolve (cwd w) [FS_ROOT cfg] in
  let normalizedPath := Path.resolve (cwd w) [resolved] in
  if negb (startsWith normalizedPath normalizedRoot)
  then Throw "Access denied: path is outside root directory"
  else Ok normalizedPath.

(** [stat(filePath)], of which only [size] is read. *)
Definition stat_size (filePath : string) : result Z :=
  match lookup w filePath with
  | Some (File bytes) => Ok (Z.of_nat (List.length bytes))
  | Some (Directory size) => Ok size
  | None => Throw ("ENOENT: no such file or directory, stat '" ++ filePath ++ "'")
  end.

(** [access(filePath)] *)
Definition access (filePath : string) : result unit :=
  match lookup w filePath with
  | Some _ => Ok tt
  | None => Throw ("ENOENT: no such file or directory, access '" ++ filePath ++ "'")
  end.

(** [readFile(filePath)] *)
Definition readFile (filePath : string) : result (list byte) :=
  match lookup w filePath with
  | Some (File bytes) => Ok bytes
  | Some (Directory _) => Throw "EISDIR: illegal operation on a directory, read"
  | None => Throw ("ENOENT: no such file or directory, open '" ++ filePath ++ "'")
  end.

(** [Buffer.alloc(n)], then [open], [handle.read(buffer, 0, n, 0)] and
    [close]: the first [n] bytes of the file. *)
Definition read_head (filePath : string) (n : Z) : result (list byte) :=
  if (n <? 0)%Z then Throw "The value of 'size' is out of range."
  else (bytes <- readFile filePath ;; Ok (firstn (Z.to_nat n) bytes))%js.

Definition binary_marker : string := "[Binary file]".

Definition readFileContent (filePath : string) : result ReadResult :=
  (size <- stat_size filePath ;;
   if (size >? MAX_FILE_SIZE cfg)%Z then
     fd <- read_head filePath (MAX_FILE_SIZE cfg) ;;
     if isBinaryFile fd
     then Ok {| content := binary_marker; truncated := false; binary := true |}
     else Ok {| content := toString fd; truncated := true; binary := false |}
   else
     buffer <- readFile filePath ;;
     if isBinaryFile buffer
     then Ok {| content := binary_marker; truncated := false; binary := true |}
     else Ok {| content := toString buffer; truncated := false; binary := false |})%js.

Definition fence : string := "```".

(** The [read_file] case. *)
Definition read_file (path : string) : result Response :=
  (filePath <- resolvePath path ;;
   access filePath ;;;
   r <- readFileContent filePath ;;
   if binary r then Ok (reply (path ++ ": [Binary file - cannot display]"))
   else
     let output := "**" ++ path ++ "**" ++ nl ++ nl ++ fence ++ nl
                   ++ content r ++ nl ++ fence in
     let output :=
       if truncated r
       then output ++ nl ++ nl ++ "*File truncated at "
            ++ formatSize (MAX_FILE_SIZE cfg) ++ "*"
       else output in
     Ok (reply output))%js.

(** One round of the [for (const path of paths.slice(0, 10))] loop: the
    section pushed on [outputs], by the [try] block or by its [catch]. *)
Definition read_files_section (path : string) : string :=
  match
    (filePath <- resolvePath path ;;
     access filePath ;;;
     r <- readFileContent filePath ;;
     if binary r then Ok ("## " ++ path ++ nl ++ "[Binary file - cannot display]")
     else
       let output := "## " ++ path ++ nl ++ fence ++ nl ++ content r ++ nl ++ fence in
       Ok (if truncated r then output ++ nl ++ "*Truncated*" else output))%js
  with
  | Ok section => section
  | Throw message => "## " ++ path ++ nl ++ "Error: " ++ message
  end.

Definition read_files_outputs (paths : list string) : list string :=
  map read_files_section (slice paths 0 10).

Definition separator : string := nl ++ nl ++ "---" ++ nl ++ nl.

(** The [read_files] case. *)
Definition read_files (paths : list string) : result Response :=
  Ok (reply (join separator (read_files_outputs paths))).

(** A [CallToolRequest].  The cases [list_directory], [search_files],
    [search_content], [get_info], [tree] and [default] are [other]: their
    bodies, whatever they return or throw, are [other_tool]. *)
Inductive ToolCall : Type :=
| call_read_file (path : string)
| call_read_files (paths : list string)
| other (toolName : string).

Variable other_tool : string -> result Response.

Definition dispatch (request : ToolCall) : result Response :=
  match request with
  | call_read_file path => read_file path
  | call_read_files paths => read_files paths
  | other toolName => other_tool toolName
  end.

(** [server.setRequestHandler(CallToolRequestSchema, ...)] *)
Definition call_tool (request : ToolCall) : result Response :=
  try_catch (dispatch request)
            (fun message => Ok (reply ("Error: " ++ message))).

End Adapter.

End Filesystem.

(** ** The re-implementation of [resolvePath] in the filesystem test suite *)

Module FsTest.
Import Js.

Section Resolver.
Variable cwd : string.
Variable homedir : string.

Definition resolvePath (inputPath fsRoot : string) : result string :=
  let expanded := replace_leading "~"%char homedir inputPath in
  let resolved := Path.resolve cwd [fsRoot; expanded] in
  let normalizedRoot := Path.resolve cwd [fsRoot] in
  let normalizedPath := Path.resolve cwd [resolved] in
  if negb (startsWith normalizedPath (normalizedRoot ++ "/"))
     && negb (String.eqb normalizedPath normalizedRoot)
  then Throw "Access denied: path is outside root directory"
  else Ok normalizedPath.

End Resolver.

End FsTest.

(** ** servers/obsidian-mcp/src/index.ts *)

Module Obsidian.
Import Js RegExp.

Definition MAX_RESULTS : Z := 20.
Definition MAX_CONTENT_LENGTH : Z := 10000.
Definition CACHE_TTL : Z := 30000.

(** The fields of a note that the tools read.  The title is text: a
    front-matter title that YAML reads as a number or a date is outside the
    embedding. *)
Record NoteMetadata : Type := {
  path : string;
  title : string;
  tags : list string;
  links : list string;
  backlinks : list string;
  modified : string
}.

Record SearchResult : Type := {
  r_path : string;
  r_title : string;
  excerpt : string;
  score : Z;
  r_tags : list string
}.

(** A [Dirent] of [readdirSync(dir, { withFileTypes: true })]; a directory
    carries what [existsSync] and [readdirSync] answer for it. *)
#[warnings="-register-all"] Inductive entry : Type :=
| File (name : string)
| Dir (name : string) (exists_ : bool) (listing : result (list entry))
| Other (name : string).

Definition entry_name (e : entry) : string :=
  match e with
  | File name => name
  | Dir name _ _ => name
  | Other name => name
  end.

Record World : Type := {
  VAULT_PATH : string;
  vault_exists : bool;                       (* existsSync(VAULT_PATH) *)
  vault_listing : result (list entry);       (* readdirSync(VAULT_PATH, ...) *)
  existsSync : string -> bool;
  readFileSync : string -> result string;
  parseNote : string -> result NoteMetadata;
  now : Z;                                   (* Date.now() *)
  today : string                             (* new Date().toISOString().split('T')[0] *)
}.

(** The module-level [noteCache] and [lastCacheUpdate]; the map keeps its
    keys in insertion order. *)
Record Cache : Type := {
  noteCache : list (string * NoteMetadata);
  lastCacheUpdate : Z
}.

Definition initial : Cache := {| noteCache := []; lastCacheUpdate := 0 |}.

(** [noteCache.set(key, value)] *)
Fixpoint set (cache : list (string * NoteMetadata)) (key : string)
         (value : NoteMetadata) : list (string * NoteMetadata) :=
  match cache with
  | [] => [(key, value)]
  | (k, v) :: rest =>
      if String.eqb k key then (k, value) :: rest
      else (k, v) :: set rest key value
  end.

(** [noteCache.get(key)] *)
Fixpoint get (cache : list (string * NoteMetadata)) (key : string)
  : option NoteMetadata :=
  match cache with
  | [] => None
  | (k, v) :: rest => if String.eqb k key then Some v else get rest key
  end.

(** The body of the [for (const entry of entries)] loop of
    [getAllMarkdownFiles], with the recursive call on a directory; [files]
    is the array shared by all the calls. *)
Fixpoint scan_entry (dir : string) (e : entry) (files : list string)
         {struct e} : result (list string) :=
  let fullPath := Path.join [dir; entry_name e] in
  if startsWith (entry_name e) "." || String.eqb (entry_name e) "node_modules"
  then Ok files
  else
    match e with
    | Dir _ exists_ listing =>
        if negb exists_ then Ok files
        else
          match listing with
          | Throw message => Throw message
          | Ok sub =>
              (fix scan_all (entries : list entry) (files : list string)
                   {struct entries} : result (list string) :=
                 match entries with
                 | [] => Ok files
                 | e' :: rest =>
                     match scan_entry fullPath e' files with
                     | Throw message => Throw message
                     | Ok files' => scan_all rest files'
                     end
                 end) sub files
          end
    | File name =>
        if String.eqb (Path.extname name) ".md"
        then Ok (files ++ [fullPath])%list
        else Ok files
    | Other _ => Ok files
    end.

Fixpoint scan (dir : string) (entries : list entry) (files : list string)
  : result (list string) :=
  match entries with
  | [] => Ok files
  | e :: rest =>
      match scan_entry dir e files with
      | Throw message => Throw message
      | Ok files' => scan dir rest files'
      end
  end.

(** [items.sort((a, b) => key(b) - key(a))]: a stable sort by decreasing key. *)
Fixpoint insert_by {A : Type} (key : A -> Z) (x : A) (sorted : list A) : list A :=
  match sorted with
  | [] => [x]
  | y :: rest =>
      if (key y <=? key x)%Z then x :: sorted
      else y :: insert_by key x rest
  end.

Definition sort_by {A : Type} (key : A -> Z) (items : list A) : list A :=
  fold_right (insert_by key) [] items.

(** [/\d{4}-\d{2}-\d{2}/] *)
Definition date_pattern : regex :=
  let d := Class is_digit in
  let dash := Class (Ascii.eqb "-"%char) in
  [d; d; d; d; dash; d; d; dash; d; d].

(** A [CallToolRequest]: the tool name with its arguments as the handler
    casts them. *)
Inductive ToolCall : Type :=
| search_notes (query : string)
| read_note (notePath : string)
| list_by_tag (tag : string)
| recent_notes (days : option Z)
| daily_notes (date : option string)
| get_backlinks (notePath : string)
| unknown (toolName : string).

(** Text rendering of the results: pure, and outside the guarded core. *)
Record Rendering : Type := {
  render_results : list SearchResult -> string;
  render_note : string -> NoteMetadata -> string;
  render_tagged : string -> list NoteMetadata -> string;
  render_recent : Z -> list NoteMetadata -> string;
  render_daily : list NoteMetadata -> string;
  render_backlinks : NoteMetadata -> string
}.

(** What the adapter takes from its libraries and from the clock. *)
Record Library : Type := {
  (** [basename(path, '.md')] and [relative(from, to)] of [node:path] *)
  basename_md : string -> string;
  relative : string -> string -> string;
  (** the content part of a note's score in [searchNotes]: ten times the
      number of matches of each query term, a term being compiled with
      [new RegExp(term, 'g')], which throws on a malformed term *)
  content_score : list string -> string -> result Z;
  make_excerpt : string -> string -> string;
  (** [new Date(modified) >= cutoff], the cutoff being [days] before now,
      and [new Date(modified).getTime()] *)
  modified_since : Z -> string -> bool;
  modified_time : string -> Z
}.

Section Adapter.
Variable w : World.
Variable lib : Library.
Variable rendering : Rendering.

Definition getAllMarkdownFiles : result (list string) :=
  if negb (vault_exists w) then Ok []
  else
    match vault_listing w with
    | Throw message => Throw message
    | Ok entries => scan (VAULT_PATH w) entries []
    end.

(** The first pass of [refreshCache]: a file that does not parse is
    skipped. *)
Definition parse_all (files : list string) : list (string * NoteMetadata) :=
  fold_left
    (fun cache file =>
       match parseNote w file with
       | Ok metadata => set cache (path metadata) metadata
       | Throw _ => cache
       end)
    files [].

(** [name] is the title of the note, or the name of its file, in any case. *)
Definition names_note (name : string) (item : string * NoteMetadata) : bool :=
  String.eqb (toLowerCase (title (snd item))) (toLowerCase name)
  || String.eqb (toLowerCase (basename_md lib (fst item))) (toLowerCase name).

(** The second pass of [refreshCache]: every note named by a link of a note
    receives the path of that note, in the order of the notes and of their
    links. *)
Definition link_notes (cache : list (string * NoteMetadata))
  : list (string * NoteMetadata) :=
  map (fun target : string * NoteMetadata =>
         let incoming :=
           flat_map (fun source : string * NoteMetadata =>
                       flat_map (fun link =>
                                   if names_note link target
                                   then [path (snd source)] else [])
                                (links (snd source)))
                    cache in
         (fst target,
          {| path := path (snd target);
             title := title (snd target);
             tags := tags (snd target);
             links := links (snd target);
             backlinks := (backlinks (snd target) ++ incoming)%list;
             modified := modified (snd target) |}))
      cache.

Definition refreshCache (st : Cache) : result unit * Cache :=
  if (now w - lastCacheUpdate st <? CACHE_TTL)%Z
     && negb (match noteCache st with [] => true | _ => false end)
  then (Ok tt, st)
  else
    let cleared := {| noteCache := []; lastCacheUpdate := lastCacheUpdate st |} in
    match getAllMarkdownFiles with
    | Throw message => (Throw message, cleared)
    | Ok files =>
        (Ok tt, {| noteCache := link_notes (parse_all files);
                   lastCacheUpdate := now w |})
    end.

(** Sequencing of the helpers on the cache: an exception of the first ends
    the second. *)
Definition after_refresh {A : Type} (st : Cache) (k : Cache -> A) : result A * Cache :=
  match refreshCache st with
  | (Throw message, st') => (Throw message, st')
  | (Ok _, st') => (Ok (k st'), st')
  end.

(** One round of the loop of [searchNotes] over the cache. *)
Definition score_note (queryLower : string) (queryTerms : list string)
           (item : string * NoteMetadata) : list SearchResult :=
  let (p, note) := item in
  let score0 :=
    ((if includes (toLowerCase (title note)) queryLower then 100 else 0)
     + 50 * Z.of_nat (List.length
                (filter (fun t => includes (toLowerCase t) queryLower) (tags note))))%Z in
  let fullPath := Path.join [VAULT_PATH w; p] in
  match
    (noteContent <- readFileSync w fullPath ;;
     matched <- content_score lib queryTerms (toLowerCase noteContent) ;;
     let total := (score0 + matched)%Z in
     Ok (if (total >? 0)%Z
         then [{| r_path := p; r_title := title note;
                  excerpt := make_excerpt lib noteContent queryLower;
                  score := total; r_tags := tags note |}]
         else []))%js
  with
  | Ok found => found
  | Throw _ => []
  end.

Definition searchNotes (query : string) (st : Cache)
  : result (list SearchResult) * Cache :=
  after_refresh st (fun st' =>
    let queryLower := toLowerCase query in
    let queryTerms := split_spaces false queryLower in
    let results := flat_map (score_note queryLower queryTerms) (noteCache st') in
    slice (sort_by score results) 0 MAX_RESULTS).

Definition readNote (notePath : string) (st : Cache)
  : result (option (string * NoteMetadata)) * Cache :=
  after_refresh st (fun st' =>
    let fullPath :=
      if negb (startsWith notePath "/") then Path.join [VAULT_PATH w; notePath]
      else notePath in
    let fullPath := if negb (endsWith fullPath ".md") then fullPath ++ ".md" else fullPath in
    let fullPath :=
      if negb (existsSync w fullPath) then
        match find (names_note notePath) (noteCache st') with
        | Some (p, _) => Path.join [VAULT_PATH w; p]
        | None => fullPath
        end
      else fullPath in
    if negb (existsSync w fullPath) then None
    else
      match
        (noteContent <- readFileSync w fullPath ;;
         let relativePath := relative lib (VAULT_PATH w) fullPath in
         metadata <- match get (noteCache st') relativePath with
                     | Some m => Ok m
                     | None => parseNote w fullPath
                     end ;;
         Ok (substring 0 (Z.to_nat MAX_CONTENT_LENGTH) noteContent, metadata))%js
      with
      | Ok found => Some found
      | Throw _ => None
      end).

Definition listNotesByTag (tag : string) (st : Cache)
  : result (list NoteMetadata) * Cache :=
  after_refresh st (fun st' =>
    let tagLower := replace_leading "#"%char "" (toLowerCase tag) in
    let results :=
      filter (fun note =>
                existsb (fun t => String.eqb (toLowerCase t) tagLower) (tags note))
             (map snd (noteCache st')) in
    slice results 0 MAX_RESULTS).

Definition getRecentNotes (days : Z) (st : Cache)
  : result (list NoteMetadata) * Cache :=
  after_refresh st (fun st' =>
    let results :=
      filter (fun note => negb (is_empty (modified note))
                          && modified_since lib days (modified note))
             (map snd (noteCache st')) in
    slice (sort_by (fun note => modified_time lib (modified note)) results)
          0 MAX_RESULTS).

Definition getDailyNotes (dateStr : option string) (st : Cache)
  : result (list NoteMetadata) * Cache :=
  after_refresh st (fun st' =>
    let targetDate :=
      match dateStr with
      | Some d => if is_empty d then today w else d
      | None => today w
      end in
    let results :=
      filter (fun item : string * NoteMetadata =>
                includes (fst item) targetDate
                || includes (title (snd item)) targetDate
                || test date_pattern (fst item)
                || includes (toLowerCase (fst item)) "daily")
             (noteCache st') in
    slice (map snd results) 0 MAX_RESULTS).

(** The continuation of a case of the [switch] after its helper: an
    exception of the helper is an exception of the handler. *)
Definition answer {A : Type} (r : result A * Cache) (k : A -> string)
  : result Response * Cache :=
  match r with
  | (Throw message, st') => (Throw message, st')
  | (Ok a, st') => (Ok (reply (k a)), st')
  end.

(** [server.setRequestHandler(CallToolRequestSchema, ...)]: a [switch]
    with no [try] around it. *)
Definition call_tool (request : ToolCall) (st : Cache) : result Response * Cache :=
  match request with
  | search_notes query =>
      answer (searchNotes query st)
             (fun results =>
                match results with
                | [] => "No notes found matching " ++ quoted query
                | _ => render_results rendering results
                end)
  | read_note notePath =>
      answer (readNote notePath st)
             (fun found =>
                match found with
                | None => "Note not found: " ++ notePath
                | Some (noteContent, metadata) => render_note rendering noteContent metadata
                end)
  | list_by_tag tag =>
      answer (listNotesByTag tag st)
             (fun results =>
                match results with
                | [] => "No notes found with tag #" ++ replace_leading "#"%char "" tag
                | _ => render_tagged rendering tag results
                end)
  | recent_notes days =>
      let days := match days with
                  | Some d => if (d =? 0)%Z then 7%Z else d
                  | None => 7%Z
                  end in
      answer (getRecentNotes days st)
             (fun results =>
                match results with
                | [] => "No notes modified in the last " ++ number_to_string days ++ " days"
                | _ => render_recent rendering days results
                end)
  | daily_notes date =>
      answer (getDailyNotes date st)
             (fun results =>
                match results with
                | [] => "No daily notes found for "
                        ++ match date with
                           | Some d => if is_empty d then "today" else d
                           | None => "today"
                           end
                | _ => render_daily rendering results
                end)
  | get_backlinks notePath =>
      answer (readNote notePath st)
             (fun found =>
                match found with
                | None => "Note not found: " ++ notePath
                | Some (_, metadata) =>
                    match backlinks metadata with
                    | [] => "No backlinks found for " ++ quoted (title metadata)
                    | _ => render_backlinks rendering metadata
                    end
                end)
  | unknown toolName => (Ok (reply ("Unknown tool: " ++ toolName)), st)
  end.

End Adapter.

End Obsidian.

(** ** The specification's vocabulary

    These definitions follow the words of the specification, not the code:
    they are what the embedded functions are compared with. *)

Module Spec.

(** Equality up to the case of the ASCII letters. *)
Definition eq_ci (a b : string) : Prop := Js.toUpperCase a = Js.toUpperCase b.

Fixpoint last_char (s : string) : option ascii :=
  match s with
  | EmptyString => None
  | String c EmptyString => Some c
  | String _ s' => last_char s'
  end.

Definition first_char (s : string) : option ascii :=
  match s with
  | EmptyString => None
  | String c _ => Some c
  end.

(** The character before a position: the last one of [s], or [prev] when
    [s] is empty. *)
Definition last_or (prev : option ascii) (s : string) : option ascii :=
  match last_char s with
  | Some c => Some c
  | None => prev
  end.

(** A keyword starts and ends with a word character. *)
Definition is_keyword (k : string) : bool :=
  match first_char k, last_char k with
  | Some a, Some b => Js.is_word a && Js.is_word b
  | _, _ => false
  end.

Definition word_char (c : option ascii) : bool :=
  match c with
  | Some c => Js.is_word c
  | None => false
  end.

(** No character, or one that cannot be part of a word. *)
Definition not_word (c : option ascii) : Prop :=
  match c with
  | None => True
  | Some c => Js.is_word c = false
  end.

(** [keyword] occurs in [query] as a whole word, in any case: the characters
    around the occurrence, if any, are not word characters. *)
Definition whole_word (keyword query : string) : Prop :=
  exists before occurrence after,
    query = before ++ occurrence ++ after
    /\ eq_ci occurrence keyword
    /\ not_word (last_char before)
    /\ not_word (first_char after).

(** The trimmed query begins with [keyword], in any case. *)
Definition begins_with (keyword query : string) : Prop :=
  exists head rest, Js.trim query = head ++ rest /\ eq_ci head keyword.

Definition begins_with_any (keywords : list string) (query : string) : Prop :=
  exists keyword, In keyword keywords /\ begins_with keyword query.

(** The allowed leading keywords: [SELECT] and [WITH], and [EXPLAIN] too in
    the SQLite variant. *)
Definition sqlite_leading : list string := ["SELECT"; "WITH"; "EXPLAIN"].
Definition postgres_leading : list string := ["SELECT"; "WITH"].

(** The identifier-quoting grammar: an opening double quote, then characters
    in which a double quote is written twice, then the closing double quote
    and nothing after it.  [unquote_body] reads what follows the opening
    quote. *)
Fixpoint unquote_body (s : string) : option string :=
  match s with
  | EmptyString => None
  | String c s' =>
      if Ascii.eqb c Sqlite.dquote then
        match s' with
        | EmptyString => Some EmptyString
        | String c' s'' =>
            if Ascii.eqb c' Sqlite.dquote
            then option_map (String Sqlite.dquote) (unquote_body s'')
            else None
        end
      else option_map (String c) (unquote_body s')
  end.

Definition unquote (s : string) : option string :=
  match s with
  | String c s' => if Ascii.eqb c Sqlite.dquote then unquote_body s' else None
  | EmptyString => None
  end.

(** The character classes of the identifier grammars. *)
Definition letter (c : ascii) : Prop :=
  (65 <= Js.code c <= 90) \/ (97 <= Js.code c <= 122).

Definition digit (c : ascii) : Prop := 48 <= Js.code c <= 57.

Definition strict_rest (c : ascii) : Prop :=
  letter c \/ digit c \/ c = "_"%char.

Definition loose (c : ascii) : Prop :=
  letter c \/ digit c \/ c = "_"%char \/ c = " "%char \/ c = "-"%char.

Inductive all_chars (P : ascii -> Prop) : string -> Prop :=
| all_chars_empty : all_chars P EmptyString
| all_chars_more : forall c s, P c -> all_chars P s -> all_chars P (String c s).

(** [^[A-Za-z_][A-Za-z0-9_]*$] *)
Definition strict_grammar (s : string) : Prop :=
  exists c rest,
    s = String c rest /\ (letter c \/ c = "_"%char) /\ all_chars strict_rest rest.

(** [^[A-Za-z0-9_ -]+$] *)
Definition loose_grammar (s : string) : Prop :=
  s <> EmptyString /\ all_chars loose s.

Inductive occurs (c : ascii) : string -> Prop :=
| occurs_here : forall s, occurs c (String c s)
| occurs_later : forall d s, occurs c s -> occurs c (String d s).

(** A semicolon, a single or double quote, a parenthesis, a slash or a
    backslash. *)
Definition injection_char (c : ascii) : Prop :=
  In c [";"%char; "'"%char; Sqlite.dquote; "("%char; ")"%char; "/"%char; "\"%char].

Definition has_disallowed (s : string) : Prop :=
  exists c, occurs c s /\ (injection_char c \/ Js.is_control c = true).

(** [prefix ++ rest]: the path starts with [prefix]. *)
Definition has_prefix (prefix path : string) : Prop :=
  exists rest, path = prefix ++ rest.

(** The confinement of a resolved path: the root itself, or the root
    followed immediately by a separator. *)
Definition confined (root path : string) : Prop :=
  path = root \/ has_prefix (root ++ "/") path.

End Spec.

(** ** Concrete configurations used by the examples *)

Module Examples.

Definition insert_query : string := "INSERT INTO users VALUES (1)".
Definition column_query : string := "SELECT updated_at FROM users".
Definition subquery : string := "SELECT * FROM users WHERE id IN (DELETE FROM other)".
Definition rate_limit_query : string := "SELECT rate_limit FROM plans".

(** Rows [{ n: 1 }], ..., [{ n: count }]. *)
Definition numbered_rows (count : nat) : list Sqlite.Row :=
  map (fun i => [("n", Sqlite.Integer (Z.of_nat i))]) (seq 1 count).

Definition sqlite_config : Sqlite.Config :=
  {| Sqlite.DB_PATH := Some "/data/app.db";
     Sqlite.READ_ONLY := true;
     Sqlite.MAX_ROWS := 100 |}.

(** A database file that opens and answers every statement with [answer]. *)
Definition sqlite_world (answer : list Sqlite.Row) : Sqlite.World :=
  {| Sqlite.HOME := Some "/home/user";
     Sqlite.cwd := "/srv";
     Sqlite.existsSync := fun _ => true;
     Sqlite.open := fun _ _ => Ok {| Sqlite.all := fun _ _ => Ok answer |} |}.

Definition numbers_query : string := "SELECT n FROM numbers".

(** A filesystem rooted at [/tmp/root], with a sibling directory
    [/tmp/rootbackup] outside the root. *)
Definition fs_config : Filesystem.Config :=
  {| Filesystem.FS_ROOT := "/tmp/root";
     Filesystem.MAX_FILE_SIZE := 1048576;
     Filesystem.MAX_RESULTS := 100 |}.

(** The same root with a cap of four bytes. *)
Definition small_cap_config : Filesystem.Config :=
  {| Filesystem.FS_ROOT := "/tmp/root";
     Filesystem.MAX_FILE_SIZE := 4;
     Filesystem.MAX_RESULTS := 100 |}.

Definition blob : list byte :=
  ["000"%byte; "001"%byte; "002"%byte; "003"%byte; "004"%byte; "005"%byte].

Definition hello : list byte := list_byte_of_string "hello".

Definition fs_world : Filesystem.World :=
  {| Filesystem.cwd := "/srv";
     Filesystem.homedir := "/home/user";
     Filesystem.lookup := fun p =>
       if String.eqb p "/tmp/root/blob.bin" then Some (Filesystem.File blob)
       else if String.eqb p "/tmp/root/hello.txt" then Some (Filesystem.File hello)
       else if String.eqb p "/tmp/rootbackup/secret.txt" then Some (Filesystem.File hello)
       else if String.eqb p "/tmp/root" then Some (Filesystem.Directory 4096)
       else None |}.

(** A decoder for the examples: one character per byte. *)
Definition latin1 (buffer : list byte) : string := string_of_list_byte buffer.

Definition sibling_path : string := "../rootbackup/secret.txt".

(** A server that accepts every statement and returns no row. *)
Definition quiet_client : Postgres.Client :=
  {| Postgres.sent := [];
     Postgres.answer := fun _ _ => Ok {| Postgres.rowCount := 0; Postgres.rows := [] |};
     Postgres.released := false |}.

(** A vault whose directory exists and cannot be listed. *)
Definition unreadable_vault : Obsidian.World :=
  {| Obsidian.VAULT_PATH := "/home/user/vault";
     Obsidian.vault_exists := true;
     Obsidian.vault_listing :=
       Throw "EACCES: permission denied, scandir '/home/user/vault'";
     Obsidian.existsSync := fun _ => false;
     Obsidian.readFileSync := fun _ => Throw "ENOENT";
     Obsidian.parseNote := fun _ => Throw "ENOENT";
     Obsidian.now := 1700000000000;
     Obsidian.today := "2023-11-14" |}.

(** A vault that can be listed and holds no note. *)
Definition empty_vault : Obsidian.World :=
  {| Obsidian.VAULT_PATH := "/home/user/vault";
     Obsidian.vault_exists := true;
     Obsidian.vault_listing := Ok [];
     Obsidian.existsSync := fun _ => false;
     Obsidian.readFileSync := fun _ => Throw "ENOENT";
     Obsidian.parseNote := fun _ => Throw "ENOENT";
     Obsidian.now := 1700000000000;
     Obsidian.today := "2023-11-14" |}.

End Examples.


(** ** The re-implementations of the query gates in the test suites *)

(** [{ allowed, reason }] *)
Record Verdict : Type := { allowed : bool; reason : option string }.

Definition allow : Verdict := {| allowed := true; reason := None |}.
Definition deny (why : string) : Verdict := {| allowed := false; reason := Some why |}.

(** [isQueryAllowed] of the SQLite test suite. *)
Module SqliteTest.
Import Js RegExp.

Definition dangerous : list string :=
  [ "INSERT"; "UPDATE"; "DELETE"; "DROP"; "ALTER"; "CREATE";
    "ATTACH"; "DETACH"; "REPLACE"; "TRUNCATE";
    "PRAGMA"; "VACUUM"; "REINDEX"; "ANALYZE" ].

Definition isQueryAllowed (sql : string) : Verdict :=
  let trimmed := trim sql in
  let upper := toUpperCase trimmed in
  if negb (startsWith upper "SELECT") && negb (startsWith upper "WITH")
     && negb (startsWith upper "EXPLAIN")
  then deny "Must start with SELECT, WITH, or EXPLAIN"
  else
    match first_forbidden dangerous sql with
    | Some keyword => deny ("Contains forbidden keyword: " ++ keyword)
    | None =>
        if test [Class (Ascii.eqb ";"%char); Star is_space;
                 Class (fun c => negb (is_space c))] sql
        then deny "Multiple statements not allowed"
        else allow
    end.

End SqliteTest.

(** [isQueryAllowed] of the Postgres test suite. *)
Module PgTest.
Import Js RegExp.

Definition dangerous : list string :=
  [ "insert"; "update"; "delete"; "drop"; "alter"; "create"; "truncate";
    "grant"; "revoke"; "copy"; "execute"; "lock"; "into" ].

Definition isQueryAllowed (query : string) : Verdict :=
  let trimmedQuery := toLowerCase (trim query) in
  match first_forbidden dangerous query with
  | Some keyword => deny ("Contains forbidden keyword: " ++ toUpperCase keyword)
  | None =>
      if negb (startsWith trimmedQuery "select") && negb (startsWith trimmedQuery "with")
      then deny "Only SELECT queries are allowed"
      else allow
  end.

End PgTest.

(** ** servers/postgres-mcp/src/index.ts: the [pg_explain] tool *)

Module Explain.
Import Js RegExp.

Definition dangerous : list string :=
  [ "insert"; "update"; "delete"; "drop"; "alter"; "create"; "truncate";
    "grant"; "revoke"; "copy" ].

Definition not_select_message : string :=
  "Error: Only SELECT queries can be explained for safety.".

(** The two early [return]s of the [pg_explain] case. *)
Definition gate (query : string) : option Response :=
  let trimmedQuery := toLowerCase (trim query) in
  match first_forbidden dangerous query with
  | Some keyword =>
      Some (reply_error ("Error: Query contains forbidden keyword: "
                         ++ toUpperCase keyword))
  | None =>
      if negb (startsWith trimmedQuery "select") && negb (startsWith trimmedQuery "with")
      then Some (reply_error not_select_message)
      else None
  end.

(** [r['QUERY PLAN']]; a missing column joins as the empty text. *)
Fixpoint plan_line (row : list (string * string)) : string :=
  match row with
  | [] => ""
  | (k, v) :: rest => if String.eqb k "QUERY PLAN" then v else plan_line rest
  end.

(** [result.rows.map((r) => r['QUERY PLAN']).join('\n')] *)
Definition plan_text (res : Postgres.QueryResult) : string :=
  join Filesystem.nl (map plan_line (Postgres.rows res)).

(** [analyze ? `EXPLAIN ANALYZE ${query}` : `EXPLAIN ${query}`] *)
Definition explainQuery (query : string) (analyze : bool) : string :=
  if analyze then "EXPLAIN ANALYZE " ++ query else "EXPLAIN " ++ query.

(** The read-only transaction around the [EXPLAIN] statement, with its
    [finally]. *)
Definition run_explain (client : Postgres.Client) (statement : string)
  : Postgres.Client * result Response :=
  let (c1, began) := Postgres.client_query client "BEGIN TRANSACTION READ ONLY" in
  let (c', r) :=
    match began with
    | Throw message => Postgres.rollback c1 message
    | Ok _ =>
        let (c2, result) := Postgres.client_query c1 statement in
        match result with
        | Throw message => Postgres.rollback c2 message
        | Ok res =>
            let (c3, committed) := Postgres.client_query c2 "COMMIT" in
            match committed with
            | Throw message => Postgres.rollback c3 message
            | Ok _ => (c3, Ok (reply (plan_text res)))
            end
        end
    end in
  (Postgres.release c', r).

(** The [pg_explain] case with the [catch] of the handler around it;
    [analyze] defaults to [false]. *)
Definition pg_explain (connect : result Postgres.Client) (query : string)
           (analyze : option bool) : option Postgres.Client * Response :=
  let analyze := match analyze with Some a => a | None => false end in
  match gate query with
  | Some refused => (None, refused)
  | None =>
      match connect with
      | Throw message => (None, reply_error ("Database error: " ++ message))
      | Ok client =>
          let (client', r) := run_explain client (explainQuery query analyze) in
          match r with
          | Ok response => (Some client', response)
          | Throw message =>
              (Some client', reply_error ("Database error: " ++ message))
          end
      end
  end.

End Explain.

(** ** servers/filesystem-mcp/src/index.ts: [formatSize] and [listDir] *)

Module Sizes.
Import Js.

(** The tenths of [num / den] rounded to the nearest, a tie going up:
    the integer [n] of [(num / den).toFixed(1)] for a quotient that the
    division computes exactly. *)
Definition tenths (num den : Z) : Z := ((20 * num + den) / (2 * den))%Z.

(** [(num / den).toFixed(1)] *)
Definition toFixed1 (num den : Z) : string :=
  let n := tenths num den in
  number_to_string (n / 10) ++ "." ++ number_to_string (n mod 10).

Definition KB : Z := 1024.
Definition MB : Z := 1024 * 1024.
Definition GB : Z := 1024 * 1024 * 1024.

(** [formatSize(bytes)] for a size in bytes, an integer below [2^53]: the
    divisions by powers of two are exact. *)
Definition formatSize (bytes : Z) : string :=
  if (bytes <? KB)%Z then number_to_string bytes ++ " B"
  else if (bytes <? MB)%Z then toFixed1 bytes KB ++ " KB"
  else if (bytes <? GB)%Z then toFixed1 bytes MB ++ " MB"
  else toFixed1 bytes GB ++ " GB".

End Sizes.

Module Listing.
Import Js.

Inductive kind : Type := file | directory.

(** An element of the array [listDir] returns. *)
Record Entry : Type := {
  name : string;
  path : string;
  type : kind;
  size : option Z
}.

(** A [Dirent] of [readdir(dir, { withFileTypes: true })].  A file carries
    the size [stat] reports for it, if [stat] succeeds; a directory carries
    what [readdir] answers for it. *)
#[warnings="-register-all"] Inductive dirent : Type :=
| FileEnt (name : string) (stat_size : option Z)
| DirEnt (name : string) (listing : result (list dirent))
| OtherEnt (name : string).

Definition dirent_name (e : dirent) : string :=
  match e with
  | FileEnt n _ => n
  | DirEnt n _ => n
  | OtherEnt n => n
  end.

(** What the adapter takes from its libraries: [relative] of [node:path]
    and [ig.ignores] of the [ignore] package, which throws on a path it does
    not take for a relative one. *)
Record Library : Type := {
  relative : string -> string -> string;
  ignores : string -> result bool
}.

(** The outcome of one round of the loop of [scanDir]: [continue], or the
    results with which the round reaches the test before [break]. *)
Inductive round : Type :=
| Continue
| Reached (results : list Entry).

Section Adapter.
Variable cfg : Filesystem.Config.
Variable lib : Library.

Definition getRelativePath (absolutePath : string) : string :=
  let r := relative lib (Filesystem.FS_ROOT cfg) absolutePath in
  if is_empty r then "." else r.

Definition shouldIgnore (relativePath : string) : result bool :=
  ignores lib relativePath.

Definition full (results : list Entry) : bool :=
  (Filesystem.MAX_RESULTS cfg <=? Z.of_nat (List.length results))%Z.

(** One round of the [for (const entry of entries)] loop of [scanDir] at
    [depth] in [currentPath], with the recursive call on a directory;
    [results] is the array shared by all the calls. *)
Fixpoint scan_entry (recursive : bool) (depth : nat) (currentPath : string)
         (e : dirent) (results : list Entry) {struct e} : result round :=
  let fullPath := Path.join [currentPath; dirent_name e] in
  let relPath := getRelativePath fullPath in
  match shouldIgnore relPath with
  | Throw message => Throw message
  | Ok true => Ok Continue
  | Ok false =>
      match e with
      | DirEnt n listing =>
          let results :=
            (results ++ [{| name := n; path := relPath; type := directory;
                            size := None |}])%list in
          if recursive && negb (full results) then
            if 10 <? depth + 1 then Ok (Reached results)
            else
              match listing with
              | Throw message => Throw message
              | Ok sub =>
                  match
                    (fix scan_all (entries : list dirent) (results : list Entry)
                         {struct entries} : result (list Entry) :=
                       match entries with
                       | [] => Ok results
                       | e' :: rest =>
                           match scan_entry recursive (depth + 1) fullPath e' results with
                           | Throw message => Throw message
                           | Ok Continue => scan_all rest results
                           | Ok (Reached results') =>
                               if full results' then Ok results'
                               else scan_all rest results'
                           end
                       end) sub results
                  with
                  | Throw message => Throw message
                  | Ok results' => Ok (Reached results')
                  end
              end
          else Ok (Reached results)
      | FileEnt n stat_size =>
          Ok (Reached (results ++ [{| name := n; path := relPath; type := file;
                                      size := stat_size |}])%list)
      | OtherEnt _ => Ok (Reached results)
      end
  end.

(** The loop of [scanDir] over the entries of a directory. *)
Fixpoint scan_all (recursive : bool) (depth : nat) (currentPath : string)
         (entries : list dirent) (results : list Entry) : result (list Entry) :=
  match entries with
  | [] => Ok results
  | e :: rest =>
      match scan_entry recursive depth currentPath e results with
      | Throw message => Throw message
      | Ok Continue => scan_all recursive depth currentPath rest results
      | Ok (Reached results') =>
          if full results' then Ok results'
          else scan_all recursive depth currentPath rest results'
      end
  end.

(** [listDir(dirPath, recursive)]; [listing] is what [readdir] answers for
    [dirPath]. *)
Definition listDir (dirPath : string) (listing : result (list dirent))
           (recursive : bool) : result (list Entry) :=
  match listing with
  | Throw message => Throw message
  | Ok entries => scan_all recursive 0 dirPath entries []
  end.

End Adapter.

End Listing.

(** [searchContent] of the filesystem adapter. *)
Module Search.
Import Js.

(** An element of the array [searchContent] returns. *)
Record Match : Type := {
  file : string;
  line : Z;
  content : string
}.


Section Adapter.
Variable cfg : Filesystem.Config.
Variable w : Filesystem.World.
Variable toString : list byte -> string.
Variable lib : Listing.Library.
(** [fg(pattern, { cwd, ignore: DEFAULT_IGNORES, onlyFiles: true,
    absolute: true, dot: false })] of the [fast-glob] package. *)
Variable fg : string -> string -> result (list string).

Definition full (results : list Match) : bool :=
  (Filesystem.MAX_RESULTS cfg <=? Z.of_nat (List.length results))%Z.




End Adapter.

End Search.

(** ** tests/rate-limiter.test.ts: the sliding-window rate limiter *)

Module RateLimiter.
Import Js.

(** [this.windowMs = 60 * 1000] *)
Definition windowMs : Z := 60 * 1000.

Section Limiter.
(** [this.maxRequests], fixed by the constructor; the state of a limiter is
    its array [this.timestamps], which starts empty. *)
Variable maxRequests : Z.

(** [this.timestamps.filter(t => now - t < this.windowMs)] *)
Definition in_window (now : Z) (timestamps : list Z) : list Z :=
  filter (fun t => (now - t <? windowMs)%Z) timestamps.

(** [Math.ceil(waitTime / 1000)] for a whole number of milliseconds. *)
Definition seconds (waitTime : Z) : Z := (- ((- waitTime) / 1000))%Z.

(** The message of the error; an empty window has no [timestamps[0]], and
    the wait is rendered as [NaN]. *)
Definition exceeded (now : Z) (timestamps : list Z) : string :=
  "Rate limit exceeded (" ++ number_to_string maxRequests ++ "/min). "
  ++ "Try again in "
  ++ match timestamps with
     | oldestInWindow :: _ =>
         let waitTime := (windowMs - (now - oldestInWindow))%Z in
         number_to_string (seconds waitTime)
     | [] => "NaN"
     end
  ++ " seconds.".

(** [checkLimit()] at the time [now] of [Date.now()]: the outcome and the
    array it leaves. *)
Definition checkLimit (now : Z) (timestamps : list Z) : result unit * list Z :=
  let timestamps := in_window now timestamps in
  if (maxRequests <=? Z.of_nat (List.length timestamps))%Z
  then (Throw (exceeded now timestamps), timestamps)
  else (Ok tt, (timestamps ++ [now])%list).

(** [getRemaining()] *)
Definition getRemaining (now : Z) (timestamps : list Z) : Z * list Z :=
  let timestamps := in_window now timestamps in
  (Z.max 0 (maxRequests - Z.of_nat (List.length timestamps)), timestamps).

(** [reset()] *)
Definition reset (timestamps : list Z) : list Z := [].

End Limiter.

End RateLimiter.

(** ** More of the specification's vocabulary *)

Module Spec2.

(** Every semicolon of the text is followed by white space only. *)
Definition semicolons_trail (sql : string) : Prop :=
  forall before after,
    sql = before ++ String ";"%char after ->
    Spec.all_chars (fun c => Js.is_space c = true) after.

(** The character does not occur in the text. *)
Definition free_of (c : ascii) (s : string) : Prop := ~ Spec.occurs c s.

(** [l] is in decreasing order of [key]. *)
Fixpoint decreasing {A : Type} (key : A -> Z) (l : list A) : Prop :=
  match l with
  | [] => True
  | x :: rest =>
      match rest with
      | [] => True
      | y :: _ => (key y <= key x)%Z
      end /\ decreasing key rest
  end.

(** How a transaction of the Postgres adapter can end, in terms of the
    statements sent on the connection after those of [client]: committed
    with the answer [res] of the server to [statement], or rolled back
    after [BEGIN], after the statement or after [COMMIT] failed. *)
Definition committed (client client' : Postgres.Client) (statement : string)
           (res : Postgres.QueryResult) : Prop :=
  Postgres.sent client'
  = (Postgres.sent client ++ ["BEGIN TRANSACTION READ ONLY"; statement; "COMMIT"])%list
  /\ Postgres.answer client
       (Postgres.sent client ++ ["BEGIN TRANSACTION READ ONLY"])%list statement
     = Ok res.

Definition rolled_back (client client' : Postgres.Client) (statement : string) : Prop :=
  exists done,
    Postgres.sent client' = (Postgres.sent client ++ done ++ ["ROLLBACK"])%list
    /\ (done = ["BEGIN TRANSACTION READ ONLY"]
        \/ done = ["BEGIN TRANSACTION READ ONLY"; statement]
        \/ done = ["BEGIN TRANSACTION READ ONLY"; statement; "COMMIT"]).

(** A path segment that names an entry: not empty, not [.] or [..], and
    without a separator in it. *)
Definition plain_segment (s : string) : Prop :=
  s <> "" /\ s <> "." /\ s <> ".." /\ ~ Spec.occurs "/"%char s.

(** What a directory entry contributes to a listing, under its relative
    path: a file or a directory is listed, anything else is not. *)
Definition listed (relPath : string) (e : Listing.dirent) : list Listing.Entry :=
  match e with
  | Listing.FileEnt n stat_size =>
      [{| Listing.name := n; Listing.path := relPath;
          Listing.type := Listing.file; Listing.size := stat_size |}]
  | Listing.DirEnt n _ =>
      [{| Listing.name := n; Listing.path := relPath;
          Listing.type := Listing.directory; Listing.size := None |}]
  | Listing.OtherEnt _ => []
  end.

(** A listing with room for one more entry, and one within the cap. *)
Definition room (cfg : Filesystem.Config) (results : list Listing.Entry) : Prop :=
  (Z.of_nat (List.length results) < Filesystem.MAX_RESULTS cfg)%Z.

Definition within (cfg : Filesystem.Config) (results : list Listing.Entry) : Prop :=
  (Z.of_nat (List.length results) <= Filesystem.MAX_RESULTS cfg)%Z.


(** The requests a limiter accepts among calls of [checkLimit] made at the
    times of [clock], in order, from the array [timestamps]. *)
Fixpoint accepted (maxRequests : Z) (clock : list Z) (timestamps : list Z) : list Z :=
  match clock with
  | [] => []
  | now :: later =>
      match RateLimiter.checkLimit maxRequests now timestamps with
      | (Ok _, timestamps') => now :: accepted maxRequests later timestamps'
      | (Throw _, timestamps') => accepted maxRequests later timestamps'
      end
  end.

(** The times of [history] in the window of one minute that ends at [t]. *)
Definition in_minute_before (t : Z) (history : list Z) : list Z :=
  filter (fun a => (t - a <? RateLimiter.windowMs)%Z && (a <=? t)%Z) history.

(** A clock that does not go back. *)
Fixpoint monotone (clock : list Z) : Prop :=
  match clock with
  | [] => True
  | t :: later =>
      match later with
      | [] => True
      | t' :: _ => (t <= t')%Z
      end /\ monotone later
  end.

(** Text made of ASCII characters, and its test. *)
Definition ascii_text (s : string) : Prop :=
  Spec.all_chars (fun c => Js.code c < 128) s.

Fixpoint is_ascii_text (s : string) : bool :=
  match s with
  | EmptyString => true
  | String c s' => (Js.code c <? 128) && is_ascii_text s'
  end.

(** [word] occurs in the trimmed query, in any case and at any position:
    alone or inside a longer word. *)
Definition mentions (word query : string) : Prop :=
  exists before occurrence after,
    Js.trim query = before ++ occurrence ++ after
    /\ Spec.eq_ci occurrence word.

(** A limit that a JSON number holds exactly and that a template literal
    prints with all its digits: an integer below 2^53 in absolute value, or
    no limit at all (the default of 100 applies). *)
Definition whole_limit (limit : option Z) : Prop :=
  match limit with
  | Some l => (- 2 ^ 53 < l < 2 ^ 53)%Z
  | None => True
  end.

(** [query] occurs in [text] when case is ignored. *)
Definition occurs_folded (query text : string) : Prop :=
  exists before occurrence after,
    text = before ++ occurrence ++ after
    /\ Js.toLowerCase occurrence = Js.toLowerCase query.


(** A path of the vault scan: an entry name with the suffix [.md] and no
    leading dot, joined to the directory that holds it. *)
Definition markdown_file (f : string) : Prop :=
  exists dir name,
    f = Path.join [dir; name]
    /\ Path.extname name = ".md"
    /\ Js.startsWith name "." = false.

End Spec2.

(** ** More examples *)

Module Examples2.

(** A root with a cap of three entries per listing. *)
Definition listing_config : Filesystem.Config :=
  {| Filesystem.FS_ROOT := "/tmp/root";
     Filesystem.MAX_FILE_SIZE := 1048576;
     Filesystem.MAX_RESULTS := 3 |}.

(** [relative] for a path below the root, and a filter that ignores
    [node_modules] and [.git] at the root. *)
Definition listing_library : Listing.Library :=
  {| Listing.relative := fun from to =>
       substring (String.length from + 1)
                 (String.length to - (String.length from + 1)) to;
     Listing.ignores := fun p =>
       Ok (String.eqb p "node_modules" || String.eqb p ".git") |}.

Definition ignored (p : string) : bool :=
  String.eqb p "node_modules" || String.eqb p ".git".

Definition tree : list Listing.dirent :=
  [ Listing.DirEnt ".git" (Ok [Listing.FileEnt "HEAD" (Some 23%Z)]);
    Listing.DirEnt "src"
      (Ok [Listing.FileEnt "a.ts" (Some 10%Z); Listing.FileEnt "b.ts" None]);
    Listing.OtherEnt "socket";
    Listing.FileEnt "README.md" (Some 120%Z);
    Listing.FileEnt "package.json" (Some 300%Z) ].

(** Two notes, the second linking to the first, in a cache filled one
    second ago. *)
Definition tactics_note : Obsidian.NoteMetadata :=
  {| Obsidian.path := "proofs/tactics.md";
     Obsidian.title := "Rocq tactics";
     Obsidian.tags := ["Rocq"; "proof"];
     Obsidian.links := [];
     Obsidian.backlinks := ["daily/2023-11-14.md"];
     Obsidian.modified := "2023-11-13T10:00:00.000Z" |}.

Definition daily_note : Obsidian.NoteMetadata :=
  {| Obsidian.path := "daily/2023-11-14.md";
     Obsidian.title := "2023-11-14";
     Obsidian.tags := ["daily"];
     Obsidian.links := ["Rocq tactics"];
     Obsidian.backlinks := [];
     Obsidian.modified := "2023-11-14T08:00:00.000Z" |}.

Definition warm_cache : Obsidian.Cache :=
  {| Obsidian.noteCache :=
       [("proofs/tactics.md", tactics_note); ("daily/2023-11-14.md", daily_note)];
     Obsidian.lastCacheUpdate := 1699999999000 |}.

(** A vault whose directory cannot be listed any more, while its notes can
    still be read. *)
Definition locked_vault : Obsidian.World :=
  {| Obsidian.VAULT_PATH := "/home/user/vault";
     Obsidian.vault_exists := true;
     Obsidian.vault_listing :=
       Throw "EACCES: permission denied, scandir '/home/user/vault'";
     Obsidian.existsSync := fun p =>
       String.eqb p "/home/user/vault/proofs/tactics.md"
       || String.eqb p "/home/user/vault/daily/2023-11-14.md"
       || String.eqb p "/etc/motd.md";
     Obsidian.readFileSync := fun p =>
       if String.eqb p "/home/user/vault/proofs/tactics.md"
       then Ok "intros, then induction on the list"
       else if String.eqb p "/home/user/vault/daily/2023-11-14.md"
       then Ok "Read about Rocq tactics"
       else if String.eqb p "/etc/motd.md" then Ok "Welcome"
       else Throw "ENOENT";
     Obsidian.parseNote := fun p =>
       Ok {| Obsidian.path := p; Obsidian.title := p; Obsidian.tags := [];
             Obsidian.links := []; Obsidian.backlinks := [];
             Obsidian.modified := "" |};
     Obsidian.now := 1700000000000;
     Obsidian.today := "2023-11-14" |}.

(** Stand-ins for the library functions: a score of ten for each term the
    content includes, the first twenty characters as the excerpt, and the
    path below the vault as the relative path. *)
Definition obsidian_library : Obsidian.Library :=
  {| Obsidian.basename_md := fun p => p;
     Obsidian.relative := fun from to =>
       substring (String.length from + 1)
                 (String.length to - (String.length from + 1)) to;
     Obsidian.content_score := fun terms noteContent =>
       Ok (10 * Z.of_nat (List.length
                  (filter (fun t => Js.includes noteContent t) terms)))%Z;
     Obsidian.make_excerpt := fun noteContent _ => substring 0 20 noteContent;
     Obsidian.modified_since := fun _ _ => true;
     Obsidian.modified_time := fun m =>
       if String.eqb m "2023-11-14T08:00:00.000Z" then 1699948800000%Z
       else 1699869600000%Z |}.


(** What a search for [rocq] finds in that cache. *)
Definition rocq_results : list Obsidian.SearchResult :=
  [ {| Obsidian.r_path := "proofs/tactics.md";
       Obsidian.r_title := "Rocq tactics";
       Obsidian.excerpt := "intros, then inducti";
       Obsidian.score := 150;
       Obsidian.r_tags := ["Rocq"; "proof"] |};
    {| Obsidian.r_path := "daily/2023-11-14.md";
       Obsidian.r_title := "2023-11-14";
       Obsidian.excerpt := "Read about Rocq tact";
       Obsidian.score := 10;
       Obsidian.r_tags := ["daily"] |} ].


(** A database with a table [users] of one text column [email]: it
    answers the [PRAGMA] on that table with the column, a statement with one
    parameter with the row of [alice], and fails every other statement. *)
Definition email_column : Sqlite.Row :=
  [("name", Sqlite.Text "email"); ("type", Sqlite.Text "TEXT")].

Definition alice : Sqlite.Row := [("email", Sqlite.Text "alice@example.org")].

Definition users_database : Sqlite.Database :=
  {| Sqlite.all := fun sql params =>
       if String.eqb sql ("PRAGMA table_info(" ++ quoted "users" ++ ")")
       then Ok [email_column]
       else match params with
            | [Sqlite.Text _] => Ok [alice]
            | _ => Throw "no such table"
            end |}.

Definition users_world : Sqlite.World :=
  {| Sqlite.HOME := Some "/home/user";
     Sqlite.cwd := "/srv";
     Sqlite.existsSync := fun _ => true;
     Sqlite.open := fun _ _ => Ok users_database |}.

(** A note tagged [Caf] followed by 233, the small e with an acute accent,
    in a cache of its own, and a request for that tag in capitals: [#CAF]
    followed by 201, the capital of 233. *)
Definition accented_tag : string := "Caf" ++ String "233"%char "".

Definition accented_request : string := "#CAF" ++ String "201"%char "".

Definition tagged_note : Obsidian.NoteMetadata :=
  {| Obsidian.path := "places/paris.md";
     Obsidian.title := "Paris";
     Obsidian.tags := [accented_tag];
     Obsidian.links := [];
     Obsidian.backlinks := [];
     Obsidian.modified := "2023-11-12T09:00:00.000Z" |}.

Definition tagged_cache : Obsidian.Cache :=
  {| Obsidian.noteCache := [("places/paris.md", tagged_note)];
     Obsidian.lastCacheUpdate := 1699999999000 |}.

(** A vault that does not exist. *)
Definition missing_vault : Obsidian.World :=
  {| Obsidian.VAULT_PATH := "/home/user/vault";
     Obsidian.vault_exists := false;
     Obsidian.vault_listing := Throw "ENOENT: no such file or directory, scandir";
     Obsidian.existsSync := fun _ => false;
     Obsidian.readFileSync := fun _ => Throw "ENOENT";
     Obsidian.parseNote := fun _ => Throw "ENOENT";
     Obsidian.now := 1700000000000;
     Obsidian.today := "2023-11-14" |}.

(** A vault with a note, a hidden directory, a plain text file and a
    directory of notes. *)
Definition small_vault : Obsidian.World :=
  {| Obsidian.VAULT_PATH := "/home/user/vault";
     Obsidian.vault_exists := true;
     Obsidian.vault_listing :=
       Ok [ Obsidian.Dir ".obsidian" true (Ok [Obsidian.File "workspace.md"]);
            Obsidian.Dir "proofs" true
              (Ok [Obsidian.File "tactics.md"; Obsidian.File "draft.txt"]);
            Obsidian.File ".hidden.md";
            Obsidian.File "index.md" ];
     Obsidian.existsSync := fun _ => true;
     Obsidian.readFileSync := fun _ => Ok "";
     Obsidian.parseNote := fun _ => Throw "not parsed";
     Obsidian.now := 1700000000000;
     Obsidian.today := "2023-11-14" |}.


End Examples2.

(** * Properties *)

(** ** Agreement with the repository's test suites

    The embedded functions give the answers the test suites expect from the
    originals. *)

Example test_paths_within_root :
  FsTest.resolvePath "/srv" "/home/user" "test.txt" "/tmp/mcp-fs-test"
  = Ok "/tmp/mcp-fs-test/test.txt"
  /\ FsTest.resolvePath "/srv" "/home/user" "subdir/nested.txt" "/tmp/mcp-fs-test"
     = Ok "/tmp/mcp-fs-test/subdir/nested.txt"
  /\ FsTest.resolvePath "/srv" "/home/user" "." "/tmp/mcp-fs-test"
     = Ok "/tmp/mcp-fs-test"
  /\ FsTest.resolvePath "/srv" "/home/user" "" "/tmp/mcp-fs-test"
     = Ok "/tmp/mcp-fs-test"
  /\ FsTest.resolvePath "/srv" "/home/user" "/tmp/mcp-fs-test/test.txt" "/tmp/mcp-fs-test"
     = Ok "/tmp/mcp-fs-test/test.txt"
  /\ FsTest.resolvePath "/srv" "/home/user" "subdir//nested.txt" "/tmp/mcp-fs-test"
     = Ok "/tmp/mcp-fs-test/subdir/nested.txt"
  /\ FsTest.resolvePath "/srv" "/home/user" "./subdir/./nested.txt" "/tmp/mcp-fs-test"
     = Ok "/tmp/mcp-fs-test/subdir/nested.txt"
  /\ FsTest.resolvePath "/srv" "/home/user" "a/b/c/d/e/f/g/h/i/j.txt" "/tmp/mcp-fs-test"
     = Ok "/tmp/mcp-fs-test/a/b/c/d/e/f/g/h/i/j.txt".
Proof. repeat split. Qed.

Example test_paths_outside_root :
  Forall (fun inputPath =>
            FsTest.resolvePath "/srv" "/home/user" inputPath "/tmp/mcp-fs-test"
            = Throw "Access denied: path is outside root directory")
         [ "../etc/passwd"; "../../etc/passwd"; "subdir/../../etc/passwd";
           "./subdir/../../../etc/passwd"; "/etc/passwd"; "/tmp/other";
           "~/secret"; ".." ].
Proof. repeat constructor. Qed.

Example test_quoteIdentifier :
  Sqlite.quoteIdentifier "users" = String Sqlite.dquote ("users" ++ String Sqlite.dquote "")
  /\ Sqlite.quoteIdentifier ("table" ++ String Sqlite.dquote "name")
     = String Sqlite.dquote
         ("table" ++ String Sqlite.dquote (String Sqlite.dquote
                       ("name" ++ String Sqlite.dquote ""))).
Proof. split; reflexivity. Qed.

Example test_validateIdentifier_accepts :
  Forall (fun name => Sqlite.validateIdentifier name Sqlite.table = Ok name)
         [ "users"; "user_table"; "Users123"; "_private"; "my table"; "user-data";
           "123table"; "MyTable123"; "My Schema" ].
Proof. repeat constructor. Qed.

Example test_validateIdentifier_rejects :
  Forall (fun name =>
            Sqlite.validateIdentifier name Sqlite.table
            = Throw "Invalid table name: contains disallowed characters")
         [ "users; DROP TABLE users"; "users'--"; "users/*comment*/"; "users@domain";
           "users$var"; "users%"; "users" ++ Filesystem.nl; "users()";
           "users" ++ String Sqlite.dquote "--" ].
Proof. repeat constructor. Qed.

Example test_sqlite_allowed :
  Forall (fun sql => Sqlite.read_only_gate sql = Ok tt)
         [ "SELECT * FROM users"; "SELECT id, name FROM users WHERE id = 1";
           "select * from users"; "WITH cte AS (SELECT 1) SELECT * FROM cte";
           "EXPLAIN SELECT * FROM users"; "SELECT * FROM users;";
           "SELECT * FROM users;   "; "SELECT updated_at FROM users";
           "SELECT created_by FROM users"; "SELECT is_deleted FROM users";
           "SeLeCt * FrOm UsErS" ].
Proof. repeat constructor. Qed.

Example test_sqlite_denied :
  Sqlite.read_only_gate "SELECT * FROM users WHERE id IN (DELETE FROM other)"
  = Throw "Query contains forbidden keyword: DELETE"
  /\ Sqlite.read_only_gate "SELECT 1; SELECT 2"
     = Throw "Multiple statements are not allowed"
  /\ Sqlite.read_only_gate "SELECT * FROM users WHERE UPDATE = 1"
     = Throw "Query contains forbidden keyword: UPDATE"
  /\ Forall (fun sql => Sqlite.read_only_gate sql = Throw Sqlite.not_read_only_message)
            [ "INSERT INTO users VALUES (1)"; "DELETE FROM users"; "DROP TABLE users";
              "CREATE TABLE hack (id INT)"; "PRAGMA table_info(users)";
              "CALL stored_procedure()"; "EXEC sp_something" ].
Proof. repeat split; repeat constructor. Qed.

Example test_postgres_gate :
  Forall (fun query => Postgres.gate query = None)
         [ "SELECT * FROM users"; "SELECT id, name FROM public.users";
           "WITH active AS (SELECT * FROM users WHERE active) SELECT * FROM active";
           "SELECT updated_at, created_by, deleted FROM users";
           "SELECT grant_date FROM permissions" ]
  /\ Postgres.gate "UPDATE users SET name = 'hacked'"
     = Some (reply_error "Error: Query contains forbidden keyword: UPDATE")
  /\ Postgres.gate "COPY users TO '/tmp/data.csv'"
     = Some (reply_error "Error: Query contains forbidden keyword: COPY")
  /\ Postgres.gate "SELECT * FROM users WHERE status = 'DELETE'"
     = Some (reply_error "Error: Query contains forbidden keyword: DELETE")
  /\ Postgres.gate "EXPLAIN SELECT * FROM users"
     = Some (reply_error Postgres.not_select_message).
Proof. repeat split; repeat constructor. Qed.

Example test_isBinaryFile :
  Filesystem.isBinaryFile
    ["137"%byte; "080"%byte; "078"%byte; "071"%byte; "000"%byte; "000"%byte] = true
  /\ Filesystem.isBinaryFile (list_byte_of_string "Hello, World!") = false.
Proof. split; reflexivity. Qed.

(** ** Strings *)

Lemma append_empty_r (s : string) : s ++ "" = s.
Proof. induction s as [|c s IH]; simpl; [reflexivity | now rewrite IH]. Qed.

Lemma append_assoc (a b c : string) : (a ++ b) ++ c = a ++ (b ++ c).
Proof. induction a as [|x a IH]; simpl; [reflexivity | now rewrite IH]. Qed.

Lemma startsWith_spec (s p : string) :
  Js.startsWith s p = true <-> Spec.has_prefix p s.
Proof.
  revert s; induction p as [|a p IH]; intros s; simpl.
  - split; [intros _; exists s; reflexivity | reflexivity].
  - destruct s as [|b s].
    + split; [discriminate | intros [rest H]; discriminate].
    + rewrite andb_true_iff, Ascii.eqb_eq, IH. split.
      * intros [-> [rest ->]]. exists rest. reflexivity.
      * intros [rest H]. injection H as -> ->. split; [reflexivity | now exists rest].
Qed.

(** ** The identifier quoter *)

Lemma unquote_body_escaped (s : string) :
  Spec.unquote_body
    (Js.replace_all Sqlite.dquote (String Sqlite.dquote (String Sqlite.dquote "")) s
     ++ String Sqlite.dquote "") = Some s.
Proof.
  induction s as [|c s IH]; [reflexivity|].
  cbn [Js.replace_all].
  destruct (Ascii.eqb c Sqlite.dquote) eqn:E.
  - apply Ascii.eqb_eq in E. subst c.
    cbn [append Spec.unquote_body]. rewrite Ascii.eqb_refl.
    rewrite IH. reflexivity.
  - cbn [append Spec.unquote_body]. rewrite E, IH. reflexivity.
Qed.

(** C3. For every string [s], also one with double quotes in it, reading
    [quoteIdentifier s] under the identifier-quoting grammar (opening quote,
    doubled quotes, closing quote) gives back exactly [s]; [quoteIdentifier]
    is a total function. *)
Theorem quoteIdentifier_round_trip (s : string) :
  Spec.unquote (Sqlite.quoteIdentifier s) = Some s.
Proof.
  unfold Sqlite.quoteIdentifier, Spec.unquote.
  rewrite Ascii.eqb_refl. apply unquote_body_escaped.
Qed.

(** ** Characters *)

Lemma code_eq (c : ascii) (n : nat) :
  n < 256 -> (Js.code c = n <-> c = ascii_of_nat n).
Proof.
  intros Hn. unfold Js.code. split.
  - intros <-. symmetry. apply ascii_nat_embedding.
  - intros ->. now apply nat_ascii_embedding.
Qed.

Lemma code_eqb (c : ascii) (n : nat) :
  n < 256 -> ((Js.code c =? n) = true <-> c = ascii_of_nat n).
Proof. intros Hn. rewrite Nat.eqb_eq. now apply code_eq. Qed.

Lemma in_range_spec (lo hi : nat) (c : ascii) :
  Js.in_range lo hi c = true <-> lo <= Js.code c <= hi.
Proof.
  unfold Js.in_range. rewrite andb_true_iff, !Nat.leb_le. reflexivity.
Qed.

Lemma is_letter_spec (c : ascii) : Js.is_letter c = true <-> Spec.letter c.
Proof.
  unfold Js.is_letter, Js.is_upper, Js.is_lower, Spec.letter.
  rewrite orb_true_iff, !in_range_spec. reflexivity.
Qed.

Lemma is_digit_spec (c : ascii) : Js.is_digit c = true <-> Spec.digit c.
Proof. unfold Js.is_digit, Spec.digit. apply in_range_spec. Qed.

Lemma is_word_spec (c : ascii) : Js.is_word c = true <-> Spec.strict_rest c.
Proof.
  unfold Js.is_word, Spec.strict_rest.
  rewrite !orb_true_iff, is_letter_spec, is_digit_spec, (code_eqb c 95) by lia.
  tauto.
Qed.

Lemma ident_start_spec (c : ascii) :
  Sqlite.ident_start c = true <-> Spec.letter c \/ c = "_"%char.
Proof.
  unfold Sqlite.ident_start.
  rewrite orb_true_iff, is_letter_spec, (code_eqb c 95) by lia. reflexivity.
Qed.

Lemma ident_loose_spec (c : ascii) : Sqlite.ident_loose c = true <-> Spec.loose c.
Proof.
  unfold Sqlite.ident_loose, Spec.loose.
  rewrite !orb_true_iff, is_letter_spec, is_digit_spec,
    (code_eqb c 95), (code_eqb c 32), (code_eqb c 45) by lia.
  tauto.
Qed.

Lemma is_control_spec (c : ascii) :
  Js.is_control c = true <-> Js.code c < 32 \/ 127 <= Js.code c <= 159.
Proof.
  unfold Js.is_control. rewrite orb_true_iff, Nat.ltb_lt, in_range_spec. reflexivity.
Qed.

(** The characters the validator is meant to keep out belong to neither
    identifier grammar. *)
Lemma disallowed_not_loose (c : ascii) :
  Spec.injection_char c \/ Js.is_control c = true -> ~ Spec.loose c.
Proof.
  intros H L.
  assert (K : Js.code c < 32 \/ 127 <= Js.code c <= 159
              \/ In (Js.code c) [59; 39; 34; 40; 41; 47; 92]).
  { destruct H as [H | H].
    - right. right. simpl in H.
      repeat (destruct H as [<- | H]; [vm_compute; tauto|]). contradiction.
    - apply is_control_spec in H. tauto. }
  assert (M : Spec.letter c \/ Spec.digit c \/ In (Js.code c) [95; 32; 45]).
  { destruct L as [L | [L | [L | [L | L]]]]; [tauto | tauto | | | ];
      subst c; right; right; vm_compute; tauto. }
  unfold Spec.letter, Spec.digit in M. simpl in K, M. lia.
Qed.

(** ** The regular-expression fragment *)

Lemma matches_star (p : ascii -> bool) (re : RegExp.regex) (prev : option ascii)
      (s : string) :
  RegExp.matches (RegExp.Star p :: re) prev s =
  RegExp.matches re prev s ||
  match s with
  | String c s' => p c && RegExp.matches (RegExp.Star p :: re) (Some c) s'
  | EmptyString => false
  end.
Proof. destruct s; reflexivity. Qed.

Lemma matches_class (p : ascii -> bool) (re : RegExp.regex) (prev : option ascii)
      (c : ascii) (s : string) :
  RegExp.matches (RegExp.Class p :: re) prev (String c s) =
  p c && RegExp.matches re (Some c) s.
Proof. reflexivity. Qed.

Lemma search_unfold (re : RegExp.regex) (prev : option ascii) (s : string) :
  RegExp.search re prev s =
  RegExp.matches re prev s ||
  match s with
  | String c s' => RegExp.search re (Some c) s'
  | EmptyString => false
  end.
Proof. destruct s; reflexivity. Qed.

(** A pattern anchored by [^] matches at index 0 only. *)
Lemma search_anchored_later (re : RegExp.regex) (c : ascii) (s : string) :
  RegExp.search (RegExp.Bol :: re) (Some c) s = false.
Proof.
  revert c; induction s as [|d s IH]; intros c; [reflexivity|].
  rewrite search_unfold. cbn [RegExp.matches RegExp.at_start andb orb]. apply IH.
Qed.

Lemma test_anchored (re : RegExp.regex) (s : string) :
  RegExp.test (RegExp.Bol :: re) s = RegExp.matches re None s.
Proof.
  unfold RegExp.test. rewrite search_unfold.
  cbn [RegExp.matches RegExp.at_start andb].
  destruct s as [|c s]; [apply orb_false_r|].
  rewrite search_anchored_later. apply orb_false_r.
Qed.

Lemma matches_star_to_end (p : ascii -> bool) (prev : option ascii) (s : string) :
  RegExp.matches [RegExp.Star p; RegExp.Eol] prev s = true
  <-> Spec.all_chars (fun c => p c = true) s.
Proof.
  revert prev; induction s as [|c s IH]; intros prev; rewrite matches_star.
  - cbn. split; [constructor | reflexivity].
  - cbn [RegExp.matches Js.is_empty andb orb]. rewrite andb_true_iff, IH. split.
    + intros [H1 H2]. now constructor.
    + intros H. inversion H; subst. now split.
Qed.

Lemma all_chars_iff (P Q : ascii -> Prop) (s : string) :
  (forall c, P c <-> Q c) -> (Spec.all_chars P s <-> Spec.all_chars Q s).
Proof.
  intros E. split; induction 1; constructor; try assumption; now apply E.
Qed.

Lemma strict_identifier_spec (s : string) :
  RegExp.test Sqlite.strict_identifier s = true <-> Spec.strict_grammar s.
Proof.
  unfold Sqlite.strict_identifier, Spec.strict_grammar. rewrite test_anchored.
  destruct s as [|c s].
  - split; [discriminate | intros (c & rest & H & _); discriminate].
  - rewrite matches_class, andb_true_iff, matches_star_to_end, ident_start_spec.
    rewrite (all_chars_iff _ Spec.strict_rest) by apply is_word_spec. split.
    + intros [H1 H2]. now exists c, s.
    + intros (c' & rest & H & H1 & H2). injection H as -> ->. now split.
Qed.

Lemma loose_identifier_spec (s : string) :
  RegExp.test Sqlite.loose_identifier s = true <-> Spec.loose_grammar s.
Proof.
  unfold Sqlite.loose_identifier, Spec.loose_grammar. rewrite test_anchored.
  destruct s as [|c s].
  - split; [discriminate | intros [H _]; now contradiction H].
  - rewrite matches_class, andb_true_iff, matches_star_to_end, ident_loose_spec.
    rewrite (all_chars_iff _ Spec.loose) by apply ident_loose_spec. split.
    + intros [H1 H2]. split; [discriminate | now constructor].
    + intros [_ H]. inversion H; subst. now split.
Qed.

Lemma all_chars_occurs (P : ascii -> Prop) (s : string) (c : ascii) :
  Spec.all_chars P s -> Spec.occurs c s -> P c.
Proof.
  intros H O. induction O; inversion H; subst; auto.
Qed.

Lemma disallowed_no_grammar (s : string) :
  Spec.has_disallowed s -> ~ (Spec.strict_grammar s \/ Spec.loose_grammar s).
Proof.
  intros (c & O & D) G.
  apply (disallowed_not_loose c D).
  destruct G as [(c0 & rest & -> & H0 & Hr) | [_ L]].
  - inversion O; subst.
    + unfold Spec.loose. tauto.
    + pose proof (all_chars_occurs _ _ _ Hr H1) as H.
      unfold Spec.strict_rest in H. unfold Spec.loose. tauto.
  - exact (all_chars_occurs _ _ _ L O).
Qed.

(** C7. [validateIdentifier s] succeeds exactly when [s] matches the strict
    grammar [^[A-Za-z_][A-Za-z0-9_]*$] or the looser grammar
    [^[A-Za-z0-9_ -]+$], so that the digit-led name [123table] is accepted;
    every other string, and so every string with a semicolon, a quote, a
    parenthesis, a slash, a backslash or a control character such as a line
    feed, is refused with the invalid-identifier error. *)
Theorem validateIdentifier_grammar (s : string) (kind : Sqlite.identifier_kind) :
  (Sqlite.validateIdentifier s kind = Ok s
   <-> Spec.strict_grammar s \/ Spec.loose_grammar s)
  /\ (Sqlite.validateIdentifier s kind = Ok s
      \/ Sqlite.validateIdentifier s kind =
         Throw ("Invalid " ++ Sqlite.kind_name kind
                ++ " name: contains disallowed characters"))
  /\ (Spec.has_disallowed s ->
      Sqlite.validateIdentifier s kind =
      Throw ("Invalid " ++ Sqlite.kind_name kind
             ++ " name: contains disallowed characters"))
  /\ Sqlite.validateIdentifier "123table" kind = Ok "123table".
Proof.
  assert (E : Sqlite.validateIdentifier s kind = Ok s
              <-> Spec.strict_grammar s \/ Spec.loose_grammar s).
  { rewrite <- strict_identifier_spec, <- loose_identifier_spec.
    unfold Sqlite.validateIdentifier.
    destruct (RegExp.test Sqlite.strict_identifier s);
      destruct (RegExp.test Sqlite.loose_identifier s); cbn;
      intuition discriminate. }
  assert (T : Sqlite.validateIdentifier s kind = Ok s
              \/ Sqlite.validateIdentifier s kind =
                 Throw ("Invalid " ++ Sqlite.kind_name kind
                        ++ " name: contains disallowed characters")).
  { unfold Sqlite.validateIdentifier.
    destruct (RegExp.test Sqlite.strict_identifier s);
      destruct (RegExp.test Sqlite.loose_identifier s); cbn; auto. }
  repeat split; try apply E; try exact T.
  - intros D. apply disallowed_no_grammar in D.
    destruct T as [T | T]; [|exact T]. apply E in T. contradiction.
Qed.

(** The witness of C7: a name with a semicolon in it is refused. *)
Lemma validateIdentifier_grammar_witness :
  Sqlite.validateIdentifier "users; DROP TABLE users" Sqlite.table
  = Throw "Invalid table name: contains disallowed characters".
Proof.
  destruct (validateIdentifier_grammar "users; DROP TABLE users" Sqlite.table)
    as (_ & _ & H & _).
  apply H. exists ";"%char. split.
  - do 5 apply Spec.occurs_later. apply Spec.occurs_here.
  - left. left. reflexivity.
Defined.

(** ** Case folding *)

Lemma is_word_upper (c : ascii) : Js.is_word (Js.upper_char c) = Js.is_word c.
Proof. destruct c as [[] [] [] [] [] [] [] []]; reflexivity. Qed.

Lemma lower_ascii (c : ascii) :
  (Js.code (Js.lower_char c) <? 128) = (Js.code c <? 128).
Proof. destruct c as [[] [] [] [] [] [] [] []]; reflexivity. Qed.

Lemma upper_lower (c : ascii) :
  (Js.code c <? 128) = true -> Js.upper_char (Js.lower_char c) = Js.upper_char c.
Proof.
  destruct c as [[] [] [] [] [] [] [] []]; intros H;
    first [reflexivity | vm_compute in H; discriminate H].
Qed.

Lemma lower_upper (c : ascii) : Js.lower_char (Js.upper_char c) = Js.lower_char c.
Proof. destruct c as [[] [] [] [] [] [] [] []]; reflexivity. Qed.

Lemma map_chars_append (f : ascii -> ascii) (a b : string) :
  Js.map_chars f (a ++ b) = Js.map_chars f a ++ Js.map_chars f b.
Proof. induction a as [|c a IH]; simpl; [reflexivity | now rewrite IH]. Qed.

Lemma map_chars_compose (f g : ascii -> ascii) (s : string) :
  Js.map_chars f (Js.map_chars g s) = Js.map_chars (fun c => f (g c)) s.
Proof. induction s as [|c s IH]; simpl; [reflexivity | now rewrite IH]. Qed.

Lemma map_chars_ext (f g : ascii -> ascii) (s : string) :
  (forall c, f c = g c) -> Js.map_chars f s = Js.map_chars g s.
Proof. intros E. induction s as [|c s IH]; simpl; [reflexivity | now rewrite E, IH]. Qed.

Lemma lower_of_upper (s : string) :
  Js.toLowerCase (Js.toUpperCase s) = Js.toLowerCase s.
Proof.
  unfold Js.toUpperCase, Js.toLowerCase. rewrite map_chars_compose.
  apply map_chars_ext, lower_upper.
Qed.

Lemma ascii_text_check (s : string) :
  Spec2.is_ascii_text s = true <-> Spec2.ascii_text s.
Proof.
  unfold Spec2.ascii_text. induction s as [|c s IH]; cbn [Spec2.is_ascii_text].
  - split; [constructor | reflexivity].
  - rewrite Bool.andb_true_iff, IH, Nat.ltb_lt. split.
    + intros [C A]. constructor; assumption.
    + intros A. inversion A; subst. split; assumption.
Qed.

(** Texts equal up to the case of the ASCII letters have the same lower
    case; for an ASCII text the converse holds too. *)
Lemma eq_ci_lower (a b : string) :
  Spec.eq_ci a b -> Js.toLowerCase a = Js.toLowerCase b.
Proof.
  unfold Spec.eq_ci. intros H.
  rewrite <- (lower_of_upper a), <- (lower_of_upper b). now rewrite H.
Qed.

Lemma lower_eq_ci (a b : string) :
  Spec2.ascii_text b -> Js.toLowerCase a = Js.toLowerCase b -> Spec.eq_ci a b.
Proof.
  unfold Spec2.ascii_text, Spec.eq_ci, Js.toLowerCase, Js.toUpperCase.
  revert b. induction a as [|c a IH]; intros [|d b] A H;
    cbn [Js.map_chars] in *; try discriminate H; [reflexivity|].
  inversion A as [|? ? D A']; subst. injection H as Hc Hs.
  apply Nat.ltb_lt in D.
  assert (C : (Js.code c <? 128) = true).
  { rewrite <- lower_ascii, Hc, lower_ascii. exact D. }
  f_equal; [|exact (IH b A' Hs)].
  rewrite <- (upper_lower c C), <- (upper_lower d D). now rewrite Hc.
Qed.

(** A mapped string splits where its image does. *)
Lemma map_chars_split (f : ascii -> ascii) (a b s : string) :
  Js.map_chars f s = a ++ b
  <-> exists h r, s = h ++ r /\ Js.map_chars f h = a /\ Js.map_chars f r = b.
Proof.
  revert s; induction a as [|x a IH]; intros s.
  - simpl. split.
    + intros H. exists "", s. auto.
    + intros (h & r & -> & Hh & <-). destruct h; [reflexivity | discriminate].
  - destruct s as [|c s]; simpl.
    + split; [discriminate|]. intros (h & r & H & Hh & _).
      destruct h; [discriminate Hh | discriminate H].
    + split.
      * intros H. injection H as Hc H. apply IH in H. destruct H as (h & r & -> & Hh & Hr).
        exists (String c h), r. simpl. rewrite Hc, Hh. auto.
      * intros (h & r & H & Hh & Hr). destruct h as [|c' h]; [discriminate Hh|].
        simpl in H, Hh. injection H as -> ->. injection Hh as -> <-.
        f_equal. apply IH. now exists h, r.
Qed.

(** [toUpperCase(trim(q)).startsWith(K)] for an upper-case [K], and
    [toLowerCase(trim(q)).startsWith(k)] for a lower-case [k], both say that
    the trimmed query begins with the keyword in some case. *)
Lemma startsWith_upper (K q : string) :
  Js.toUpperCase K = K ->
  (Js.startsWith (Js.toUpperCase (Js.trim q)) K = true <-> Spec.begins_with K q).
Proof.
  intros HK. rewrite startsWith_spec. unfold Spec.has_prefix, Spec.begins_with, Spec.eq_ci.
  split.
  - intros [rest H]. apply map_chars_split in H. destruct H as (h & r & E & Hh & _).
    exists h, r. split; [exact E|]. now rewrite HK.
  - intros (h & r & E & Hh). exists (Js.toUpperCase r). rewrite E.
    unfold Js.toUpperCase at 1. rewrite map_chars_append. fold (Js.toUpperCase h).
    now rewrite Hh, HK.
Qed.

Lemma startsWith_lower (k q : string) :
  Js.toLowerCase k = k ->
  Spec2.ascii_text k ->
  (Js.startsWith (Js.toLowerCase (Js.trim q)) k = true <-> Spec.begins_with k q).
Proof.
  intros Hk Ak. rewrite startsWith_spec. unfold Spec.has_prefix, Spec.begins_with.
  split.
  - intros [rest H]. apply map_chars_split in H. destruct H as (h & r & E & Hh & _).
    exists h, r. split; [exact E|]. apply (lower_eq_ci h k Ak).
    fold (Js.toLowerCase h) in Hh. now rewrite Hk.
  - intros (h & r & E & Hh). exists (Js.toLowerCase r). rewrite E.
    unfold Js.toLowerCase at 1. rewrite map_chars_append. fold (Js.toLowerCase h).
    apply eq_ci_lower in Hh. now rewrite Hh, Hk.
Qed.

(** [s.includes(p)]: [p] stands somewhere in [s]. *)
Lemma includes_spec (s p : string) :
  Js.includes s p = true <-> exists before after, s = before ++ p ++ after.
Proof.
  induction s as [|c s IH]; cbn [Js.includes].
  - rewrite Bool.orb_false_r, startsWith_spec. split.
    + intros [rest H]. exists "", rest. exact H.
    + intros [before [after H]]. destruct before as [|b before]; [|discriminate H].
      exists after. exact H.
  - rewrite Bool.orb_true_iff, startsWith_spec, IH. split.
    + intros [[rest H] | [before [after H]]].
      * exists "", rest. exact H.
      * exists (String c before), after. cbn. now rewrite H.
    + intros [[|b before] [after H]].
      * left. exists after. exact H.
      * right. cbn in H. injection H as _ H. exists before, after. exact H.
Qed.

(** The test [text.toLowerCase().includes(query.toLowerCase())]. *)
Lemma includes_folded (text query : string) :
  Js.includes (Js.toLowerCase text) (Js.toLowerCase query) = true
  <-> Spec2.occurs_folded query text.
Proof.
  rewrite includes_spec. unfold Spec2.occurs_folded. split.
  - intros [b [a H]]. apply map_chars_split in H.
    destruct H as (before & r & E & _ & Hr).
    apply map_chars_split in Hr. destruct Hr as (occurrence & after & E' & Ho & _).
    exists before, occurrence, after. split; [now rewrite E, E' | exact Ho].
  - intros (before & occurrence & after & E & Ho).
    exists (Js.toLowerCase before), (Js.toLowerCase after). rewrite E.
    unfold Js.toLowerCase at 1. rewrite !map_chars_append.
    fold (Js.toLowerCase occurrence). now rewrite Ho.
Qed.

(** The test [query.trim().toLowerCase().includes(word)] for a lower-case
    ASCII [word]. *)
Lemma includes_mentions (word query : string) :
  Js.toLowerCase word = word ->
  Spec2.ascii_text word ->
  (Js.includes (Js.toLowerCase (Js.trim query)) word = true
   <-> Spec2.mentions word query).
Proof.
  intros L A. rewrite <- L at 1. rewrite includes_folded.
  unfold Spec2.occurs_folded, Spec2.mentions. split.
  - intros (b & o & a & E & H). exists b, o, a. split; [exact E|].
    exact (lower_eq_ci o word A H).
  - intros (b & o & a & E & H). exists b, o, a. split; [exact E|].
    exact (eq_ci_lower o word H).
Qed.

Lemma begins_with_ci (k k' q : string) :
  Spec.eq_ci k k' -> (Spec.begins_with k q <-> Spec.begins_with k' q).
Proof.
  unfold Spec.begins_with, Spec.eq_ci. intros E.
  split; intros (h & r & H & Hh); exists h, r; split; try exact H; congruence.
Qed.

(** ** Whole-word matching *)

Lemma last_char_some (c : ascii) (s : string) :
  exists d, Spec.last_char (String c s) = Some d.
Proof.
  revert c; induction s as [|x s IH]; intros c; [now exists c|].
  destruct (IH x) as [d H]. exists d. exact H.
Qed.

Lemma last_or_cons (prev : option ascii) (c : ascii) (s : string) :
  Spec.last_or prev (String c s) = Spec.last_or (Some c) s.
Proof.
  unfold Spec.last_or. destruct s as [|d s]; [reflexivity|].
  change (Spec.last_char (String c (String d s))) with (Spec.last_char (String d s)).
  destruct (last_char_some d s) as [e ->]. reflexivity.
Qed.

Lemma last_or_append (prev : option ascii) (a b : string) :
  Spec.last_or prev (a ++ b) = Spec.last_or (Spec.last_or prev a) b.
Proof.
  revert prev; induction a as [|c a IH]; intros prev; [reflexivity|].
  simpl append. now rewrite !last_or_cons, IH.
Qed.

Lemma last_char_upper (s : string) :
  Spec.last_char (Js.toUpperCase s) = option_map Js.upper_char (Spec.last_char s).
Proof.
  induction s as [|c s IH]; [reflexivity|].
  destruct s as [|d s]; [reflexivity|]. exact IH.
Qed.

Lemma first_char_upper (s : string) :
  Spec.first_char (Js.toUpperCase s) = option_map Js.upper_char (Spec.first_char s).
Proof. destruct s; reflexivity. Qed.

Lemma word_char_upper (c : option ascii) :
  Spec.word_char (option_map Js.upper_char c) = Spec.word_char c.
Proof. destruct c; [apply is_word_upper | reflexivity]. Qed.

Lemma not_word_spec (c : option ascii) : Spec.not_word c <-> Spec.word_char c = false.
Proof. destruct c; simpl; [reflexivity | tauto]. Qed.

(** An occurrence of a keyword starts and ends with a word character. *)
Lemma occurrence_is_word (k m : string) :
  Spec.is_keyword k = true -> Spec.eq_ci m k ->
  Spec.word_char (Spec.first_char m) = true /\ Spec.word_char (Spec.last_char m) = true.
Proof.
  unfold Spec.is_keyword, Spec.eq_ci. intros K E.
  rewrite <- (word_char_upper (Spec.first_char m)), <- (word_char_upper (Spec.last_char m)).
  rewrite <- first_char_upper, <- last_char_upper, E, first_char_upper, last_char_upper.
  rewrite !word_char_upper.
  destruct (Spec.first_char k); [|discriminate].
  destruct (Spec.last_char k); [|discriminate].
  now apply andb_true_iff in K.
Qed.

Lemma matches_literal (k : string) (re : RegExp.regex) (prev : option ascii)
      (s : string) :
  RegExp.matches (RegExp.literal_i k ++ re)%list prev s = true
  <-> exists m after,
      s = m ++ after /\ Spec.eq_ci m k
      /\ RegExp.matches re (Spec.last_or prev m) after = true.
Proof.
  revert prev s; induction k as [|x k IH]; intros prev s.
  - simpl. split.
    + intros H. exists "", s. repeat split. exact H.
    + intros (m & after & -> & E & H).
      destruct m; [exact H | discriminate E].
  - cbn [RegExp.literal_i app]. destruct s as [|c s].
    + split; [discriminate|]. intros (m & after & H & E & _).
      destruct m; [discriminate E | discriminate H].
    + rewrite matches_class, andb_true_iff, IH. unfold RegExp.char_i.
      rewrite Ascii.eqb_eq. split.
      * intros (Hc & m & after & -> & E & H).
        exists (String c m), after. rewrite last_or_cons. repeat split; try exact H.
        unfold Spec.eq_ci, Js.toUpperCase in *. cbn [Js.map_chars]. now rewrite Hc, E.
      * intros (m & after & H & E & M). destruct m as [|c' m]; [discriminate E|].
        injection H as -> ->. unfold Spec.eq_ci, Js.toUpperCase in E.
        cbn [Js.map_chars] in E. injection E as Hc E.
        rewrite last_or_cons in M. split; [exact Hc|]. now exists m, after.
Qed.

Lemma search_spec (re : RegExp.regex) (prev : option ascii) (s : string) :
  RegExp.search re prev s = true
  <-> exists before rest,
      s = before ++ rest /\ RegExp.matches re (Spec.last_or prev before) rest = true.
Proof.
  revert prev; induction s as [|c s IH]; intros prev; rewrite search_unfold.
  - rewrite orb_false_r. split.
    + intros H. exists "", "". auto.
    + intros (before & rest & H & M).
      destruct before; [|discriminate]. destruct rest; [|discriminate]. exact M.
  - rewrite orb_true_iff, IH. split.
    + intros [H | (before & rest & -> & M)].
      * exists "", (String c s). auto.
      * exists (String c before), rest. now rewrite last_or_cons.
    + intros (before & rest & H & M). destruct before as [|c' before].
      * left. simpl in H. now subst rest.
      * right. injection H as -> ->. rewrite last_or_cons in M. now exists before, rest.
Qed.

Lemma word_before_last (prev : option ascii) :
  RegExp.word_before prev = Spec.word_char prev.
Proof. reflexivity. Qed.

Lemma word_after_first (s : string) :
  RegExp.word_after s = Spec.word_char (Spec.first_char s).
Proof. destruct s; reflexivity. Qed.

Lemma first_char_append (a b : string) :
  a <> "" -> Spec.first_char (a ++ b) = Spec.first_char a.
Proof. destruct a; [congruence | reflexivity]. Qed.

(** The regular expression [\bkeyword\b] with the [i] flag finds exactly the
    whole-word occurrences of the keyword. *)
Lemma whole_word_test (k q : string) :
  Spec.is_keyword k = true ->
  (RegExp.test (RegExp.whole_word_i k) q = true <-> Spec.whole_word k q).
Proof.
  intros K. unfold RegExp.test, RegExp.whole_word_i, Spec.whole_word.
  rewrite search_spec. split.
  - intros (before & rest & -> & M).
    cbn [RegExp.matches] in M. apply andb_true_iff in M. destruct M as [B M].
    apply matches_literal in M. destruct M as (m & after & -> & E & M).
    cbn [RegExp.matches] in M. rewrite andb_true_r in M.
    destruct (occurrence_is_word k m K E) as [F L].
    assert (Hm : m <> "") by (intros ->; discriminate F).
    rewrite word_before_last, word_after_first in B, M.
    rewrite first_char_append in B by exact Hm.
    rewrite F in B.
    assert (L' : Spec.last_or (Spec.last_or None before) m = Spec.last_char m).
    { unfold Spec.last_or at 1. destruct (Spec.last_char m); [reflexivity | discriminate L]. }
    rewrite L', L in M.
    exists before, m, after. repeat split; try exact E; apply not_word_spec.
    + unfold Spec.last_or in B. destruct (Spec.last_char before); simpl in *;
        [destruct (Js.is_word a); [discriminate | reflexivity] | reflexivity].
    + destruct (Spec.word_char (Spec.first_char after)); [discriminate | reflexivity].
  - intros (before & m & after & -> & E & B & A).
    apply not_word_spec in B, A.
    destruct (occurrence_is_word k m K E) as [F L].
    assert (Hm : m <> "") by (intros ->; discriminate F).
    exists before, (m ++ after). split; [reflexivity|].
    cbn [RegExp.matches]. apply andb_true_iff. split.
    + rewrite word_before_last, word_after_first, first_char_append by exact Hm.
      rewrite F. unfold Spec.last_or. destruct (Spec.last_char before); simpl in *;
        [now rewrite B | reflexivity].
    + apply matches_literal. exists m, after. repeat split; try exact E.
      cbn [RegExp.matches]. rewrite andb_true_r, word_before_last, word_after_first.
      assert (L' : Spec.last_or (Spec.last_or None before) m = Spec.last_char m).
      { unfold Spec.last_or at 1. destruct (Spec.last_char m); [reflexivity | discriminate L]. }
      now rewrite L', L, A.
Qed.

(** ** The keyword loop *)

Lemma first_forbidden_some (ks : list string) (q k : string) :
  first_forbidden ks q = Some k ->
  In k ks /\ RegExp.test (RegExp.whole_word_i k) q = true.
Proof.
  induction ks as [|x ks IH]; simpl; [discriminate|].
  destruct (RegExp.test (RegExp.whole_word_i x) q) eqn:T.
  - intros H. injection H as <-. auto.
  - intros H. destruct (IH H). auto.
Qed.

Lemma first_forbidden_none (ks : list string) (q : string) :
  first_forbidden ks q = None
  <-> forall k, In k ks -> RegExp.test (RegExp.whole_word_i k) q = false.
Proof.
  induction ks as [|x ks IH]; simpl.
  - split; [intros _ k [] | reflexivity].
  - destruct (RegExp.test (RegExp.whole_word_i x) q) eqn:T.
    + split; [discriminate|]. intros H. rewrite (H x) in T; [discriminate | auto].
    + rewrite IH. split.
      * intros H k [<- | Hk]; auto.
      * intros H k Hk. apply H. auto.
Qed.

(** The loop stops at a keyword that occurs as a whole word, and finds one
    whenever there is one. *)
Lemma first_forbidden_whole_word (ks : list string) (q : string) :
  forallb Spec.is_keyword ks = true ->
  (forall k, first_forbidden ks q = Some k -> In k ks /\ Spec.whole_word k q)
  /\ (first_forbidden ks q = None <-> forall k, In k ks -> ~ Spec.whole_word k q).
Proof.
  intros K. rewrite forallb_forall in K. split.
  - intros k H. apply first_forbidden_some in H. destruct H as [I T].
    split; [exact I|]. apply whole_word_test; auto.
  - rewrite first_forbidden_none. split; intros H k I.
    + rewrite <- whole_word_test by auto. rewrite (H k I). discriminate.
    + destruct (RegExp.test (RegExp.whole_word_i k) q) eqn:T; [|reflexivity].
      apply whole_word_test in T; auto. now apply H in T.
Qed.

(** ** The read-only gates *)

Lemma sqlite_leading_check (q : string) :
  let upper := Js.toUpperCase (Js.trim q) in
  negb (Js.startsWith upper "SELECT") && negb (Js.startsWith upper "WITH")
  && negb (Js.startsWith upper "EXPLAIN") = false
  <-> Spec.begins_with_any Spec.sqlite_leading q.
Proof.
  intros upper. subst upper.
  pose proof (startsWith_upper "SELECT" q eq_refl) as S.
  pose proof (startsWith_upper "WITH" q eq_refl) as W.
  pose proof (startsWith_upper "EXPLAIN" q eq_refl) as E.
  unfold Spec.begins_with_any, Spec.sqlite_leading. split.
  - intros H.
    destruct (Js.startsWith (Js.toUpperCase (Js.trim q)) "SELECT");
      [exists "SELECT"; split; [simpl; auto | now apply S]|].
    destruct (Js.startsWith (Js.toUpperCase (Js.trim q)) "WITH");
      [exists "WITH"; split; [simpl; auto | now apply W]|].
    destruct (Js.startsWith (Js.toUpperCase (Js.trim q)) "EXPLAIN");
      [exists "EXPLAIN"; split; [simpl; auto | now apply E]|].
    discriminate H.
  - intros (k & [<- | [<- | [<- | []]]] & B).
    + apply S in B. now rewrite B.
    + apply W in B. rewrite B. now rewrite andb_false_r.
    + apply E in B. rewrite B. now rewrite andb_false_r.
Qed.

Lemma postgres_leading_check (q : string) :
  let trimmedQuery := Js.toLowerCase (Js.trim q) in
  negb (Js.startsWith trimmedQuery "select") && negb (Js.startsWith trimmedQuery "with")
  = false
  <-> Spec.begins_with_any Spec.postgres_leading q.
Proof.
  intros t. subst t.
  pose proof (startsWith_lower "select" q eq_refl
                (proj1 (ascii_text_check "select") eq_refl)) as S.
  pose proof (startsWith_lower "with" q eq_refl
                (proj1 (ascii_text_check "with") eq_refl)) as W.
  rewrite (begins_with_ci "select" "SELECT") in S by reflexivity.
  rewrite (begins_with_ci "with" "WITH") in W by reflexivity.
  unfold Spec.begins_with_any, Spec.postgres_leading. split.
  - intros H.
    destruct (Js.startsWith (Js.toLowerCase (Js.trim q)) "select");
      [exists "SELECT"; split; [simpl; auto | now apply S]|].
    destruct (Js.startsWith (Js.toLowerCase (Js.trim q)) "with");
      [exists "WITH"; split; [simpl; auto | now apply W]|].
    discriminate H.
  - intros (k & [<- | [<- | []]] & B).
    + apply S in B. now rewrite B.
    + apply W in B. rewrite B. now rewrite andb_false_r.
Qed.

(** The outcomes of the SQLite gate, in the order of its checks. *)
Lemma read_only_gate_cases (q : string) :
  (~ Spec.begins_with_any Spec.sqlite_leading q
   /\ Sqlite.read_only_gate q = Throw Sqlite.not_read_only_message)
  \/ (Spec.begins_with_any Spec.sqlite_leading q
      /\ exists k, first_forbidden Sqlite.dangerous q = Some k
                   /\ Sqlite.read_only_gate q
                      = Throw ("Query contains forbidden keyword: " ++ k))
  \/ (Spec.begins_with_any Spec.sqlite_leading q
      /\ first_forbidden Sqlite.dangerous q = None
      /\ (Sqlite.read_only_gate q = Throw "Multiple statements are not allowed"
          \/ Sqlite.read_only_gate q = Ok tt)).
Proof.
  pose proof (sqlite_leading_check q) as L. cbv zeta in L.
  unfold Sqlite.read_only_gate.
  destruct (negb (Js.startsWith (Js.toUpperCase (Js.trim q)) "SELECT")
            && negb (Js.startsWith (Js.toUpperCase (Js.trim q)) "WITH")
            && negb (Js.startsWith (Js.toUpperCase (Js.trim q)) "EXPLAIN")).
  - left. split; [|reflexivity]. intros B. apply L in B. discriminate.
  - right. assert (B : Spec.begins_with_any Spec.sqlite_leading q) by now apply L.
    destruct (first_forbidden Sqlite.dangerous q) as [k|].
    + left. split; [exact B|]. now exists k.
    + right. repeat split; try exact B.
      destruct (RegExp.test Sqlite.second_statement q); auto.
Qed.

(** The outcomes of the Postgres gate, in the order of its checks. *)
Lemma gate_cases (q : string) :
  (exists k, first_forbidden Postgres.dangerous q = Some k
             /\ Postgres.gate q
                = Some (reply_error ("Error: Query contains forbidden keyword: "
                                     ++ Js.toUpperCase k)))
  \/ (first_forbidden Postgres.dangerous q = None
      /\ ~ Spec.begins_with_any Spec.postgres_leading q
      /\ Postgres.gate q = Some (reply_error Postgres.not_select_message))
  \/ (first_forbidden Postgres.dangerous q = None
      /\ Spec.begins_with_any Spec.postgres_leading q
      /\ Postgres.gate q = None).
Proof.
  pose proof (postgres_leading_check q) as L. cbv zeta in L.
  unfold Postgres.gate.
  destruct (first_forbidden Postgres.dangerous q) as [k|].
  - left. now exists k.
  - right.
    destruct (negb (Js.startsWith (Js.toLowerCase (Js.trim q)) "select")
              && negb (Js.startsWith (Js.toLowerCase (Js.trim q)) "with")).
    + left. repeat split. intros B. apply L in B. discriminate.
    + right. repeat split. now apply L.
Qed.


Lemma pg_query_gate (to_json : Postgres.QueryResult -> string)
      (connect : result Postgres.Client) (query : string) (limit : option Z)
      (refused : Response) :
  Postgres.gate query = Some refused ->
  Postgres.pg_query to_json connect query limit = (None, refused).
Proof.
  intros G. unfold Postgres.pg_query. now rewrite G.
Qed.

Lemma sqlite_keywords : forallb Spec.is_keyword Sqlite.dangerous = true.
Proof. reflexivity. Qed.

Lemma postgres_keywords : forallb Spec.is_keyword Postgres.dangerous = true.
Proof. reflexivity. Qed.

(** C4. For a query that begins with an allowed leading keyword: if a
    keyword of the deny list occurs in it as a whole word, in any case, the
    gate denies it and the reason names a keyword that so occurs; if none
    does, no keyword is reported, whatever identifiers contain one as a
    substring.  [SELECT updated_at FROM users] is allowed by both gates. *)
Theorem keyword_scan_whole_word (q : string) :
  (Spec.begins_with_any Spec.sqlite_leading q ->
   ((exists k, In k Sqlite.dangerous /\ Spec.whole_word k q) ->
    exists k, In k Sqlite.dangerous /\ Spec.whole_word k q
              /\ Sqlite.read_only_gate q
                 = Throw ("Query contains forbidden keyword: " ++ k))
   /\ ((forall k, In k Sqlite.dangerous -> ~ Spec.whole_word k q) ->
       Sqlite.read_only_gate q = Ok tt
       \/ Sqlite.read_only_gate q = Throw "Multiple statements are not allowed"))
  /\ (Spec.begins_with_any Spec.postgres_leading q ->
      ((exists k, In k Postgres.dangerous /\ Spec.whole_word k q) ->
       exists k, In k Postgres.dangerous /\ Spec.whole_word k q
                 /\ Postgres.gate q
                    = Some (reply_error ("Error: Query contains forbidden keyword: "
                                         ++ Js.toUpperCase k)))
      /\ ((forall k, In k Postgres.dangerous -> ~ Spec.whole_word k q) ->
          Postgres.gate q = None))
  /\ Sqlite.read_only_gate Examples.column_query = Ok tt
  /\ Postgres.gate Examples.column_query = None.
Proof.
  destruct (first_forbidden_whole_word Sqlite.dangerous q sqlite_keywords) as [S1 S2].
  destruct (first_forbidden_whole_word Postgres.dangerous q postgres_keywords) as [P1 P2].
  repeat split; try reflexivity.
  - intros (k & I & W).
    destruct (read_only_gate_cases q) as [[N _] | [(_ & k' & F & G) | (_ & F & _)]].
    + contradiction.
    + exists k'. destruct (S1 k' F). auto.
    + destruct (proj1 S2 F k I W).
  - intros N.
    destruct (read_only_gate_cases q) as [[B _] | [(_ & k' & F & _) | (_ & _ & G)]].
    + contradiction.
    + destruct (S1 k' F) as [I W]. destruct (N k' I W).
    + tauto.
  - intros (k & I & W).
    destruct (gate_cases q) as [(k' & F & G) | [(F & _) | (F & _)]].
    + exists k'. destruct (P1 k' F). auto.
    + destruct (proj1 P2 F k I W).
    + destruct (proj1 P2 F k I W).
  - intros N.
    destruct (gate_cases q) as [(k' & F & _) | [(_ & B & _) | (_ & _ & G)]].
    + destruct (P1 k' F) as [I W]. destruct (N k' I W).
    + contradiction.
    + exact G.
Qed.

(** The witness of C4: a [DELETE] inside a [SELECT] is found and named. *)
Lemma keyword_scan_whole_word_witness :
  exists k, In k Sqlite.dangerous /\ Spec.whole_word k Examples.subquery
            /\ Sqlite.read_only_gate Examples.subquery
               = Throw ("Query contains forbidden keyword: " ++ k).
Proof.
  apply (proj1 (keyword_scan_whole_word Examples.subquery)).
  - exists "SELECT". split; [simpl; auto|].
    exists "SELECT", " * FROM users WHERE id IN (DELETE FROM other)".
    split; reflexivity.
  - exists "DELETE". split; [simpl; tauto|].
    exists "SELECT * FROM users WHERE id IN (", "DELETE", " FROM other)".
    repeat split.
Defined.





(** ** The result windower *)

Lemma slice_from_start {A : Type} (a : list A) (cap : Z) :
  (0 <= cap)%Z -> Js.slice a 0 cap = firstn (Z.to_nat cap) a.
Proof.
  intros H. unfold Js.slice, Js.clamp_index.
  replace (0 <? 0)%Z with false by reflexivity.
  replace (cap <? 0)%Z with false by (symmetry; apply Z.ltb_ge; exact H).
  replace (Z.to_nat (Z.min 0 (Z.of_nat (List.length a)))) with 0 by lia.
  cbn [skipn].
  destruct (Z.le_ge_cases cap (Z.of_nat (List.length a))) as [L | G].
  - f_equal. lia.
  - replace (Z.to_nat (Z.max (Z.min cap (Z.of_nat (List.length a))
                              - Z.min 0 (Z.of_nat (List.length a))) 0))
      with (List.length a) by lia.
    rewrite firstn_all. symmetry. apply firstn_all2. lia.
Qed.

Lemma window_spec (rows : list Sqlite.Row) (cap : Z) :
  (0 <= cap)%Z ->
  Sqlite.rows (Sqlite.window cap rows) = firstn (Z.to_nat cap) rows
  /\ Z.of_nat (List.length (Sqlite.rows (Sqlite.window cap rows)))
     = Z.min (Z.of_nat (List.length rows)) cap
  /\ Sqlite.rowCount (Sqlite.window cap rows) = Z.of_nat (List.length rows)
  /\ Sqlite.truncated (Sqlite.window cap rows)
     = (Z.of_nat (List.length rows) >? cap)%Z.
Proof.
  intros H. unfold Sqlite.window. cbn [Sqlite.rows Sqlite.rowCount Sqlite.truncated].
  rewrite slice_from_start by exact H. repeat split.
  rewrite length_firstn. lia.
Qed.

(** C6. For a cap that is a count ([0 <= MAX_ROWS]) and whatever rows the
    statement yields, [executeQuery] returns the first [MAX_ROWS] rows in
    their order, as many as the smaller of the total and the cap, with
    [rowCount] the number of rows before windowing and [truncated] telling
    whether that number exceeds the cap. *)
Theorem executeQuery_window (cfg : Sqlite.Config) (w : Sqlite.World)
        (database : Sqlite.Database) (sql : string) (found : list Sqlite.Row) :
  (0 <= Sqlite.MAX_ROWS cfg)%Z ->
  Sqlite.getDatabase cfg w = Ok database ->
  (if Sqlite.READ_ONLY cfg then Sqlite.read_only_gate sql else Ok tt) = Ok tt ->
  Sqlite.all database sql [] = Ok found ->
  exists r,
    Sqlite.executeQuery cfg w sql = Ok r
    /\ Sqlite.rows r = firstn (Z.to_nat (Sqlite.MAX_ROWS cfg)) found
    /\ Z.of_nat (List.length (Sqlite.rows r))
       = Z.min (Z.of_nat (List.length found)) (Sqlite.MAX_ROWS cfg)
    /\ Sqlite.rowCount r = Z.of_nat (List.length found)
    /\ Sqlite.truncated r = (Z.of_nat (List.length found) >? Sqlite.MAX_ROWS cfg)%Z.
Proof.
  intros H D G F. exists (Sqlite.window (Sqlite.MAX_ROWS cfg) found). split.
  - unfold Sqlite.executeQuery. rewrite D. cbn [bind]. rewrite G. cbn [bind].
    rewrite F. reflexivity.
  - now apply window_spec.
Qed.

(** The witness of C6: 150 rows against a cap of 100, and 50 rows against
    the same cap. *)
Lemma executeQuery_window_witness :
  (exists r,
      Sqlite.executeQuery Examples.sqlite_config
        (Examples.sqlite_world (Examples.numbered_rows 150)) Examples.numbers_query = Ok r
      /\ Sqlite.rows r = Examples.numbered_rows 100
      /\ Sqlite.rowCount r = 150%Z /\ Sqlite.truncated r = true)
  /\ (exists r,
         Sqlite.executeQuery Examples.sqlite_config
           (Examples.sqlite_world (Examples.numbered_rows 50)) Examples.numbers_query = Ok r
         /\ Sqlite.rows r = Examples.numbered_rows 50
         /\ Sqlite.rowCount r = 50%Z /\ Sqlite.truncated r = false).
Proof.
  split.
  - destruct (executeQuery_window Examples.sqlite_config
                (Examples.sqlite_world (Examples.numbered_rows 150))
                {| Sqlite.all := fun _ _ => Ok (Examples.numbered_rows 150) |}
                Examples.numbers_query (Examples.numbered_rows 150))
      as (r & E & R & _ & C & T); try reflexivity; [discriminate|].
    exists r. repeat split; [exact E | rewrite R | rewrite C | rewrite T]; reflexivity.
  - destruct (executeQuery_window Examples.sqlite_config
                (Examples.sqlite_world (Examples.numbered_rows 50))
                {| Sqlite.all := fun _ _ => Ok (Examples.numbered_rows 50) |}
                Examples.numbers_query (Examples.numbered_rows 50))
      as (r & E & R & _ & C & T); try reflexivity; [discriminate|].
    exists r. repeat split; [exact E | rewrite R | rewrite C | rewrite T]; reflexivity.
Defined.

(** ** The row cap of [pg_query] *)

Lemma add_limit_cases (query : string) (limit : Z) :
  (~ Spec2.mentions "limit" query
   /\ Postgres.add_limit query limit
      = query ++ " LIMIT " ++ Js.number_to_string limit)
  \/ (Spec2.mentions "limit" query
      /\ Postgres.add_limit query limit = query).
Proof.
  pose proof (includes_mentions "limit" query eq_refl
                (proj1 (ascii_text_check "limit") eq_refl)) as M.
  unfold Postgres.add_limit.
  destruct (Js.includes (Js.toLowerCase (Js.trim query)) "limit"); cbn [negb].
  - right. split; [apply M; reflexivity | reflexivity].
  - left. split; [|reflexivity]. intros H. apply M in H. discriminate H.
Qed.

(** C9. For a query that passes the gate of [pg_query] and a limit that is
    a whole number (or absent: 100), the statement sent to the server after
    [BEGIN TRANSACTION READ ONLY] is the query followed by [ LIMIT n] when
    [limit] occurs nowhere in its trimmed text, in any case; when it occurs
    somewhere, alone or inside a longer word, the statement is the query
    itself, with no row cap. *)
Theorem pg_query_limit (to_json : Postgres.QueryResult -> string)
        (client : Postgres.Client) (query : string) (limit : option Z)
        (began : Postgres.QueryResult) :
  Postgres.gate query = None ->
  Spec2.whole_limit limit ->
  Postgres.answer client (Postgres.sent client) "BEGIN TRANSACTION READ ONLY" = Ok began ->
  exists client' response later,
    Postgres.pg_query to_json (Ok client) query limit = (Some client', response)
    /\ (~ Spec2.mentions "limit" query ->
        Postgres.sent client'
        = (Postgres.sent client
           ++ ["BEGIN TRANSACTION READ ONLY";
               (query ++ " LIMIT "
                ++ Js.number_to_string
                     (match limit with Some l => l | None => 100%Z end))%string]
           ++ later)%list)
    /\ (Spec2.mentions "limit" query ->
        Postgres.sent client'
        = (Postgres.sent client ++ ["BEGIN TRANSACTION READ ONLY"; query] ++ later)%list).
Proof.
  intros G _ B.
  set (l := match limit with Some l => l | None => 100%Z end).
  set (safeQuery := Postgres.add_limit query l).
  assert (Sent : exists client' response later,
             Postgres.pg_query to_json (Ok client) query limit = (Some client', response)
             /\ Postgres.sent client'
                = (Postgres.sent client
                   ++ ["BEGIN TRANSACTION READ ONLY"; safeQuery] ++ later)%list).
  { unfold Postgres.pg_query. rewrite G. fold l. fold safeQuery.
    unfold Postgres.run_read_only, Postgres.client_query at 1.
    rewrite B. unfold Postgres.client_query at 1. cbn [Postgres.sent Postgres.answer].
    destruct (Postgres.answer client
                (Postgres.sent client ++ ["BEGIN TRANSACTION READ ONLY"])%list safeQuery)
      as [res | message].
    - unfold Postgres.client_query at 1. cbn [Postgres.sent Postgres.answer].
      destruct (Postgres.answer client
                  ((Postgres.sent client ++ ["BEGIN TRANSACTION READ ONLY"])
                     ++ [safeQuery])%list "COMMIT") as [done | message].
      + eexists _, _, ["COMMIT"]. split; [reflexivity|].
        cbn [Postgres.release Postgres.sent]. now rewrite <- !app_assoc.
      + unfold Postgres.rollback, Postgres.client_query.
        cbn [Postgres.sent Postgres.answer].
        destruct (Postgres.answer client _ "ROLLBACK");
          (eexists _, _, ["COMMIT"; "ROLLBACK"]; split; [reflexivity|];
           cbn [Postgres.release Postgres.sent]; now rewrite <- !app_assoc).
    - unfold Postgres.rollback, Postgres.client_query.
      cbn [Postgres.sent Postgres.answer].
      destruct (Postgres.answer client _ "ROLLBACK");
        (eexists _, _, ["ROLLBACK"]; split; [reflexivity|];
         cbn [Postgres.release Postgres.sent]; now rewrite <- !app_assoc). }
  destruct Sent as (client' & response & later & E & S).
  exists client', response, later. split; [exact E|].
  unfold safeQuery in S.
  destruct (add_limit_cases query l) as [[N A] | [M A]]; rewrite A in S.
  - split; [intros _; exact S | intros M; contradiction].
  - split; [intros N; contradiction | intros _; exact S].
Qed.

(** The witness of C9: [limit] occurs in [rate_limit], inside an
    identifier, and the query is sent as it is, without a row cap. *)
Lemma pg_query_limit_witness :
  exists client' response later,
    Postgres.pg_query (fun _ => "{}") (Ok Examples.quiet_client)
      Examples.rate_limit_query None = (Some client', response)
    /\ Postgres.sent client'
       = ([] ++ ["BEGIN TRANSACTION READ ONLY"; "SELECT rate_limit FROM plans"]
          ++ later)%list.
Proof.
  destruct (pg_query_limit (fun _ => "{}") Examples.quiet_client
              Examples.rate_limit_query None
              {| Postgres.rowCount := 0; Postgres.rows := [] |}
              eq_refl I eq_refl)
    as (client' & response & later & E & _ & H).
  exists client', response, later. split; [exact E|].
  apply H. exists "SELECT rate_", "limit", " FROM plans". split; reflexivity.
Defined.

(** ** Path confinement *)

(** The resolver of the test suite accepts a path only inside the root. *)
Lemma tested_resolvePath_confined (cwd homedir inputPath fsRoot resolved : string) :
  FsTest.resolvePath cwd homedir inputPath fsRoot = Ok resolved ->
  Spec.confined (Path.resolve cwd [fsRoot]) resolved.
Proof.
  unfold FsTest.resolvePath, Spec.confined.
  set (root := Path.resolve cwd [fsRoot]).
  set (p := Path.resolve cwd [Path.resolve cwd [fsRoot; _]]).
  destruct (Js.startsWith p (root ++ "/")) eqn:S; cbn [negb andb].
  - intros H. injection H as <-. right. now apply startsWith_spec.
  - destruct (String.eqb p root) eqn:E; cbn [negb]; [|discriminate].
    intros H. injection H as <-. left. now apply String.eqb_eq.
Qed.

(** What the resolver of the adapter guarantees: the resolved path starts
    with the characters of the resolved root. *)
Lemma resolvePath_prefix (cfg : Filesystem.Config) (w : Filesystem.World)
      (inputPath resolved : string) :
  Filesystem.resolvePath cfg w inputPath = Ok resolved ->
  Spec.has_prefix (Path.resolve (Filesystem.cwd w) [Filesystem.FS_ROOT cfg]) resolved.
Proof.
  unfold Filesystem.resolvePath.
  set (root := Path.resolve (Filesystem.cwd w) [Filesystem.FS_ROOT cfg]).
  set (p := Path.resolve (Filesystem.cwd w) [Path.resolve _ [_; _]]).
  destruct (Js.startsWith p root) eqn:S; cbn [negb]; [|discriminate].
  intros H. injection H as <-. now apply startsWith_spec.
Qed.

Lemma sibling_not_confined :
  ~ Spec.confined "/tmp/root" "/tmp/rootbackup/secret.txt".
Proof.
  intros [H | [rest H]]; discriminate H.
Qed.

(** C1, at the failing input.  With the root [/tmp/root], [resolvePath] of
    the filesystem adapter accepts [../rootbackup/secret.txt]: the resolved
    path [/tmp/rootbackup/secret.txt] starts with the characters of the root
    and is not under it, and [read_file] answers with the content of that
    file.  The resolver of the test suite, which adds the separator to the
    root before comparing, denies the same input. *)
Theorem resolvePath_accepts_sibling :
  Filesystem.resolvePath Examples.fs_config Examples.fs_world Examples.sibling_path
  = Ok "/tmp/rootbackup/secret.txt"
  /\ Path.resolve (Filesystem.cwd Examples.fs_world)
       [Filesystem.FS_ROOT Examples.fs_config] = "/tmp/root"
  /\ ~ Spec.confined "/tmp/root" "/tmp/rootbackup/secret.txt"
  /\ (forall formatSize other_tool,
         Filesystem.call_tool Examples.fs_config Examples.fs_world Examples.latin1
           formatSize other_tool (Filesystem.call_read_file Examples.sibling_path)
         = Ok (reply ("**" ++ Examples.sibling_path ++ "**" ++ Filesystem.nl
                      ++ Filesystem.nl ++ Filesystem.fence ++ Filesystem.nl
                      ++ "hello" ++ Filesystem.nl ++ Filesystem.fence)))
  /\ FsTest.resolvePath "/srv" "/home/user" Examples.sibling_path "/tmp/root"
     = Throw "Access denied: path is outside root directory".
Proof.
  repeat split; try reflexivity. exact sibling_not_confined.
Qed.

(** ** The bounded content reader *)

Lemma latin1_length (buffer : list byte) :
  String.length (Examples.latin1 buffer) <= List.length buffer.
Proof.
  unfold Examples.latin1, string_of_list_byte.
  induction buffer as [|b buffer IH]; simpl; lia.
Defined.

Lemma isBinaryFile_firstn (bytes : list byte) (n : nat) :
  List.length bytes <= n -> firstn n bytes = bytes.
Proof. intros H. now apply firstn_all2. Qed.

(** C2, amended.  For a file on disk, a cap that is a count
    ([0 <= MAX_FILE_SIZE]) and a decoder that gives no more characters than
    it is given bytes, the reader returns a result.  When the bytes read,
    the first [MAX_FILE_SIZE] of the file, hold no zero byte among their
    first 8192, the content is the decoding of exactly these bytes, no longer
    than the cap, and [truncated] tells whether the file is larger than the
    cap.  When they hold one, the content is the marker [[Binary file]] and
    [truncated] is [false], whatever the size. *)
Theorem readFileContent_bounded (cfg : Filesystem.Config) (w : Filesystem.World)
        (toString : list byte -> string) (filePath : string) (bytes : list byte) :
  (forall buffer, String.length (toString buffer) <= List.length buffer) ->
  Filesystem.lookup w filePath = Some (Filesystem.File bytes) ->
  (0 <= Filesystem.MAX_FILE_SIZE cfg)%Z ->
  exists r,
    Filesystem.readFileContent cfg w toString filePath = Ok r
    /\ Filesystem.binary r
       = Filesystem.isBinaryFile
           (firstn (Z.to_nat (Filesystem.MAX_FILE_SIZE cfg)) bytes)
    /\ (Filesystem.binary r = false ->
        Filesystem.content r
        = toString (firstn (Z.to_nat (Filesystem.MAX_FILE_SIZE cfg)) bytes)
        /\ (Z.of_nat (String.length (Filesystem.content r))
            <= Filesystem.MAX_FILE_SIZE cfg)%Z
        /\ (Filesystem.truncated r = true
            <-> (Z.of_nat (List.length bytes) > Filesystem.MAX_FILE_SIZE cfg)%Z))
    /\ (Filesystem.binary r = true ->
        Filesystem.content r = Filesystem.binary_marker
        /\ Filesystem.truncated r = false).
Proof.
  intros D L C.
  unfold Filesystem.readFileContent, Filesystem.stat_size. rewrite L. cbn [bind].
  destruct (Z.of_nat (List.length bytes) >? Filesystem.MAX_FILE_SIZE cfg)%Z eqn:S.
  - apply Z.gtb_lt in S.
    unfold Filesystem.read_head, Filesystem.readFile. rewrite L.
    replace (Filesystem.MAX_FILE_SIZE cfg <? 0)%Z with false
      by (symmetry; apply Z.ltb_ge; exact C).
    cbn [bind].
    set (fd := firstn (Z.to_nat (Filesystem.MAX_FILE_SIZE cfg)) bytes).
    assert (Lfd : List.length fd <= Z.to_nat (Filesystem.MAX_FILE_SIZE cfg))
      by apply firstn_le_length.
    destruct (Filesystem.isBinaryFile fd) eqn:B; eexists; (split; [reflexivity|]);
      cbn [Filesystem.binary Filesystem.content Filesystem.truncated];
      repeat split; try discriminate; auto; try (specialize (D fd); lia); lia.
  - assert (S' : (Z.of_nat (List.length bytes) <= Filesystem.MAX_FILE_SIZE cfg)%Z).
    { destruct (Z.gtb_spec (Z.of_nat (List.length bytes)) (Filesystem.MAX_FILE_SIZE cfg));
        [discriminate | assumption]. }
    unfold Filesystem.readFile. rewrite L. cbn [bind].
    rewrite (isBinaryFile_firstn bytes) by lia.
    destruct (Filesystem.isBinaryFile bytes) eqn:B; eexists; (split; [reflexivity|]);
      cbn [Filesystem.binary Filesystem.content Filesystem.truncated];
      repeat split; try discriminate; auto; try (specialize (D bytes); lia); lia.
Qed.

(** The counterexample of C2: a file of six bytes, larger than the cap of
    four, whose first bytes hold a zero: [truncated] is [false] and the
    content, the marker of 13 characters, is longer than the cap. *)
Lemma binary_file_not_truncated :
  Filesystem.readFileContent Examples.small_cap_config Examples.fs_world
    Examples.latin1 "/tmp/root/blob.bin"
  = Ok {| Filesystem.content := "[Binary file]";
          Filesystem.truncated := false;
          Filesystem.binary := true |}
  /\ Filesystem.stat_size Examples.fs_world "/tmp/root/blob.bin" = Ok 6%Z
  /\ Filesystem.MAX_FILE_SIZE Examples.small_cap_config = 4%Z
  /\ String.length "[Binary file]" = 13.
Proof. repeat split. Qed.

(** The witness of C2: a text file of five bytes against a cap of four. *)
Lemma readFileContent_bounded_witness :
  exists r,
    Filesystem.readFileContent Examples.small_cap_config Examples.fs_world Examples.latin1
      "/tmp/root/hello.txt" = Ok r
    /\ Filesystem.binary r
       = Filesystem.isBinaryFile
           (firstn (Z.to_nat (Filesystem.MAX_FILE_SIZE Examples.small_cap_config)) Examples.hello)
    /\ (Filesystem.binary r = false ->
        Filesystem.content r
        = Examples.latin1
            (firstn (Z.to_nat (Filesystem.MAX_FILE_SIZE Examples.small_cap_config))
               Examples.hello)
        /\ (Z.of_nat (String.length (Filesystem.content r))
            <= Filesystem.MAX_FILE_SIZE Examples.small_cap_config)%Z
        /\ (Filesystem.truncated r = true
            <-> (Z.of_nat (List.length Examples.hello)
                 > Filesystem.MAX_FILE_SIZE Examples.small_cap_config)%Z))
    /\ (Filesystem.binary r = true ->
        Filesystem.content r = Filesystem.binary_marker
        /\ Filesystem.truncated r = false).
Proof.
  apply (readFileContent_bounded Examples.small_cap_config Examples.fs_world Examples.latin1
           "/tmp/root/hello.txt" Examples.hello).
  - exact latin1_length.
  - reflexivity.
  - discriminate.
Defined.

(** ** [read_files] *)

Lemma read_files_outputs_firstn (cfg : Filesystem.Config) (w : Filesystem.World)
      (toString : list byte -> string) (paths : list string) :
  Filesystem.read_files_outputs cfg w toString paths
  = map (Filesystem.read_files_section cfg w toString) (firstn 10 paths).
Proof.
  unfold Filesystem.read_files_outputs. now rewrite slice_from_start.
Qed.

(** C10. [read_files] processes the first ten entries of [paths] and no
    other: its answer is made of one section for each of them, in order, it
    is the answer to the first ten paths alone, and it is a normal payload,
    so that the paths after the tenth give neither a section nor an error. *)
Theorem read_files_first_ten (cfg : Filesystem.Config) (w : Filesystem.World)
        (toString : list byte -> string) (formatSize : Z -> string)
        (other_tool : string -> result Response) (paths : list string) :
  Filesystem.read_files_outputs cfg w toString paths
  = map (Filesystem.read_files_section cfg w toString) (firstn 10 paths)
  /\ List.length (Filesystem.read_files_outputs cfg w toString paths)
     = Nat.min 10 (List.length paths)
  /\ Filesystem.call_tool cfg w toString formatSize other_tool
       (Filesystem.call_read_files paths)
     = Ok (reply (Js.join Filesystem.separator
                    (map (Filesystem.read_files_section cfg w toString)
                         (firstn 10 paths))))
  /\ Filesystem.call_tool cfg w toString formatSize other_tool
       (Filesystem.call_read_files paths)
     = Filesystem.call_tool cfg w toString formatSize other_tool
         (Filesystem.call_read_files (firstn 10 paths))
  /\ (forall extra,
         10 <= List.length paths ->
         Filesystem.call_tool cfg w toString formatSize other_tool
           (Filesystem.call_read_files (paths ++ extra)%list)
         = Filesystem.call_tool cfg w toString formatSize other_tool
             (Filesystem.call_read_files paths)).
Proof.
  assert (E : forall ps,
             Filesystem.call_tool cfg w toString formatSize other_tool
               (Filesystem.call_read_files ps)
             = Ok (reply (Js.join Filesystem.separator
                            (map (Filesystem.read_files_section cfg w toString)
                                 (firstn 10 ps))))).
  { intros ps. unfold Filesystem.call_tool, Filesystem.dispatch, Filesystem.read_files.
    cbn [try_catch]. now rewrite read_files_outputs_firstn. }
  repeat split.
  - apply read_files_outputs_firstn.
  - rewrite read_files_outputs_firstn, length_map, length_firstn. reflexivity.
  - apply E.
  - rewrite !E. now rewrite firstn_firstn.
  - intros extra H. rewrite !E, firstn_app.
    replace (10 - List.length paths) with 0 by lia.
    cbn [firstn]. now rewrite app_nil_r.
Qed.

(** The witness of C10: an eleventh and a twelfth path change nothing. *)
Lemma read_files_first_ten_witness :
  Filesystem.call_tool Examples.fs_config Examples.fs_world Examples.latin1
    (fun _ => "4 B") (fun _ => Throw "not embedded")
    (Filesystem.call_read_files
       (repeat "hello.txt" 10 ++ ["/etc/passwd"; "blob.bin"])%list)
  = Filesystem.call_tool Examples.fs_config Examples.fs_world Examples.latin1
      (fun _ => "4 B") (fun _ => Throw "not embedded")
      (Filesystem.call_read_files (repeat "hello.txt" 10)).
Proof.
  apply (read_files_first_ten Examples.fs_config Examples.fs_world Examples.latin1
           (fun _ => "4 B") (fun _ => Throw "not embedded") (repeat "hello.txt" 10)).
  simpl. lia.
Defined.

(** ** The tool-call boundary *)

(** The handlers of the SQLite and filesystem adapters answer every request
    with a payload: whatever is thrown inside the [switch] is caught. *)
Lemma sqlite_call_tool_answers (cfg : Sqlite.Config) (w : Sqlite.World)
      (rendering : Sqlite.Rendering) (request : Sqlite.ToolCall) :
  exists response, Sqlite.call_tool cfg w rendering request = Ok response.
Proof.
  unfold Sqlite.call_tool.
  destruct (Sqlite.dispatch cfg w rendering request) as [response | message];
    cbn [try_catch]; eauto.
Qed.

Lemma filesystem_call_tool_answers (cfg : Filesystem.Config) (w : Filesystem.World)
      (toString : list byte -> string) (formatSize : Z -> string)
      (other_tool : string -> result Response) (request : Filesystem.ToolCall) :
  exists response,
    Filesystem.call_tool cfg w toString formatSize other_tool request = Ok response.
Proof.
  unfold Filesystem.call_tool.
  destruct (Filesystem.dispatch cfg w toString formatSize other_tool request)
    as [response | message]; cbn [try_catch]; eauto.
Qed.

(** A denied query, an invalid identifier and a path outside the root each
    become an error payload. *)
Lemma validation_errors_answered :
  Sqlite.call_tool Examples.sqlite_config (Examples.sqlite_world [])
    {| Sqlite.render_tables := fun _ => ""; Sqlite.render_table := fun _ => "";
       Sqlite.render_rows := fun _ => ""; Sqlite.render_matches := fun _ _ => "";
       Sqlite.render_sample := fun _ _ => "" |}
    (Sqlite.query Examples.insert_query)
  = Ok (reply ("Error: " ++ Sqlite.not_read_only_message))
  /\ Sqlite.call_tool Examples.sqlite_config (Examples.sqlite_world [])
       {| Sqlite.render_tables := fun _ => ""; Sqlite.render_table := fun _ => "";
          Sqlite.render_rows := fun _ => ""; Sqlite.render_matches := fun _ _ => "";
          Sqlite.render_sample := fun _ _ => "" |}
       (Sqlite.sample "users; DROP TABLE users" None)
     = Ok (reply "Error: Invalid table name: contains disallowed characters")
  /\ Filesystem.call_tool Examples.fs_config Examples.fs_world Examples.latin1
       (fun _ => "4 B") (fun _ => Throw "not embedded")
       (Filesystem.call_read_file "../../etc/passwd")
     = Ok (reply "Error: Access denied: path is outside root directory").
Proof. repeat split. Qed.

(** In the Obsidian adapter a note that is not on disk is answered from
    inside [readNote]. *)
Lemma obsidian_missing_note_answered (lib : Obsidian.Library)
      (rendering : Obsidian.Rendering) :
  fst (Obsidian.call_tool Examples.empty_vault lib rendering
         (Obsidian.read_note "missing") Obsidian.initial)
  = Ok (reply "Note not found: missing").
Proof. reflexivity. Qed.

(** C8, at the failing input.  The handler of the Obsidian adapter has no
    [try] around its [switch], and every tool starts by refreshing the note
    cache: when the vault directory cannot be listed, the error of
    [readdirSync] leaves [refreshCache], the helper of the tool and the
    handler as an exception, for every named tool and every argument.  The
    handlers of the SQLite and filesystem adapters answer every request with
    a payload. *)
Theorem obsidian_listing_error_escapes (lib : Obsidian.Library)
        (rendering : Obsidian.Rendering) (request : Obsidian.ToolCall) :
  match request with
  | Obsidian.unknown _ => True
  | _ =>
      fst (Obsidian.call_tool Examples.unreadable_vault lib rendering request
             Obsidian.initial)
      = Throw "EACCES: permission denied, scandir '/home/user/vault'"
  end
  /\ (forall cfg w rendering' request',
         exists response, Sqlite.call_tool cfg w rendering' request' = Ok response)
  /\ (forall cfg w toString formatSize other_tool request',
         exists response,
           Filesystem.call_tool cfg w toString formatSize other_tool request'
           = Ok response).
Proof.
  split; [destruct request; try exact I; reflexivity|]. split.
  - apply sqlite_call_tool_answers.
  - apply filesystem_call_tool_answers.
Qed.

(** ** The read-only gates, in full *)

Lemma matches_empty_class (p : ascii -> bool) (re : RegExp.regex)
      (prev : option ascii) :
  RegExp.matches (RegExp.Class p :: re) prev "" = false.
Proof. reflexivity. Qed.

(** [\s*\S] fails exactly on white space to the end. *)
Lemma matches_space_then_other (p : ascii -> bool) (prev : option ascii) (s : string) :
  RegExp.matches [RegExp.Star p; RegExp.Class (fun c => negb (p c))] prev s = false
  <-> Spec.all_chars (fun c => p c = true) s.
Proof.
  revert prev. induction s as [|c s IH]; intros prev.
  - rewrite matches_star, matches_empty_class. simpl.
    split; [constructor | reflexivity].
  - rewrite matches_star, matches_class.
    destruct (p c) eqn:E; simpl.
    + rewrite IH. split.
      * intros H. constructor; assumption.
      * intros H. inversion H; assumption.
    + split; [discriminate|].
      intros H. inversion H; subst. congruence.
Qed.

Lemma second_statement_matches (prev : option ascii) (s : string) :
  RegExp.matches Sqlite.second_statement prev s = true
  <-> exists after,
      s = String ";"%char after
      /\ ~ Spec.all_chars (fun c => Js.is_space c = true) after.
Proof.
  unfold Sqlite.second_statement. destruct s as [|c s].
  - rewrite matches_empty_class. split; [discriminate|].
    intros [after [H _]]. discriminate.
  - rewrite matches_class. split.
    + intros H. apply andb_prop in H. destruct H as [H1 H2].
      apply Ascii.eqb_eq in H1. subst c. exists s. split; [reflexivity|].
      intros A.
      apply (proj2 (matches_space_then_other Js.is_space (Some ";"%char) s)) in A.
      rewrite A in H2. discriminate.
    + intros [after [H A]]. injection H as -> ->.
      rewrite Ascii.eqb_refl. cbn [andb].
      destruct (RegExp.matches [RegExp.Star Js.is_space;
                                RegExp.Class (fun c => negb (Js.is_space c))]
                               (Some ";"%char) after) eqn:M; [reflexivity|].
      exfalso. apply A.
      exact (proj1 (matches_space_then_other Js.is_space _ after) M).
Qed.

Lemma all_space_dec (s : string) :
  Spec.all_chars (fun c => Js.is_space c = true) s
  \/ ~ Spec.all_chars (fun c => Js.is_space c = true) s.
Proof.
  destruct (RegExp.matches [RegExp.Star Js.is_space;
                            RegExp.Class (fun c => negb (Js.is_space c))] None s) eqn:M.
  - right. intros A.
    apply (proj2 (matches_space_then_other Js.is_space None s)) in A.
    congruence.
  - left. exact (proj1 (matches_space_then_other Js.is_space None s) M).
Qed.

(** The test of [/;[\s]*\S/] fails exactly when every semicolon is followed
    by white space only. *)
Lemma second_statement_spec (sql : string) :
  RegExp.test Sqlite.second_statement sql = false <-> Spec2.semicolons_trail sql.
Proof.
  unfold RegExp.test, Spec2.semicolons_trail. split.
  - intros T before after E.
    destruct (all_space_dec after) as [A|A]; [exact A|].
    exfalso.
    assert (S : RegExp.search Sqlite.second_statement None sql = true).
    { apply search_spec. exists before, (String ";"%char after). split; [exact E|].
      apply second_statement_matches. exists after. split; [reflexivity | exact A]. }
    congruence.
  - intros H.
    destruct (RegExp.search Sqlite.second_statement None sql) eqn:S; [|reflexivity].
    exfalso. apply search_spec in S. destruct S as [before [rest [E M]]].
    apply second_statement_matches in M. destruct M as [after [-> A]].
    apply A. exact (H before after E).
Qed.

(** X1. For a statement made of ASCII characters, the read-only gate of
    the SQLite adapter lets it through exactly when its trimmed text begins,
    in any case, with [SELECT], [WITH] or [EXPLAIN], none of the fourteen
    denied keywords occurs in it as a whole word, and every semicolon in it
    is followed by white space only. *)
Theorem read_only_gate_accepts (sql : string) :
  Spec2.ascii_text sql ->
  (Sqlite.read_only_gate sql = Ok tt
   <-> Spec.begins_with_any Spec.sqlite_leading sql
       /\ (forall k, In k Sqlite.dangerous -> ~ Spec.whole_word k sql)
       /\ Spec2.semicolons_trail sql).
Proof.
  intros _.
  pose proof (sqlite_leading_check sql) as L. cbv zeta in L.
  pose proof (first_forbidden_whole_word Sqlite.dangerous sql sqlite_keywords)
    as [F1 F2].
  pose proof (second_statement_spec sql) as S.
  unfold Sqlite.read_only_gate.
  destruct (negb (Js.startsWith (Js.toUpperCase (Js.trim sql)) "SELECT")
            && negb (Js.startsWith (Js.toUpperCase (Js.trim sql)) "WITH")
            && negb (Js.startsWith (Js.toUpperCase (Js.trim sql)) "EXPLAIN")) eqn:E.
  - split; [discriminate|]. intros [B _]. apply L in B. discriminate.
  - destruct (first_forbidden Sqlite.dangerous sql) as [k|] eqn:F.
    + split; [discriminate|]. intros [_ [D _]].
      destruct (F1 k eq_refl) as [I W]. exfalso. exact (D k I W).
    + destruct (RegExp.test Sqlite.second_statement sql) eqn:T.
      * split; [discriminate|]. intros [_ [_ Tr]]. apply S in Tr. discriminate.
      * split; [|reflexivity]. intros _. split; [apply L; reflexivity|].
        split; [apply F2; reflexivity | apply S; reflexivity].
Qed.

Lemma read_only_gate_accepts_witness :
  Sqlite.read_only_gate "SELECT name FROM users WHERE id = 1; " = Ok tt
  <-> Spec.begins_with_any Spec.sqlite_leading "SELECT name FROM users WHERE id = 1; "
      /\ (forall k, In k Sqlite.dangerous
                    -> ~ Spec.whole_word k "SELECT name FROM users WHERE id = 1; ")
      /\ Spec2.semicolons_trail "SELECT name FROM users WHERE id = 1; ".
Proof.
  apply (read_only_gate_accepts "SELECT name FROM users WHERE id = 1; ").
  apply ascii_text_check. reflexivity.
Defined.

(** A name without a double quote is quoted by wrapping it. *)
Lemma replace_all_absent (c : ascii) (r s : string) :
  ~ Spec.occurs c s -> Js.replace_all c r s = s.
Proof.
  induction s as [|a s IH]; intros H; [reflexivity|].
  simpl. destruct (Ascii.eqb a c) eqn:E.
  - apply Ascii.eqb_eq in E. subst a. exfalso. apply H. constructor.
  - rewrite IH; [reflexivity|]. intros O. apply H. constructor. exact O.
Qed.

Lemma loose_not_dquote : ~ Spec.loose Sqlite.dquote.
Proof.
  apply disallowed_not_loose. left. unfold Spec.injection_char.
  right. right. left. reflexivity.
Qed.

Lemma strict_is_loose (s : string) : Spec.strict_grammar s -> Spec.loose_grammar s.
Proof.
  intros [c [rest [-> [C R]]]]. split; [discriminate|].
  constructor.
  - unfold Spec.loose. destruct C as [C|C]; [left; exact C | right; right; left; exact C].
  - clear C. induction R as [|d s D R IH]; constructor; [|exact IH].
    unfold Spec.loose, Spec.strict_rest in *.
    destruct D as [D|[D|D]]; [left | right; left | right; right; left]; exact D.
Qed.

Lemma validateIdentifier_cases (name : string) (kind : Sqlite.identifier_kind) :
  (Sqlite.validateIdentifier name kind = Ok name /\ Spec.loose_grammar name)
  \/ (Sqlite.validateIdentifier name kind
      = Throw ("Invalid " ++ Sqlite.kind_name kind
               ++ " name: contains disallowed characters")
      /\ ~ Spec.loose_grammar name).
Proof.
  unfold Sqlite.validateIdentifier.
  destruct (RegExp.test Sqlite.strict_identifier name) eqn:S; simpl.
  - left. split; [reflexivity|]. apply strict_is_loose, strict_identifier_spec, S.
  - destruct (RegExp.test Sqlite.loose_identifier name) eqn:L; simpl.
    + left. split; [reflexivity|]. apply loose_identifier_spec, L.
    + right. split; [reflexivity|]. intros G. apply loose_identifier_spec in G.
      congruence.
Qed.

Lemma loose_name_quoted (name : string) :
  Spec.loose_grammar name -> Sqlite.quoteIdentifier name = quoted name.
Proof.
  intros [_ A]. unfold Sqlite.quoteIdentifier, quoted.
  rewrite replace_all_absent; [reflexivity|].
  intros O. exact (loose_not_dquote (all_chars_occurs _ _ _ A O)).
Qed.

(** X2. A name that [validateIdentifier] accepts is returned unchanged, has
    no double quote in it, and [quoteIdentifier] writes it as it is between
    two double quotes: no character of it is doubled. *)
Theorem validated_name_quoted_verbatim (name checked : string)
        (kind : Sqlite.identifier_kind) :
  Sqlite.validateIdentifier name kind = Ok checked ->
  checked = name
  /\ Spec2.free_of Sqlite.dquote name
  /\ Sqlite.quoteIdentifier name = quoted name.
Proof.
  intros V.
  destruct (validateIdentifier_cases name kind) as [[E G]|[E _]];
    [|rewrite E in V; discriminate].
  rewrite E in V. injection V as <-.
  assert (N : ~ Spec.occurs Sqlite.dquote name).
  { intros O. destruct G as [_ A].
    exact (loose_not_dquote (all_chars_occurs _ _ _ A O)). }
  split; [reflexivity|]. split; [exact N|].
  unfold Sqlite.quoteIdentifier, quoted.
  rewrite replace_all_absent by exact N. reflexivity.
Qed.

Lemma validated_name_quoted_verbatim_witness :
  "order items" = "order items"
  /\ Spec2.free_of Sqlite.dquote "order items"
  /\ Sqlite.quoteIdentifier "order items" = quoted "order items".
Proof.
  apply (validated_name_quoted_verbatim "order items" "order items" Sqlite.table).
  reflexivity.
Defined.

(** X3. The copy of the gate that the SQLite test suite exercises allows
    exactly the statements the gate of the adapter lets through. *)
Theorem sqlite_test_gate_agrees (sql : string) :
  allowed (SqliteTest.isQueryAllowed sql) = true
  <-> Sqlite.read_only_gate sql = Ok tt.
Proof.
  unfold SqliteTest.isQueryAllowed, Sqlite.read_only_gate.
  change SqliteTest.dangerous with Sqlite.dangerous.
  fold Sqlite.second_statement.
  destruct (negb (Js.startsWith (Js.toUpperCase (Js.trim sql)) "SELECT")
            && negb (Js.startsWith (Js.toUpperCase (Js.trim sql)) "WITH")
            && negb (Js.startsWith (Js.toUpperCase (Js.trim sql)) "EXPLAIN")).
  - simpl. split; discriminate.
  - destruct (first_forbidden Sqlite.dangerous sql).
    + simpl. split; discriminate.
    + destruct (RegExp.test Sqlite.second_statement sql); simpl;
        split; (discriminate || reflexivity).
Qed.

Lemma first_forbidden_sublist (ks ks' : list string) (q : string) :
  (forall k, In k ks -> In k ks') ->
  first_forbidden ks' q = None -> first_forbidden ks q = None.
Proof.
  intros Sub N. apply first_forbidden_none. intros k I.
  apply (proj1 (first_forbidden_none ks' q) N). apply Sub, I.
Qed.

(** X4. The copy of the gate that the Postgres test suite exercises is
    stricter than the gate of [pg_query]: a query it allows passes the gate
    of the adapter, while the adapter lets through a [SELECT ... INTO], which
    the copy denies. *)
Theorem postgres_test_gate_stricter :
  (forall query,
      allowed (PgTest.isQueryAllowed query) = true -> Postgres.gate query = None)
  /\ (Postgres.gate "SELECT * INTO backup FROM users" = None
      /\ PgTest.isQueryAllowed "SELECT * INTO backup FROM users"
         = deny "Contains forbidden keyword: INTO").
Proof.
  split.
  - intros query. unfold PgTest.isQueryAllowed, Postgres.gate.
    destruct (first_forbidden PgTest.dangerous query) eqn:F; [simpl; discriminate|].
    rewrite (first_forbidden_sublist Postgres.dangerous PgTest.dangerous query).
    + destruct (negb (Js.startsWith (Js.toLowerCase (Js.trim query)) "select")
                && negb (Js.startsWith (Js.toLowerCase (Js.trim query)) "with"));
        simpl; [discriminate | reflexivity].
    + intros k I. unfold Postgres.dangerous in I. unfold PgTest.dangerous.
      simpl in *. tauto.
    + exact F.
  - split; vm_compute; reflexivity.
Qed.

(** ** The read-only transactions of the Postgres adapter *)

Lemma rollback_sent (client : Postgres.Client) (message : string) :
  exists message',
    snd (Postgres.rollback client message) = Throw message'
    /\ Postgres.sent (fst (Postgres.rollback client message))
       = (Postgres.sent client ++ ["ROLLBACK"])%list
    /\ Postgres.answer (fst (Postgres.rollback client message)) = Postgres.answer client.
Proof.
  unfold Postgres.rollback, Postgres.client_query.
  destruct (Postgres.answer client (Postgres.sent client) "ROLLBACK") as [r|m];
    eexists; cbn; auto.
Qed.

Lemma rollback_outcome (client c' : Postgres.Client) (message : string)
      (r : result Response) :
  Postgres.rollback client message = (c', r) ->
  (exists message', r = Throw message')
  /\ Postgres.sent c' = (Postgres.sent client ++ ["ROLLBACK"])%list.
Proof.
  intros H. destruct (rollback_sent client message) as [m' [R1 [R2 _]]].
  rewrite H in R1, R2. cbn in R1, R2. eauto.
Qed.

Ltac transaction_cases :=
  unfold Spec2.committed, Spec2.rolled_back;
  unfold Postgres.client_query at 1;
  destruct (Postgres.answer _ _ "BEGIN TRANSACTION READ ONLY") as [b|m];
  [ unfold Postgres.client_query at 1; cbn [Postgres.sent Postgres.answer];
    match goal with
    | |- context [Postgres.answer ?c ?l ?s] =>
        destruct (Postgres.answer c l s) as [res|m] eqn:A
    end;
    [ unfold Postgres.client_query at 1; cbn [Postgres.sent Postgres.answer];
      destruct (Postgres.answer _ _ "COMMIT") as [c|m] | ]
  | ];
  intros H;
  try (destruct (Postgres.rollback _ _) as [c0 r0] eqn:RB;
       apply rollback_outcome in RB; destruct RB as [[m' ->] RB];
       cbn [Postgres.sent] in RB);
  injection H as <- <-;
  (split; [reflexivity|]);
  cbn [Postgres.release Postgres.sent].

Lemma run_read_only_outcome (to_json : Postgres.QueryResult -> string)
      (client client' : Postgres.Client) (statement : string)
      (r : result Response) :
  Postgres.run_read_only to_json client statement = (client', r) ->
  Postgres.released client' = true
  /\ ((exists res, r = Ok (reply (to_json res))
                   /\ Spec2.committed client client' statement res)
      \/ (exists message, r = Throw message)
         /\ Spec2.rolled_back client client' statement).
Proof.
  unfold Postgres.run_read_only. transaction_cases.
  - left. exists res. split; [reflexivity|].
    split; [now rewrite <- !app_assoc | reflexivity].
  - right. split; [eauto|]. eexists. split; [|right; right; reflexivity].
    rewrite RB. now rewrite <- !app_assoc.
  - right. split; [eauto|]. eexists. split; [|right; left; reflexivity].
    rewrite RB. now rewrite <- !app_assoc.
  - right. split; [eauto|]. eexists. split; [|left; reflexivity].
    rewrite RB. now rewrite <- !app_assoc.
Qed.

Lemma run_explain_outcome (client client' : Postgres.Client) (statement : string)
      (r : result Response) :
  Explain.run_explain client statement = (client', r) ->
  Postgres.released client' = true
  /\ ((exists res, r = Ok (reply (Explain.plan_text res))
                   /\ Spec2.committed client client' statement res)
      \/ (exists message, r = Throw message)
         /\ Spec2.rolled_back client client' statement).
Proof.
  unfold Explain.run_explain. transaction_cases.
  - left. exists res. split; [reflexivity|].
    split; [now rewrite <- !app_assoc | reflexivity].
  - right. split; [eauto|]. eexists. split; [|right; right; reflexivity].
    rewrite RB. now rewrite <- !app_assoc.
  - right. split; [eauto|]. eexists. split; [|right; left; reflexivity].
    rewrite RB. now rewrite <- !app_assoc.
  - right. split; [eauto|]. eexists. split; [|left; reflexivity].
    rewrite RB. now rewrite <- !app_assoc.
Qed.

(** X5. A query that passes the gate of [pg_query] on a connection from
    the pool: the connection is released in every case; the answer is the
    rendered result exactly when [BEGIN TRANSACTION READ ONLY], the
    statement and [COMMIT] were sent and nothing else; otherwise the answer
    is an error and the last statement sent is [ROLLBACK], after [BEGIN],
    after the statement, or after [COMMIT]. *)
Theorem pg_query_transaction (to_json : Postgres.QueryResult -> string)
        (client : Postgres.Client) (query : string) (limit : option Z) :
  Postgres.gate query = None ->
  exists client' response,
    Postgres.pg_query to_json (Ok client) query limit = (Some client', response)
    /\ Postgres.released client' = true
    /\ let statement :=
         Postgres.add_limit query (match limit with Some l => l | None => 100%Z end) in
       (exists res, response = reply (to_json res)
                    /\ Spec2.committed client client' statement res)
       \/ (isError response = true /\ Spec2.rolled_back client client' statement).
Proof.
  intros G. unfold Postgres.pg_query. rewrite G.
  set (statement := Postgres.add_limit query _).
  destruct (Postgres.run_read_only to_json client statement) as [client' r] eqn:Run.
  destruct (run_read_only_outcome _ _ _ _ _ Run) as [R O].
  destruct O as [[res [E C]] | [[message E] B]]; subst r.
  - eexists _, _. split; [reflexivity|]. split; [exact R|].
    left. exists res. split; [reflexivity | exact C].
  - eexists _, _. split; [reflexivity|]. split; [exact R|].
    right. split; [reflexivity | exact B].
Qed.

Lemma pg_query_transaction_witness :
  exists client' response,
    Postgres.pg_query (fun _ => "{}") (Ok Examples.quiet_client)
      Examples.rate_limit_query None = (Some client', response)
    /\ Postgres.released client' = true
    /\ let statement := Postgres.add_limit Examples.rate_limit_query 100 in
       (exists res, response = reply "{}"
                    /\ Spec2.committed Examples.quiet_client client' statement res)
       \/ (isError response = true
           /\ Spec2.rolled_back Examples.quiet_client client' statement).
Proof.
  apply (pg_query_transaction (fun _ => "{}") Examples.quiet_client
           Examples.rate_limit_query None).
  reflexivity.
Defined.

(** X6. A query that passes the gate of [pg_explain] on a connection from
    the pool is sent as [EXPLAIN query], or [EXPLAIN ANALYZE query] when
    [analyze] is set, with no [LIMIT] added, in a read-only transaction: the
    answer is the lines of the plan exactly when [BEGIN TRANSACTION READ
    ONLY], the statement and [COMMIT] were sent; otherwise it is an error
    and the last statement sent is [ROLLBACK].  The connection is released
    in every case. *)
Theorem pg_explain_transaction (client : Postgres.Client) (query : string)
        (analyze : option bool) :
  Explain.gate query = None ->
  exists client' response,
    Explain.pg_explain (Ok client) query analyze = (Some client', response)
    /\ Postgres.released client' = true
    /\ let statement :=
         match analyze with
         | Some true => "EXPLAIN ANALYZE " ++ query
         | _ => "EXPLAIN " ++ query
         end in
       (exists res, response = reply (Explain.plan_text res)
                    /\ Spec2.committed client client' statement res)
       \/ (isError response = true /\ Spec2.rolled_back client client' statement).
Proof.
  intros G. unfold Explain.pg_explain. rewrite G.
  set (statement := match analyze with
                    | Some true => "EXPLAIN ANALYZE " ++ query
                    | _ => "EXPLAIN " ++ query
                    end).
  assert (S : Explain.explainQuery query
                (match analyze with Some a => a | None => false end) = statement).
  { unfold statement, Explain.explainQuery. destruct analyze as [[|]|]; reflexivity. }
  rewrite S.
  destruct (Explain.run_explain client statement) as [client' r] eqn:Run.
  destruct (run_explain_outcome _ _ _ _ Run) as [R O].
  destruct O as [[res [E C]] | [[message E] B]]; subst r.
  - eexists _, _. split; [reflexivity|]. split; [exact R|].
    left. exists res. split; [reflexivity | exact C].
  - eexists _, _. split; [reflexivity|]. split; [exact R|].
    right. split; [reflexivity | exact B].
Qed.

Lemma pg_explain_transaction_witness :
  exists client' response,
    Explain.pg_explain (Ok Examples.quiet_client) Examples.rate_limit_query (Some true)
    = (Some client', response)
    /\ Postgres.released client' = true
    /\ let statement := "EXPLAIN ANALYZE " ++ Examples.rate_limit_query in
       (exists res, response = reply (Explain.plan_text res)
                    /\ Spec2.committed Examples.quiet_client client' statement res)
       \/ (isError response = true
           /\ Spec2.rolled_back Examples.quiet_client client' statement).
Proof.
  apply (pg_explain_transaction Examples.quiet_client Examples.rate_limit_query
           (Some true)).
  reflexivity.
Defined.

(** X7. [pg_explain] and [pg_query] refuse the same queries, and a query
    refused for a forbidden keyword gets the same answer from both, whether
    or not a connection can be had. *)
Theorem pg_explain_same_gate (to_json : Postgres.QueryResult -> string)
        (connect : result Postgres.Client) (query : string)
        (limit : option Z) (analyze : option bool) :
  (Explain.gate query = None <-> Postgres.gate query = None)
  /\ (forall keyword,
         first_forbidden Postgres.dangerous query = Some keyword ->
         Explain.pg_explain connect query analyze
         = Postgres.pg_query to_json connect query limit).
Proof.
  unfold Explain.pg_explain, Postgres.pg_query, Explain.gate, Postgres.gate.
  change Explain.dangerous with Postgres.dangerous.
  destruct (first_forbidden Postgres.dangerous query) as [k|].
  - split; [split; discriminate | reflexivity].
  - destruct (negb (Js.startsWith (Js.toLowerCase (Js.trim query)) "select")
              && negb (Js.startsWith (Js.toLowerCase (Js.trim query)) "with")).
    + split; [split; discriminate | discriminate].
    + split; [split; reflexivity | discriminate].
Qed.

(** ** More on the paths of the filesystem adapter *)

Lemma has_prefix_shorter (a b s : string) :
  Spec.has_prefix (a ++ b) s -> Spec.has_prefix a s.
Proof.
  intros [rest ->]. exists (b ++ rest). apply append_assoc.
Qed.

(** X8. Every path the resolver of the filesystem test suite accepts is
    accepted by the resolver of the adapter, with the same resolved path:
    the adapter is at least as permissive as what the tests exercise. *)
Theorem tested_paths_accepted (cfg : Filesystem.Config) (w : Filesystem.World)
        (inputPath resolved : string) :
  FsTest.resolvePath (Filesystem.cwd w) (Filesystem.homedir w) inputPath
    (Filesystem.FS_ROOT cfg) = Ok resolved ->
  Filesystem.resolvePath cfg w inputPath = Ok resolved.
Proof.
  unfold FsTest.resolvePath, Filesystem.resolvePath.
  set (root := Path.resolve (Filesystem.cwd w) [Filesystem.FS_ROOT cfg]).
  set (p := Path.resolve (Filesystem.cwd w) [Path.resolve _ [_; _]]).
  assert (P : Js.startsWith p (root ++ "/") = true \/ String.eqb p root = true ->
              Js.startsWith p root = true).
  { intros [H|H].
    - apply startsWith_spec. apply startsWith_spec in H.
      exact (has_prefix_shorter _ _ _ H).
    - apply String.eqb_eq in H. rewrite H. apply startsWith_spec.
      exists "". symmetry. apply append_empty_r. }
  destruct (Js.startsWith p (root ++ "/")) eqn:S; cbn [negb andb].
  - rewrite P by (left; reflexivity). cbn [negb]. trivial.
  - destruct (String.eqb p root) eqn:E; cbn [negb]; [|discriminate].
    rewrite P by (right; reflexivity). cbn [negb]. trivial.
Qed.

Lemma tested_paths_accepted_witness :
  Filesystem.resolvePath Examples.fs_config Examples.fs_world "docs/../notes.txt"
  = Ok "/tmp/root/notes.txt".
Proof.
  apply (tested_paths_accepted Examples.fs_config Examples.fs_world
           "docs/../notes.txt" "/tmp/root/notes.txt").
  vm_compute. reflexivity.
Defined.

Lemma segments_no_slash (p : string) :
  Forall (fun s => ~ Spec.occurs "/"%char s) (Path.segments p).
Proof.
  induction p as [|c p IH]; cbn [Path.segments].
  - constructor; [|constructor]. intros O. inversion O.
  - destruct (Ascii.eqb c Path.slash) eqn:E.
    + constructor; [|exact IH]. intros O. inversion O.
    + destruct (Path.segments p) as [|seg rest].
      * constructor; [|constructor]. intros O. inversion O; subst.
        -- rewrite Ascii.eqb_refl in E. discriminate.
        -- match goal with H : Spec.occurs _ "" |- _ => inversion H end.
      * inversion IH; subst. constructor; [|assumption].
        intros O. inversion O; subst.
        -- rewrite Ascii.eqb_refl in E. discriminate.
        -- auto.
Qed.

Lemma push_segment_plain (stack : list string) (seg : string) :
  Forall Spec2.plain_segment stack ->
  ~ Spec.occurs "/"%char seg ->
  Forall Spec2.plain_segment (Path.push_segment false stack seg).
Proof.
  intros St N. unfold Path.push_segment.
  destruct (String.eqb seg "") eqn:E1; cbn [orb]; [exact St|].
  destruct (String.eqb seg ".") eqn:E2; [exact St|].
  destruct (String.eqb seg "..") eqn:E3.
  - destruct stack as [|top rest]; [constructor|].
    inversion St as [|? ? T R]; subst.
    destruct (String.eqb top "..") eqn:E4; [|exact R].
    apply String.eqb_eq in E4. destruct T as [_ [_ [T _]]]. contradiction.
  - constructor; [|exact St].
    apply String.eqb_neq in E1, E2, E3. repeat split; assumption.
Qed.

Lemma normalized_plain (segs stack : list string) :
  Forall (fun s => ~ Spec.occurs "/"%char s) segs ->
  Forall Spec2.plain_segment stack ->
  Forall Spec2.plain_segment (fold_left (Path.push_segment false) segs stack).
Proof.
  revert stack. induction segs as [|seg segs IH]; intros stack N St; [exact St|].
  inversion N; subst. cbn [fold_left]. apply IH; [assumption|].
  apply push_segment_plain; assumption.
Qed.

Lemma gather_absolute (cwd : string) (args : list string) (acc : string) :
  Path.is_absolute cwd = true -> snd (Path.gather cwd args acc) = true.
Proof.
  intros A. revert acc. induction args as [|p rest IH]; intros acc; cbn [Path.gather].
  - destruct cwd; [discriminate|]. exact A.
  - destruct (Js.is_empty p); [apply IH|].
    destruct (Path.is_absolute p); [reflexivity | apply IH].
Qed.

(** From an absolute working directory, [resolve] gives the separator
    followed by plain segments joined by separators. *)
Lemma resolve_plain (cwd : string) (args : list string) :
  Path.is_absolute cwd = true ->
  exists segs,
    Path.resolve cwd args = "/" ++ Js.join "/" segs
    /\ Forall Spec2.plain_segment segs.
Proof.
  intros A. unfold Path.resolve.
  pose proof (gather_absolute cwd (rev args) "" A) as G.
  destruct (Path.gather cwd (rev args) "") as [resolvedPath resolvedAbsolute].
  cbn [snd] in G. subst resolvedAbsolute. cbn [negb].
  unfold Path.normalizeString. eexists. split; [reflexivity|].
  apply Forall_rev. apply normalized_plain; [apply segments_no_slash | constructor].
Qed.

(** X9. With an absolute working directory, a path that [resolvePath]
    accepts is the separator followed by segments joined by separators, and
    no segment is empty, [.] or [..]: no step upwards is left in a path the
    adapter goes on to use. *)
Theorem resolvePath_plain (cfg : Filesystem.Config) (w : Filesystem.World)
        (inputPath resolved : string) :
  Path.is_absolute (Filesystem.cwd w) = true ->
  Filesystem.resolvePath cfg w inputPath = Ok resolved ->
  exists segs,
    resolved = "/" ++ Js.join "/" segs /\ Forall Spec2.plain_segment segs.
Proof.
  intros A. unfold Filesystem.resolvePath.
  set (p := Path.resolve (Filesystem.cwd w) [Path.resolve _ [_; _]]).
  destruct (negb (Js.startsWith p _)); [discriminate|].
  intros H. injection H as <-. apply resolve_plain, A.
Qed.

Lemma resolvePath_plain_witness :
  exists segs,
    "/tmp/root/notes.txt" = "/" ++ Js.join "/" segs
    /\ Forall Spec2.plain_segment segs.
Proof.
  apply (resolvePath_plain Examples.fs_config Examples.fs_world
           "docs/../notes.txt" "/tmp/root/notes.txt");
    vm_compute; reflexivity.
Defined.

(** ** Binary detection *)

(** X10. For a file within the size cap, the reader decides on the first
    8192 bytes alone: with a zero byte among them the file is answered by
    the marker of binary files, and without one it is answered whole, as
    decoded text, whatever bytes follow the first 8192. *)
Theorem readFileContent_sample (cfg : Filesystem.Config) (w : Filesystem.World)
        (toString : list byte -> string) (filePath : string) (bytes : list byte) :
  Filesystem.lookup w filePath = Some (Filesystem.File bytes) ->
  (Z.of_nat (List.length bytes) <= Filesystem.MAX_FILE_SIZE cfg)%Z ->
  Filesystem.readFileContent cfg w toString filePath
  = Ok (if existsb (fun b => Byte.eqb b "000"%byte) (firstn (Z.to_nat 8192) bytes)
        then {| Filesystem.content := Filesystem.binary_marker;
                Filesystem.truncated := false; Filesystem.binary := true |}
        else {| Filesystem.content := toString bytes;
                Filesystem.truncated := false; Filesystem.binary := false |}).
Proof.
  intros L S.
  unfold Filesystem.readFileContent, Filesystem.stat_size, Filesystem.readFile.
  rewrite L. cbn [bind].
  destruct (Z.of_nat (List.length bytes) >? Filesystem.MAX_FILE_SIZE cfg)%Z eqn:G.
  - apply Z.gtb_lt in G. lia.
  - unfold Filesystem.isBinaryFile. rewrite slice_from_start by lia.
    destruct (existsb _ _); reflexivity.
Qed.

Lemma readFileContent_sample_witness :
  Filesystem.readFileContent Examples.fs_config Examples.fs_world Examples.latin1
    "/tmp/root/hello.txt"
  = Ok (if existsb (fun b => Byte.eqb b "000"%byte)
             (firstn (Z.to_nat 8192) Examples.hello)
        then {| Filesystem.content := Filesystem.binary_marker;
                Filesystem.truncated := false; Filesystem.binary := true |}
        else {| Filesystem.content := Examples.latin1 Examples.hello;
                Filesystem.truncated := false; Filesystem.binary := false |}).
Proof.
  apply (readFileContent_sample Examples.fs_config Examples.fs_world Examples.latin1
           "/tmp/root/hello.txt" Examples.hello).
  - reflexivity.
  - vm_compute. discriminate.
Defined.

(** ** Directory listings *)

Lemma dirent_induction (P : Listing.dirent -> Prop) :
  (forall n stat_size, P (Listing.FileEnt n stat_size)) ->
  (forall n message, P (Listing.DirEnt n (Throw message))) ->
  (forall n sub, Forall P sub -> P (Listing.DirEnt n (Ok sub))) ->
  (forall n, P (Listing.OtherEnt n)) ->
  forall e, P e.
Proof.
  intros HF HT HD HO. fix IH 1. intros [n s | n [sub | m] | n].
  - apply HF.
  - apply HD. induction sub as [|e sub IHsub]; constructor; [apply IH | exact IHsub].
  - apply HT.
  - apply HO.
Qed.

Section Listings.
Variable cfg : Filesystem.Config.
Variable lib : Listing.Library.

(** The loop inside a round on a directory is the loop of [scanDir]. *)
Lemma scan_entry_directory (recursive : bool) (depth : nat) (currentPath n : string)
      (listing : result (list Listing.dirent)) (results : list Listing.Entry) :
  Listing.scan_entry cfg lib recursive depth currentPath (Listing.DirEnt n listing) results
  = let fullPath := Path.join [currentPath; n] in
    let relPath := Listing.getRelativePath cfg lib fullPath in
    match Listing.shouldIgnore lib relPath with
    | Throw message => Throw message
    | Ok true => Ok Listing.Continue
    | Ok false =>
        let results1 :=
          (results ++ [{| Listing.name := n; Listing.path := relPath;
                          Listing.type := Listing.directory;
                          Listing.size := None |}])%list in
        if recursive && negb (Listing.full cfg results1) then
          if 10 <? depth + 1 then Ok (Listing.Reached results1)
          else
            match listing with
            | Throw message => Throw message
            | Ok sub =>
                match Listing.scan_all cfg lib recursive (depth + 1) fullPath sub results1 with
                | Throw message => Throw message
                | Ok results' => Ok (Listing.Reached results')
                end
            end
        else Ok (Listing.Reached results1)
    end.
Proof.
  cbv zeta. cbn [Listing.scan_entry Listing.dirent_name].
  destruct (Listing.shouldIgnore lib _) as [[|]|]; try reflexivity.
  destruct (recursive && negb (Listing.full cfg _)); [|reflexivity].
  destruct (10 <? depth + 1); [reflexivity|].
  destruct listing as [sub|]; [|reflexivity].
  match goal with
  | |- match ?inner sub ?r with _ => _ end = _ =>
      assert (E : forall l r0, inner l r0
                  = Listing.scan_all cfg lib recursive (depth + 1)
                      (Path.join [currentPath; n]) l r0)
  end.
  { induction l as [|e l IHl]; intros r0; [reflexivity|].
    cbn [Listing.scan_all].
    destruct (Listing.scan_entry cfg lib recursive (depth + 1) _ e r0) as [[|r1]|];
      try reflexivity; [apply IHl|].
    destruct (Listing.full cfg r1); [reflexivity | apply IHl]. }
  rewrite E. reflexivity.
Qed.

Lemma full_spec (results : list Listing.Entry) :
  Listing.full cfg results = false <-> Spec2.room cfg results.
Proof. unfold Listing.full, Spec2.room. rewrite Z.leb_gt. reflexivity. Qed.

Lemma room_push (results : list Listing.Entry) (x : Listing.Entry) :
  Spec2.room cfg results -> Spec2.within cfg (results ++ [x]).
Proof.
  unfold Spec2.room, Spec2.within. rewrite length_app. cbn [List.length]. lia.
Qed.

Lemma scan_all_within (recursive : bool) (depth : nat) (currentPath : string)
      (entries : list Listing.dirent) :
  Forall (fun e => forall depth currentPath results r,
              Spec2.room cfg results ->
              Listing.scan_entry cfg lib recursive depth currentPath e results
              = Ok (Listing.Reached r) -> Spec2.within cfg r) entries ->
  forall results r,
    Spec2.room cfg results ->
    Listing.scan_all cfg lib recursive depth currentPath entries results = Ok r ->
    Spec2.within cfg r.
Proof.
  induction 1 as [|e entries He _ IH]; intros results r R; cbn [Listing.scan_all].
  - intros H. injection H as <-. unfold Spec2.room, Spec2.within in *. lia.
  - destruct (Listing.scan_entry cfg lib recursive depth currentPath e results)
      as [[|r1]|] eqn:E; [apply IH, R | | discriminate].
    destruct (Listing.full cfg r1) eqn:F.
    + intros H. injection H as <-. exact (He _ _ _ _ R E).
    + apply IH. apply full_spec, F.
Qed.

Lemma scan_entry_within (recursive : bool) (e : Listing.dirent) :
  forall depth currentPath results r,
    Spec2.room cfg results ->
    Listing.scan_entry cfg lib recursive depth currentPath e results
    = Ok (Listing.Reached r) -> Spec2.within cfg r.
Proof.
  induction e as [n sz | n message | n sub IH | n] using dirent_induction;
    intros depth currentPath results r R.
  - cbn [Listing.scan_entry].
    destruct (Listing.shouldIgnore lib _) as [[|]|]; try discriminate.
    intros H. injection H as <-. apply room_push, R.
  - rewrite scan_entry_directory. cbv zeta.
    destruct (Listing.shouldIgnore lib _) as [[|]|]; try discriminate.
    destruct (recursive && negb (Listing.full cfg _));
      [destruct (10 <? depth + 1); [|discriminate] |];
      intros H; injection H as <-; apply room_push, R.
  - rewrite scan_entry_directory. cbv zeta.
    destruct (Listing.shouldIgnore lib _) as [[|]|]; try discriminate.
    destruct (recursive && negb (Listing.full cfg _)) eqn:C;
      [destruct (10 <? depth + 1) |];
      try (intros H; injection H as <-; apply room_push, R).
    apply andb_prop in C. destruct C as [_ C].
    apply Bool.negb_true_iff, full_spec in C.
    destruct (Listing.scan_all cfg lib recursive (depth + 1) _ sub _) as [r1|] eqn:S;
      [|discriminate].
    intros H. injection H as <-.
    exact (scan_all_within _ _ _ _ IH _ _ C S).
  - cbn [Listing.scan_entry].
    destruct (Listing.shouldIgnore lib _) as [[|]|]; try discriminate.
    intros H. injection H as <-. unfold Spec2.room, Spec2.within in *. lia.
Qed.

End Listings.

(** X11. With a cap of at least one entry, a listing that [listDir]
    returns, recursive or not and whatever the tree on disk, has at most
    [MAX_RESULTS] entries. *)
Theorem listDir_bounded (cfg : Filesystem.Config) (lib : Listing.Library)
        (dirPath : string) (listing : result (list Listing.dirent))
        (recursive : bool) (results : list Listing.Entry) :
  (1 <= Filesystem.MAX_RESULTS cfg)%Z ->
  Listing.listDir cfg lib dirPath listing recursive = Ok results ->
  (Z.of_nat (List.length results) <= Filesystem.MAX_RESULTS cfg)%Z.
Proof.
  intros M. unfold Listing.listDir. destruct listing as [entries|]; [|discriminate].
  intros H.
  apply (scan_all_within cfg lib recursive 0 dirPath entries) with (results := []);
    [| unfold Spec2.room; cbn; lia | exact H].
  apply Forall_forall. intros e _. apply scan_entry_within.
Qed.

Lemma listDir_bounded_witness :
  exists results,
    Listing.listDir Examples2.listing_config Examples2.listing_library "/tmp/root"
      (Ok Examples2.tree) true = Ok results
    /\ (Z.of_nat (List.length results) <= 3)%Z.
Proof.
  eexists. split; [vm_compute; reflexivity|].
  apply (listDir_bounded Examples2.listing_config Examples2.listing_library
           "/tmp/root" (Ok Examples2.tree) true).
  - vm_compute. discriminate.
  - vm_compute. reflexivity.
Defined.

Lemma firstn_full {A : Type} (l rest : list A) (n : nat) :
  List.length l = n -> firstn n (l ++ rest) = l.
Proof.
  intros <-. rewrite firstn_app, Nat.sub_diag, firstn_all. cbn. apply app_nil_r.
Qed.

Lemma scan_all_flat (cfg : Filesystem.Config) (lib : Listing.Library)
      (ign : string -> bool) (dirPath : string) (entries : list Listing.dirent) :
  (forall p, Listing.ignores lib p = Ok (ign p)) ->
  forall results,
    Spec2.room cfg results ->
    Listing.scan_all cfg lib false 0 dirPath entries results
    = Ok (firstn (Z.to_nat (Filesystem.MAX_RESULTS cfg))
            (results
             ++ flat_map
                  (fun e =>
                     let rel := Listing.getRelativePath cfg lib
                                  (Path.join [dirPath; Listing.dirent_name e]) in
                     if ign rel then [] else Spec2.listed rel e)
                  entries)).
Proof.
  intros I. induction entries as [|e entries IH]; intros results R.
  - cbn [Listing.scan_all flat_map]. rewrite app_nil_r.
    rewrite firstn_all2; [reflexivity|]. unfold Spec2.room in R. lia.
  - cbn [Listing.scan_all flat_map]. cbv zeta.
    assert (Push : forall x,
               (if Listing.full cfg (results ++ [x])%list
                then Ok (results ++ [x])%list
                else Listing.scan_all cfg lib false 0 dirPath entries
                       (results ++ [x])%list)
               = Ok (firstn (Z.to_nat (Filesystem.MAX_RESULTS cfg))
                       (results ++ [x] ++ flat_map
                          (fun e =>
                             let rel := Listing.getRelativePath cfg lib
                                          (Path.join [dirPath; Listing.dirent_name e]) in
                             if ign rel then [] else Spec2.listed rel e)
                          entries))).
    { intros x. rewrite app_assoc.
      destruct (Listing.full cfg (results ++ [x])%list) eqn:F.
      - rewrite firstn_full; [reflexivity|].
        unfold Listing.full in F. apply Z.leb_le in F.
        unfold Spec2.room in R. rewrite length_app in *. cbn [List.length] in *. lia.
      - apply IH. unfold Listing.full in F. apply Z.leb_gt in F. exact F. }
    destruct e as [n sz | n listing | n].
    + cbn [Listing.scan_entry Listing.dirent_name]. unfold Listing.shouldIgnore.
      rewrite I. destruct (ign _); [apply IH, R|]. apply Push.
    + rewrite scan_entry_directory. cbv zeta. cbn [Listing.dirent_name andb].
      unfold Listing.shouldIgnore. rewrite I. destruct (ign _); [apply IH, R|].
      apply Push.
    + cbn [Listing.scan_entry Listing.dirent_name]. unfold Listing.shouldIgnore.
      rewrite I. destruct (ign _); [apply IH, R|].
      cbn [Spec2.listed app].
      destruct (Listing.full cfg results) eqn:F; [|apply IH, R].
      unfold Listing.full in F. apply Z.leb_le in F. unfold Spec2.room in R. lia.
Qed.

(** X12. With a cap of at least one entry and a filter that answers on
    every path, a listing that is not recursive is the files and
    directories of the directory that the filter does not ignore, in the
    order [readdir] gives them, cut after the first [MAX_RESULTS]; an entry
    that is neither a file nor a directory is left out. *)
Theorem listDir_flat (cfg : Filesystem.Config) (lib : Listing.Library)
        (ign : string -> bool) (dirPath : string) (entries : list Listing.dirent) :
  (1 <= Filesystem.MAX_RESULTS cfg)%Z ->
  (forall p, Listing.ignores lib p = Ok (ign p)) ->
  Listing.listDir cfg lib dirPath (Ok entries) false
  = Ok (firstn (Z.to_nat (Filesystem.MAX_RESULTS cfg))
          (flat_map
             (fun e =>
                let rel := Listing.getRelativePath cfg lib
                             (Path.join [dirPath; Listing.dirent_name e]) in
                if ign rel then [] else Spec2.listed rel e)
             entries)).
Proof.
  intros M I. unfold Listing.listDir.
  rewrite (scan_all_flat cfg lib ign dirPath entries I []); [reflexivity|].
  unfold Spec2.room. cbn. lia.
Qed.

Lemma listDir_flat_witness :
  Listing.listDir Examples2.listing_config Examples2.listing_library "/tmp/root"
    (Ok Examples2.tree) false
  = Ok (firstn (Z.to_nat 3)
          (flat_map
             (fun e =>
                let rel := Listing.getRelativePath Examples2.listing_config
                             Examples2.listing_library
                             (Path.join ["/tmp/root"; Listing.dirent_name e]) in
                if Examples2.ignored rel then [] else Spec2.listed rel e)
             Examples2.tree)).
Proof.
  apply (listDir_flat Examples2.listing_config Examples2.listing_library
           Examples2.ignored "/tmp/root" Examples2.tree).
  - vm_compute. discriminate.
  - reflexivity.
Defined.

(** ** Sizes *)

Lemma tenths_nearest (num den : Z) :
  (0 < den)%Z ->
  (2 * Z.abs (10 * num - Sizes.tenths num den * den) <= den)%Z.
Proof.
  intros D. unfold Sizes.tenths.
  pose proof (Z.mul_div_le (20 * num + den) (2 * den) ltac:(lia)) as L.
  pose proof (Z.mul_succ_div_gt (20 * num + den) (2 * den) ltac:(lia)) as U.
  set (n := ((20 * num + den) / (2 * den))%Z) in *. nia.
Qed.

Lemma tenths_bounds (num den lo hi : Z) :
  (0 < den)%Z -> (lo * den <= num)%Z -> (num < hi * den)%Z ->
  (10 * lo <= Sizes.tenths num den <= 10 * hi)%Z.
Proof.
  intros D L H. unfold Sizes.tenths. split.
  - apply Z.div_le_lower_bound; [lia | nia].
  - apply Z.lt_succ_r. apply Z.div_lt_upper_bound; [lia | nia].
Qed.

(** X13. For a size of at least 1024 bytes, [formatSize] shows the size
    in the largest of the units KB, MB and GB that it reaches, with one
    decimal: the number shown is the nearest tenth of the quotient, at
    least [1.0], and at most [1024.0] below the GB range - the last value
    is shown for sizes just under the next unit. *)
Theorem formatSize_rounds (bytes : Z) :
  (1024 <= bytes)%Z ->
  exists n d unit,
    In (d, unit) [(Sizes.KB, " KB"); (Sizes.MB, " MB"); (Sizes.GB, " GB")]
    /\ Sizes.formatSize bytes
       = (Js.number_to_string (n / 10) ++ "." ++ Js.number_to_string (n mod 10))
         ++ unit
    /\ (d <= bytes)%Z
    /\ (2 * Z.abs (10 * bytes - n * d) <= d)%Z
    /\ (10 <= n)%Z
    /\ (unit <> " GB" -> bytes < 1024 * d /\ n <= 10240)%Z.
Proof.
  intros B. unfold Sizes.formatSize.
  destruct (bytes <? Sizes.KB)%Z eqn:E1; [apply Z.ltb_lt in E1; unfold Sizes.KB in E1; lia|].
  destruct (bytes <? Sizes.MB)%Z eqn:E2; [|destruct (bytes <? Sizes.GB)%Z eqn:E3].
  - apply Z.ltb_lt in E2.
    exists (Sizes.tenths bytes Sizes.KB), Sizes.KB, " KB".
    pose proof (tenths_bounds bytes Sizes.KB 1 1024) as T.
    unfold Sizes.KB, Sizes.MB in *.
    split; [left; reflexivity|]. split; [reflexivity|]. split; [lia|].
    split; [apply tenths_nearest; lia|]. split; [lia|]. intros _. lia.
  - apply Z.ltb_ge in E2. apply Z.ltb_lt in E3.
    exists (Sizes.tenths bytes Sizes.MB), Sizes.MB, " MB".
    pose proof (tenths_bounds bytes Sizes.MB 1 1024) as T.
    unfold Sizes.KB, Sizes.MB, Sizes.GB in *.
    split; [right; left; reflexivity|]. split; [reflexivity|]. split; [lia|].
    split; [apply tenths_nearest; lia|]. split; [lia|]. intros _. lia.
  - apply Z.ltb_ge in E2, E3.
    exists (Sizes.tenths bytes Sizes.GB), Sizes.GB, " GB".
    pose proof (tenths_bounds bytes Sizes.GB 1 (bytes + 1)) as T.
    unfold Sizes.KB, Sizes.MB, Sizes.GB in *.
    split; [right; right; left; reflexivity|]. split; [reflexivity|]. split; [lia|].
    split; [apply tenths_nearest; lia|]. split; [lia|]. intros N. now contradiction N.
Qed.

Lemma formatSize_rounds_witness :
  exists n d unit,
    In (d, unit) [(Sizes.KB, " KB"); (Sizes.MB, " MB"); (Sizes.GB, " GB")]
    /\ Sizes.formatSize 1048575
       = (Js.number_to_string (n / 10) ++ "." ++ Js.number_to_string (n mod 10))
         ++ unit
    /\ (d <= 1048575)%Z
    /\ (2 * Z.abs (10 * 1048575 - n * d) <= d)%Z
    /\ (10 <= n)%Z
    /\ (unit <> " GB" -> 1048575 < 1024 * d /\ n <= 10240)%Z.
Proof.
  apply (formatSize_rounds 1048575). lia.
Defined.

(** ** The note cache and the searches of the Obsidian adapter *)




Lemma insert_by_in {A : Type} (key : A -> Z) (x y : A) (l : list A) :
  In y (Obsidian.insert_by key x l) <-> y = x \/ In y l.
Proof.
  induction l as [|z l IH]; cbn [Obsidian.insert_by].
  - cbn. intuition congruence.
  - destruct (key z <=? key x)%Z; cbn [In]; [intuition congruence|].
    rewrite IH. intuition congruence.
Qed.

Lemma sort_by_in {A : Type} (key : A -> Z) (y : A) (l : list A) :
  In y (Obsidian.sort_by key l) <-> In y l.
Proof.
  unfold Obsidian.sort_by. induction l as [|x l IH]; cbn [fold_right In]; [tauto|].
  rewrite insert_by_in, IH. intuition congruence.
Qed.

Lemma decreasing_cons {A : Type} (key : A -> Z) (x : A) (l : list A) :
  Spec2.decreasing key (x :: l)
  <-> match l with [] => True | y :: _ => (key y <= key x)%Z end
      /\ Spec2.decreasing key l.
Proof. reflexivity. Qed.

Lemma insert_by_decreasing {A : Type} (key : A -> Z) (x : A) (l : list A) :
  Spec2.decreasing key l -> Spec2.decreasing key (Obsidian.insert_by key x l).
Proof.
  induction l as [|y l IH]; intros D; cbn [Obsidian.insert_by].
  - cbn. auto.
  - destruct (key y <=? key x)%Z eqn:E.
    + apply decreasing_cons. split; [apply Z.leb_le, E | exact D].
    + apply Z.leb_gt in E. apply decreasing_cons in D. destruct D as [D1 D2].
      apply decreasing_cons. split; [|apply IH, D2].
      destruct l as [|z l]; cbn [Obsidian.insert_by]; [lia|].
      destruct (key z <=? key x)%Z; lia.
Qed.

Lemma sort_by_decreasing {A : Type} (key : A -> Z) (l : list A) :
  Spec2.decreasing key (Obsidian.sort_by key l).
Proof.
  unfold Obsidian.sort_by. induction l as [|x l IH]; cbn [fold_right].
  - exact I.
  - apply insert_by_decreasing, IH.
Qed.

Lemma firstn_decreasing {A : Type} (key : A -> Z) (n : nat) (l : list A) :
  Spec2.decreasing key l -> Spec2.decreasing key (firstn n l).
Proof.
  revert l. induction n as [|n IH]; intros l D; [exact I|].
  destruct l as [|x l]; [exact I|]. cbn [firstn].
  apply decreasing_cons in D. destruct D as [D1 D2].
  apply decreasing_cons. split; [|apply IH, D2].
  destruct n; [exact I|]. destruct l; [exact I|]. exact D1.
Qed.

Lemma top_twenty {A : Type} (l : list A) :
  Js.slice l 0 Obsidian.MAX_RESULTS = firstn 20 l.
Proof.
  rewrite slice_from_start by (unfold Obsidian.MAX_RESULTS; lia). reflexivity.
Qed.

Lemma firstn_in {A : Type} (n : nat) (l : list A) (x : A) :
  In x (firstn n l) -> In x l.
Proof.
  intros H. rewrite <- (firstn_skipn n l). apply in_or_app. left. exact H.
Qed.

Lemma score_note_found (w : Obsidian.World) (lib : Obsidian.Library)
      (queryLower : string) (queryTerms : list string)
      (item : string * Obsidian.NoteMetadata) (r : Obsidian.SearchResult) :
  In r (Obsidian.score_note w lib queryLower queryTerms item) ->
  (0 < Obsidian.score r)%Z
  /\ Obsidian.r_path r = fst item
  /\ Obsidian.r_title r = Obsidian.title (snd item)
  /\ Obsidian.r_tags r = Obsidian.tags (snd item).
Proof.
  destruct item as [p note]. unfold Obsidian.score_note.
  destruct (Obsidian.readFileSync w _) as [noteContent|]; cbn [bind]; [|intros []].
  destruct (Obsidian.content_score lib _ _) as [matched|]; cbn [bind]; [|intros []].
  match goal with |- context [(?t >? 0)%Z] =>
    set (total := t); destruct (total >? 0)%Z eqn:G end;
    [|intros []].
  intros [<-|[]]. cbn [Obsidian.score Obsidian.r_path Obsidian.r_title
                         Obsidian.r_tags fst snd].
  apply Z.gtb_lt in G. repeat split. exact G.
Qed.

(** X15. What [searchNotes] returns, once the cache is fresh: at most
    twenty results, in decreasing order of score, each with a score above
    zero, and each one a note of the cache under its path, title and tags. *)
Theorem searchNotes_ranked (w : Obsidian.World) (lib : Obsidian.Library)
        (query : string) (st st' : Obsidian.Cache)
        (results : list Obsidian.SearchResult) :
  Obsidian.searchNotes w lib query st = (Ok results, st') ->
  List.length results <= 20
  /\ Spec2.decreasing Obsidian.score results
  /\ Forall (fun r =>
               (0 < Obsidian.score r)%Z
               /\ exists note,
                   In (Obsidian.r_path r, note) (Obsidian.noteCache st')
                   /\ Obsidian.r_title r = Obsidian.title note
                   /\ Obsidian.r_tags r = Obsidian.tags note) results.
Proof.
  unfold Obsidian.searchNotes, Obsidian.after_refresh.
  destruct (Obsidian.refreshCache w lib st) as [[u|m] st1]; [|discriminate].
  intros H. injection H as <- <-. rewrite top_twenty.
  split; [apply firstn_le_length|].
  split; [apply firstn_decreasing, sort_by_decreasing|].
  apply Forall_forall. intros r I. apply firstn_in, sort_by_in in I.
  apply in_flat_map in I. destruct I as [[p note] [I1 I2]].
  apply score_note_found in I2. cbn [fst snd] in I2.
  destruct I2 as [S [P [T G]]]. split; [exact S|].
  exists note. rewrite P. auto.
Qed.

Lemma searchNotes_ranked_witness :
  List.length Examples2.rocq_results <= 20
  /\ Spec2.decreasing Obsidian.score Examples2.rocq_results
  /\ Forall (fun r =>
               (0 < Obsidian.score r)%Z
               /\ exists note,
                   In (Obsidian.r_path r, note)
                      (Obsidian.noteCache Examples2.warm_cache)
                   /\ Obsidian.r_title r = Obsidian.title note
                   /\ Obsidian.r_tags r = Obsidian.tags note)
            Examples2.rocq_results.
Proof.
  apply (searchNotes_ranked Examples2.locked_vault Examples2.obsidian_library
           "rocq" Examples2.warm_cache).
  vm_compute. reflexivity.
Defined.

(** X16. What [listNotesByTag] returns, once the cache is fresh: at most
    twenty notes of the cache, each carrying a tag equal to the one asked
    for when case and one leading [#] of the request are ignored. *)
Theorem listNotesByTag_tagged (w : Obsidian.World) (lib : Obsidian.Library)
        (tag : string) (st st' : Obsidian.Cache)
        (results : list Obsidian.NoteMetadata) :
  Obsidian.listNotesByTag w lib tag st = (Ok results, st') ->
  List.length results <= 20
  /\ Forall (fun note =>
               (exists p, In (p, note) (Obsidian.noteCache st'))
               /\ exists t,
                   In t (Obsidian.tags note)
                   /\ Js.toLowerCase t
                      = Js.replace_leading "#"%char "" (Js.toLowerCase tag))
            results.
Proof.
  unfold Obsidian.listNotesByTag, Obsidian.after_refresh.
  destruct (Obsidian.refreshCache w lib st) as [[u|m] st1]; [|discriminate].
  intros H. injection H as <- <-. rewrite top_twenty.
  split; [apply firstn_le_length|].
  apply Forall_forall. intros note I. apply firstn_in, filter_In in I.
  destruct I as [I E]. split.
  - apply in_map_iff in I. destruct I as [[p n] [<- I]]. exists p. exact I.
  - apply existsb_exists in E. destruct E as [t [T E]].
    exists t. split; [exact T | apply String.eqb_eq, E].
Qed.

Lemma listNotesByTag_tagged_witness :
  List.length [Examples2.tagged_note] <= 20
  /\ Forall (fun note =>
               (exists p, In (p, note) (Obsidian.noteCache Examples2.tagged_cache))
               /\ exists t,
                   In t (Obsidian.tags note)
                   /\ Js.toLowerCase t
                      = Js.replace_leading "#"%char ""
                          (Js.toLowerCase Examples2.accented_request))
            [Examples2.tagged_note].
Proof.
  apply (listNotesByTag_tagged Examples2.locked_vault Examples2.obsidian_library
           Examples2.accented_request Examples2.tagged_cache).
  vm_compute. reflexivity.
Defined.

(** X17. What [getRecentNotes] returns, once the cache is fresh: at most
    twenty notes of the cache, the most recently modified first, each with a
    modification time that is set and not older than the days asked for. *)
Theorem getRecentNotes_recent (w : Obsidian.World) (lib : Obsidian.Library)
        (days : Z) (st st' : Obsidian.Cache)
        (results : list Obsidian.NoteMetadata) :
  Obsidian.getRecentNotes w lib days st = (Ok results, st') ->
  List.length results <= 20
  /\ Spec2.decreasing
       (fun note => Obsidian.modified_time lib (Obsidian.modified note)) results
  /\ Forall (fun note =>
               (exists p, In (p, note) (Obsidian.noteCache st'))
               /\ Obsidian.modified note <> ""
               /\ Obsidian.modified_since lib days (Obsidian.modified note) = true)
            results.
Proof.
  unfold Obsidian.getRecentNotes, Obsidian.after_refresh.
  destruct (Obsidian.refreshCache w lib st) as [[u|m] st1]; [|discriminate].
  intros H. injection H as <- <-. rewrite top_twenty.
  split; [apply firstn_le_length|].
  split; [apply firstn_decreasing, sort_by_decreasing|].
  apply Forall_forall. intros note I. apply firstn_in, sort_by_in, filter_In in I.
  destruct I as [I E]. apply andb_prop in E. destruct E as [E1 E2].
  split; [|split; [|exact E2]].
  - apply in_map_iff in I. destruct I as [[p n] [<- I]]. exists p. exact I.
  - intros M. rewrite M in E1. discriminate.
Qed.

Lemma getRecentNotes_recent_witness :
  List.length [Examples2.daily_note; Examples2.tactics_note] <= 20
  /\ Spec2.decreasing
       (fun note => Obsidian.modified_time Examples2.obsidian_library
                      (Obsidian.modified note))
       [Examples2.daily_note; Examples2.tactics_note]
  /\ Forall (fun note =>
               (exists p, In (p, note) (Obsidian.noteCache Examples2.warm_cache))
               /\ Obsidian.modified note <> ""
               /\ Obsidian.modified_since Examples2.obsidian_library 7
                    (Obsidian.modified note) = true)
            [Examples2.daily_note; Examples2.tactics_note].
Proof.
  apply (getRecentNotes_recent Examples2.locked_vault Examples2.obsidian_library
           7 Examples2.warm_cache).
  vm_compute. reflexivity.
Defined.

(** X18. [readNote] does not keep to the vault: given an absolute path
    with the [.md] suffix that names a readable file anywhere on disk, it
    returns the first [MAX_CONTENT_LENGTH] characters of that file, with
    the metadata the cache holds under the path relative to the vault or,
    when it holds none, the metadata [parseNote] gives for the file. *)
Theorem readNote_absolute_path (w : Obsidian.World) (lib : Obsidian.Library)
        (notePath body : string) (parsed : Obsidian.NoteMetadata)
        (st st' : Obsidian.Cache) :
  Obsidian.refreshCache w lib st = (Ok tt, st') ->
  Js.startsWith notePath "/" = true ->
  Js.endsWith notePath ".md" = true ->
  Obsidian.existsSync w notePath = true ->
  Obsidian.readFileSync w notePath = Ok body ->
  Obsidian.parseNote w notePath = Ok parsed ->
  Obsidian.readNote w lib notePath st
  = (Ok (Some (substring 0 (Z.to_nat Obsidian.MAX_CONTENT_LENGTH) body,
               match Obsidian.get (Obsidian.noteCache st')
                       (Obsidian.relative lib (Obsidian.VAULT_PATH w) notePath) with
               | Some cached => cached
               | None => parsed
               end)),
     st').
Proof.
  intros R A M E B P. unfold Obsidian.readNote, Obsidian.after_refresh.
  rewrite R, A. cbn [negb]. rewrite M. cbn [negb]. repeat (rewrite E; cbn [negb]).
  rewrite B. cbn [bind].
  destruct (Obsidian.get (Obsidian.noteCache st') _) as [m|].
  - reflexivity.
  - rewrite P. reflexivity.
Qed.

Lemma readNote_absolute_path_witness :
  Obsidian.readNote Examples2.locked_vault Examples2.obsidian_library
    "/etc/motd.md" Examples2.warm_cache
  = (Ok (Some (substring 0 (Z.to_nat Obsidian.MAX_CONTENT_LENGTH) "Welcome",
               match Obsidian.get (Obsidian.noteCache Examples2.warm_cache)
                       (Obsidian.relative Examples2.obsidian_library
                          (Obsidian.VAULT_PATH Examples2.locked_vault)
                          "/etc/motd.md") with
               | Some cached => cached
               | None =>
                   {| Obsidian.path := "/etc/motd.md"; Obsidian.title := "/etc/motd.md";
                      Obsidian.tags := []; Obsidian.links := [];
                      Obsidian.backlinks := []; Obsidian.modified := "" |}
               end)),
     Examples2.warm_cache).
Proof.
  apply (readNote_absolute_path Examples2.locked_vault Examples2.obsidian_library
           "/etc/motd.md" "Welcome"
           {| Obsidian.path := "/etc/motd.md"; Obsidian.title := "/etc/motd.md";
              Obsidian.tags := []; Obsidian.links := []; Obsidian.backlinks := [];
              Obsidian.modified := "" |}
           Examples2.warm_cache Examples2.warm_cache);
    reflexivity.
Defined.

(** ** Table names in the tools of the SQLite adapter *)



(** X20. Once the database is open, a search in one table whose name is
    valid always returns, and what it returns is fixed by two statements,
    in which the name stands as it is between double quotes.  The columns
    are asked with [PRAGMA table_info]; if that fails (the table may not
    exist) or names no text column, the result is empty.  Otherwise the rows
    are asked with one [LIKE] condition per text column, the search term
    being the parameter of each; if that fails or gives no row the result is
    empty, and else it is the table with exactly the rows the database
    gave. *)
Theorem searchTables_one_table (cfg : Sqlite.Config) (w : Sqlite.World)
        (database : Sqlite.Database) (term tableName : string) :
  Sqlite.getDatabase cfg w = Ok database ->
  Spec.loose_grammar tableName ->
  Sqlite.searchTables cfg w term (Some tableName)
  = Ok match Sqlite.all database
               ("PRAGMA table_info(" ++ quoted tableName ++ ")") [] with
       | Throw _ => []
       | Ok cols =>
           match filter Sqlite.is_text_column cols with
           | [] => []
           | textColumns =>
               match Sqlite.all database
                       ("SELECT * FROM " ++ quoted tableName ++ " WHERE "
                        ++ Js.join " OR " (map Sqlite.like_condition textColumns)
                        ++ " LIMIT 10")
                       (map (fun _ => Sqlite.Text term) textColumns) with
               | Ok (row :: rows) => [(tableName, row :: rows)]
               | Ok [] => []
               | Throw _ => []
               end
           end
       end.
Proof.
  intros D G. unfold Sqlite.searchTables. rewrite D. cbn [bind].
  pose proof (loose_name_quoted tableName G) as Q.
  destruct (validateIdentifier_cases tableName Sqlite.table) as [[V _]|[_ L]];
    [|contradiction].
  destruct G as [N _].
  destruct tableName as [|c s]; [contradiction|]. cbn [Js.is_empty].
  rewrite V. cbn [bind flat_map]. rewrite app_nil_r.
  unfold Sqlite.search_table. rewrite Q.
  destruct (Sqlite.all database _ []) as [cols|]; cbn [bind]; [|reflexivity].
  destruct (filter Sqlite.is_text_column cols) as [|col others]; [reflexivity|].
  destruct (Sqlite.all database _ _) as [[|row rows]|]; reflexivity.
Qed.

Lemma searchTables_one_table_witness :
  Sqlite.searchTables Examples.sqlite_config Examples2.users_world "alice"
    (Some "users")
  = Ok [("users", [Examples2.alice])].
Proof.
  rewrite (searchTables_one_table Examples.sqlite_config Examples2.users_world
             Examples2.users_database "alice" "users").
  - reflexivity.
  - reflexivity.
  - apply loose_identifier_spec. vm_compute. reflexivity.
Defined.

(** ** The sliding window of the rate limiter *)

Lemma filter_length_mono {A : Type} (p q : A -> bool) (l : list A) :
  (forall a, In a l -> p a = true -> q a = true) ->
  List.length (filter p l) <= List.length (filter q l).
Proof.
  induction l as [|a l IH]; intros H; [reflexivity|].
  cbn [filter].
  assert (IH' : List.length (filter p l) <= List.length (filter q l)).
  { apply IH. intros b I. apply H. right. exact I. }
  destruct (p a) eqn:P.
  - rewrite (H a (or_introl eq_refl) P). cbn [List.length]. lia.
  - destruct (q a); cbn [List.length]; lia.
Qed.

Lemma in_window_later (lo now : Z) (timestamps : list Z) :
  (lo <= now)%Z ->
  RateLimiter.in_window now (RateLimiter.in_window lo timestamps)
  = RateLimiter.in_window now timestamps.
Proof.
  intros L. unfold RateLimiter.in_window.
  induction timestamps as [|a l IH]; [reflexivity|].
  cbn [filter]. destruct (lo - a <? RateLimiter.windowMs)%Z eqn:E1.
  - cbn [filter]. rewrite IH. reflexivity.
  - rewrite IH. destruct (now - a <? RateLimiter.windowMs)%Z eqn:E2; [|reflexivity].
    apply Z.ltb_ge in E1. apply Z.ltb_lt in E2. lia.
Qed.

Lemma in_window_push (now : Z) (timestamps : list Z) :
  RateLimiter.in_window now (timestamps ++ [now])
  = (RateLimiter.in_window now timestamps ++ [now])%list.
Proof.
  unfold RateLimiter.in_window. rewrite filter_app. cbn [filter].
  replace (now - now)%Z with 0%Z by lia. reflexivity.
Qed.

Lemma monotone_after (t : Z) (later : list Z) :
  Spec2.monotone (t :: later) ->
  Spec2.monotone later /\ forall x, In x later -> (t <= x)%Z.
Proof.
  revert t. induction later as [|t' later IH]; intros t [H1 H2].
  - split; [exact I | intros x []].
  - split; [exact H2|]. intros x [<-|X]; [exact H1|].
    destruct (IH t' H2) as [_ K]. specialize (K x X). lia.
Qed.

(** The history of the accepted requests behind the array of a limiter:
    the array is the part of the history in the window of [lo], nothing in
    the history is later than [lo], and no minute of the history holds more
    than [bound] requests. *)
Lemma accepted_sliding (maxRequests : Z) (clock : list Z) :
  forall (history timestamps : list Z) (lo : Z),
    timestamps = RateLimiter.in_window lo history ->
    (forall a, In a history -> (a <= lo)%Z) ->
    (forall t, (Z.of_nat (List.length (Spec2.in_minute_before t history))
                <= Z.max maxRequests 0)%Z) ->
    (forall now, In now clock -> (lo <= now)%Z) ->
    Spec2.monotone clock ->
    forall t,
      (Z.of_nat (List.length
                   (Spec2.in_minute_before t
                      (history ++ Spec2.accepted maxRequests clock timestamps)))
       <= Z.max maxRequests 0)%Z.
Proof.
  induction clock as [|now later IH]; intros history timestamps lo E P W L M t.
  - cbn [Spec2.accepted]. rewrite app_nil_r. apply W.
  - destruct (monotone_after now later M) as [M' After].
    assert (Lo : (lo <= now)%Z) by (apply L; left; reflexivity).
    cbn [Spec2.accepted]. unfold RateLimiter.checkLimit.
    rewrite E, (in_window_later lo now history Lo).
    set (ts1 := RateLimiter.in_window now history).
    destruct (maxRequests <=? Z.of_nat (List.length ts1))%Z eqn:Full.
    + apply (IH history ts1 now); auto.
      intros a I. specialize (P a I). lia.
    + apply Z.leb_gt in Full.
      replace (history ++ now :: Spec2.accepted maxRequests later (ts1 ++ [now]))%list
        with ((history ++ [now])
                ++ Spec2.accepted maxRequests later (ts1 ++ [now]))%list
        by (rewrite <- app_assoc; reflexivity).
      apply (IH (history ++ [now])%list (ts1 ++ [now])%list now); auto.
      * unfold ts1. symmetry. apply in_window_push.
      * intros a I. apply in_app_or in I. destruct I as [I|[<-|[]]]; [|lia].
        specialize (P a I). lia.
      * intros t0. unfold Spec2.in_minute_before. rewrite filter_app, length_app.
        cbn [filter].
        destruct ((t0 - now <? RateLimiter.windowMs)%Z && (now <=? t0)%Z) eqn:C.
        -- apply andb_prop in C. destruct C as [C1 C2]. apply Z.leb_le in C2.
           assert (F : List.length
                         (filter (fun a => (t0 - a <? RateLimiter.windowMs)%Z
                                           && (a <=? t0)%Z) history)
                       <= List.length ts1).
           { unfold ts1, RateLimiter.in_window. apply filter_length_mono.
             intros a _ Q. apply andb_prop in Q. destruct Q as [Q _].
             apply Z.ltb_lt in Q. apply Z.ltb_lt. lia. }
           cbn [List.length]. lia.
        -- cbn [List.length]. specialize (W t0).
           unfold Spec2.in_minute_before in W. lia.
Qed.

(** X21. Whatever the times at which [checkLimit] is called on a new
    limiter, as long as the clock does not go back, no window of one minute
    holds more accepted requests than [maxRequests] (none at all for a
    limit below one). *)
Theorem rate_limit_holds (maxRequests : Z) (clock : list Z) (t : Z) :
  Spec2.monotone clock ->
  (Z.of_nat (List.length
               (Spec2.in_minute_before t (Spec2.accepted maxRequests clock [])))
   <= Z.max maxRequests 0)%Z.
Proof.
  intros M.
  destruct clock as [|now later]; [cbn; lia|].
  apply (accepted_sliding maxRequests (now :: later) [] [] now); auto.
  - intros a [].
  - intros t0. cbn. lia.
  - destruct (monotone_after now later M) as [_ After].
    intros x [<-|X]; [lia | apply After, X].
Qed.

Lemma rate_limit_holds_witness :
  (Z.of_nat (List.length
               (Spec2.in_minute_before 60010
                  (Spec2.accepted 2 [0; 10; 20; 60000; 60005; 60015; 60020]%Z [])))
   <= Z.max 2 0)%Z.
Proof.
  apply (rate_limit_holds 2 [0; 10; 20; 60000; 60005; 60015; 60020]%Z 60010).
  cbn. lia.
Defined.

Lemma in_window_idempotent (now : Z) (timestamps : list Z) :
  RateLimiter.in_window now (RateLimiter.in_window now timestamps)
  = RateLimiter.in_window now timestamps.
Proof. apply in_window_later. lia. Qed.

(** X22. [getRemaining] predicts [checkLimit]: at a given time a request
    is accepted exactly when the remaining count is above zero, and an
    accepted request lowers the remaining count at that time by one. *)
Theorem remaining_predicts_checkLimit (maxRequests now : Z) (timestamps : list Z) :
  ((0 < fst (RateLimiter.getRemaining maxRequests now timestamps))%Z
   <-> fst (RateLimiter.checkLimit maxRequests now timestamps) = Ok tt)
  /\ (fst (RateLimiter.checkLimit maxRequests now timestamps) = Ok tt ->
      fst (RateLimiter.getRemaining maxRequests now
             (snd (RateLimiter.checkLimit maxRequests now timestamps)))
      = (fst (RateLimiter.getRemaining maxRequests now timestamps) - 1)%Z).
Proof.
  unfold RateLimiter.getRemaining, RateLimiter.checkLimit. cbn [fst snd].
  set (ts1 := RateLimiter.in_window now timestamps).
  destruct (maxRequests <=? Z.of_nat (List.length ts1))%Z eqn:Full; cbn [fst snd].
  - apply Z.leb_le in Full. split; [|discriminate].
    split; [lia | discriminate].
  - apply Z.leb_gt in Full. split; [split; [reflexivity | lia]|].
    intros _. rewrite in_window_push. unfold ts1. rewrite in_window_idempotent.
    fold ts1. rewrite length_app. cbn [List.length]. lia.
Qed.

Lemma seconds_cover (waitTime : Z) : (waitTime <= 1000 * RateLimiter.seconds waitTime)%Z.
Proof.
  unfold RateLimiter.seconds.
  pose proof (Z.mul_div_le (- waitTime) 1000 ltac:(lia)). lia.
Qed.

(** X23. The wait that a refusal announces is enough.  For a limit of at
    least one and an array within the limit, a refused call names in its
    message the seconds until the oldest request of the window leaves it;
    a call made that many seconds later, or at any time after, is accepted. *)
Theorem announced_wait_suffices (maxRequests now : Z) (timestamps left : list Z)
        (message : string) :
  (0 < maxRequests)%Z ->
  (Z.of_nat (List.length timestamps) <= maxRequests)%Z ->
  RateLimiter.checkLimit maxRequests now timestamps = (Throw message, left) ->
  exists oldest rest,
    left = oldest :: rest
    /\ message
       = "Rate limit exceeded (" ++ Js.number_to_string maxRequests ++ "/min). "
         ++ "Try again in "
         ++ Js.number_to_string
              (RateLimiter.seconds (RateLimiter.windowMs - (now - oldest)))
         ++ " seconds."
    /\ forall later,
        (now + 1000 * RateLimiter.seconds (RateLimiter.windowMs - (now - oldest))
         <= later)%Z ->
        fst (RateLimiter.checkLimit maxRequests later left) = Ok tt.
Proof.
  intros Pos Cap. unfold RateLimiter.checkLimit.
  set (ts1 := RateLimiter.in_window now timestamps).
  assert (Le : List.length ts1 <= List.length timestamps)
    by apply List.filter_length_le.
  destruct (maxRequests <=? Z.of_nat (List.length ts1))%Z eqn:Full; [|discriminate].
  apply Z.leb_le in Full. intros H. injection H as <- <-.
  destruct ts1 as [|oldest rest] eqn:E; [cbn in Full; lia|].
  exists oldest, rest. split; [reflexivity|]. split; [reflexivity|].
  intros later L.
  pose proof (seconds_cover (RateLimiter.windowMs - (now - oldest))) as S.
  unfold RateLimiter.in_window at 1. cbn [filter].
  destruct (later - oldest <? RateLimiter.windowMs)%Z eqn:W;
    [apply Z.ltb_lt in W; lia|].
  fold (RateLimiter.in_window later rest).
  assert (R : List.length (RateLimiter.in_window later rest) <= List.length rest)
    by apply List.filter_length_le.
  cbn [List.length] in *.
  destruct (maxRequests <=? _)%Z eqn:F; [|reflexivity].
  apply Z.leb_le in F. lia.
Qed.

Lemma announced_wait_suffices_witness :
  exists oldest rest,
    [1000; 1500]%Z = oldest :: rest
    /\ RateLimiter.exceeded 2 2000 [1000; 1500]%Z
       = "Rate limit exceeded (" ++ Js.number_to_string 2 ++ "/min). "
         ++ "Try again in "
         ++ Js.number_to_string
              (RateLimiter.seconds (RateLimiter.windowMs - (2000 - oldest)))
         ++ " seconds."
    /\ forall later,
        (2000 + 1000 * RateLimiter.seconds (RateLimiter.windowMs - (2000 - oldest))
         <= later)%Z ->
        fst (RateLimiter.checkLimit 2 later [1000; 1500]%Z) = Ok tt.
Proof.
  apply (announced_wait_suffices 2 2000 [1000; 1500]%Z [1000; 1500]%Z
           (RateLimiter.exceeded 2 2000 [1000; 1500]%Z)).
  - lia.
  - cbn. lia.
  - reflexivity.
Defined.

(** ** Searching the contents of files *)


Section Searches.
Variable cfg : Filesystem.Config.
Variable w : Filesystem.World.
Variable toString : list byte -> string.
Variable lib : Listing.Library.
Variable query : string.





End Searches.



(** ** The gate of [pg_query], in full *)

(** X25. The gate of [pg_query] lets a query through exactly when its
    trimmed text begins, in any case, with [SELECT] or [WITH] and none of
    the ten denied keywords occurs in it as a whole word. *)
Theorem postgres_gate_accepts (query : string) :
  Postgres.gate query = None
  <-> Spec.begins_with_any Spec.postgres_leading query
      /\ (forall k, In k Postgres.dangerous -> ~ Spec.whole_word k query).
Proof.
  pose proof (first_forbidden_whole_word Postgres.dangerous query postgres_keywords)
    as [F1 F2].
  destruct (gate_cases query) as [[k [F G]] | [[F [B G]] | [F [B G]]]]; rewrite G.
  - split; [discriminate|]. intros [_ D].
    destruct (F1 k F) as [I W]. exfalso. exact (D k I W).
  - split; [discriminate|]. intros [B' _]. contradiction.
  - split; [|reflexivity]. intros _. split; [exact B | apply F2, F].
Qed.

(** ** The scan of the vault *)

Lemma entry_induction (P : Obsidian.entry -> Prop) :
  (forall n, P (Obsidian.File n)) ->
  (forall n exists_ message, P (Obsidian.Dir n exists_ (Throw message))) ->
  (forall n exists_ sub, Forall P sub -> P (Obsidian.Dir n exists_ (Ok sub))) ->
  (forall n, P (Obsidian.Other n)) ->
  forall e, P e.
Proof.
  intros HF HT HD HO. fix IH 1. intros [n | n x [sub | m] | n].
  - apply HF.
  - apply HD. induction sub as [|e sub IHsub]; constructor; [apply IH | exact IHsub].
  - apply HT.
  - apply HO.
Qed.

Lemma scan_entry_directory_notes (dir n : string) (exists_ : bool)
      (listing : result (list Obsidian.entry)) (files : list string) :
  Obsidian.scan_entry dir (Obsidian.Dir n exists_ listing) files
  = if Js.startsWith n "." || String.eqb n "node_modules" then Ok files
    else if negb exists_ then Ok files
    else match listing with
         | Throw message => Throw message
         | Ok sub => Obsidian.scan (Path.join [dir; n]) sub files
         end.
Proof.
  cbn [Obsidian.scan_entry Obsidian.entry_name].
  destruct (Js.startsWith n "." || String.eqb n "node_modules"); [reflexivity|].
  destruct (negb exists_); [reflexivity|].
  destruct listing as [sub|]; [|reflexivity].
  revert files. induction sub as [|e sub IHsub]; intros files; [reflexivity|].
  cbn [Obsidian.scan].
  destruct (Obsidian.scan_entry (Path.join [dir; n]) e files); [apply IHsub | reflexivity].
Qed.

Lemma scan_markdown (entries : list Obsidian.entry) :
  Forall (fun e => forall dir files found,
              Forall Spec2.markdown_file files ->
              Obsidian.scan_entry dir e files = Ok found ->
              Forall Spec2.markdown_file found) entries ->
  forall dir files found,
    Forall Spec2.markdown_file files ->
    Obsidian.scan dir entries files = Ok found ->
    Forall Spec2.markdown_file found.
Proof.
  induction 1 as [|e entries He _ IH]; intros dir files found M; cbn [Obsidian.scan].
  - intros H. injection H as <-. exact M.
  - destruct (Obsidian.scan_entry dir e files) as [files'|] eqn:E; [|discriminate].
    apply IH. exact (He _ _ _ M E).
Qed.

Lemma scan_entry_markdown (e : Obsidian.entry) :
  forall dir files found,
    Forall Spec2.markdown_file files ->
    Obsidian.scan_entry dir e files = Ok found ->
    Forall Spec2.markdown_file found.
Proof.
  induction e as [n | n x message | n x sub IH | n] using entry_induction;
    intros dir files found M.
  - cbn [Obsidian.scan_entry Obsidian.entry_name].
    destruct (Js.startsWith n ".") eqn:Dot; cbn [orb];
      [intros H; injection H as <-; exact M|].
    destruct (String.eqb n "node_modules");
      [intros H; injection H as <-; exact M|].
    destruct (String.eqb (Path.extname n) ".md") eqn:X;
      intros H; injection H as <-; [|exact M].
    apply Forall_app. split; [exact M|]. constructor; [|constructor].
    exists dir, n. split; [reflexivity|]. split; [apply String.eqb_eq, X | exact Dot].
  - rewrite scan_entry_directory_notes.
    destruct (Js.startsWith n "." || String.eqb n "node_modules");
      [intros H; injection H as <-; exact M|].
    destruct (negb x); [intros H; injection H as <-; exact M | discriminate].
  - rewrite scan_entry_directory_notes.
    destruct (Js.startsWith n "." || String.eqb n "node_modules");
      [intros H; injection H as <-; exact M|].
    destruct (negb x); [intros H; injection H as <-; exact M|].
    apply (scan_markdown sub IH). exact M.
  - cbn [Obsidian.scan_entry Obsidian.entry_name].
    destruct (Js.startsWith n "." || String.eqb n "node_modules");
      intros H; injection H as <-; exact M.
Qed.

(** X26. A vault directory that does not exist gives no path and no
    error.  For a vault that exists, every path that the scan returns is a
    file whose name has the suffix [.md] and does not begin with a dot,
    whatever the tree below the vault. *)
Theorem getAllMarkdownFiles_markdown (w : Obsidian.World) :
  (Obsidian.vault_exists w = false -> Obsidian.getAllMarkdownFiles w = Ok [])
  /\ (forall files,
         Obsidian.getAllMarkdownFiles w = Ok files ->
         Forall Spec2.markdown_file files).
Proof.
  unfold Obsidian.getAllMarkdownFiles. split.
  - intros E. rewrite E. reflexivity.
  - intros files. destruct (Obsidian.vault_exists w); cbn [negb].
    + destruct (Obsidian.vault_listing w) as [entries|]; [|discriminate].
      intros H.
      apply (scan_markdown entries) with (dir := Obsidian.VAULT_PATH w) (files := []);
        [| constructor | exact H].
      apply Forall_forall. intros e _. apply scan_entry_markdown.
    + intros H. injection H as <-. constructor.
Qed.

Lemma getAllMarkdownFiles_markdown_witness :
  Obsidian.getAllMarkdownFiles Examples2.missing_vault = Ok []
  /\ Forall Spec2.markdown_file
       ["/home/user/vault/proofs/tactics.md"; "/home/user/vault/index.md"].
Proof.
  split.
  - apply (proj1 (getAllMarkdownFiles_markdown Examples2.missing_vault)).
    reflexivity.
  - apply (proj2 (getAllMarkdownFiles_markdown Examples2.small_vault)).
    vm_compute. reflexivity.
Defined.

